(** * ThingsPanel data pipeline: DataWarehouse, UnifiedDataExecutor,
      SimpleDataBridge and DataItemFetcher

    A shallow embedding of the TypeScript sources

      - src/core/data-architecture/DataWarehouse.ts
      - src/core/data-architecture/UnifiedDataExecutor.ts
      - src/core/data-architecture/SimpleDataBridge.ts
      - src/core/data-architecture/executors/DataItemFetcher.ts
      - the configuration event bus (class ConfigEventBus)

    and the theorems that settle the specification's claims about them.

    Conventions of the embedding.
      - A JavaScript value of type [any] is an immutable tree [JS.Value];
        numbers are the integers ([Z]), so NaN, infinities and fractions are
        outside the model, and a string is the UTF-8 encoding of its text
        (for ASCII text a byte is a UTF-16 code unit, which is what
        [length] and [charCodeAt] count). A value has own properties only:
        what an object inherits is modelled where the sources install a
        prototype themselves ([JS.PlainObject]). A caller that mutates an
        object it was handed is outside the model too.
      - A JavaScript [Map] whose iteration order the code observes is an
        insertion-ordered association list ([JS.ordmap]), and so is a plain
        object built key by key (the enumeration order of integer-like keys
        is not modelled); a [Map] that is only looked up is a [gmap].
      - [Date.now()] and [Math.random()] are inputs of the operation that
        reads them. [storeComponentData] gets its two clock reads
        separately; the other operations read the clock once per call.
      - A function that can throw returns [JS.Completion]; a promise is
        given by what it settles to, and the order in which promises settle
        is an input. Console output, the [window.debug*] fields and the
        floating-point response-time metrics are not part of the state. *)

From Stdlib Require Import ZArith Lia Ascii String.
From Stdlib Require OrderedTypeEx.
From stdpp Require Import base option list strings gmap sorting.

Local Open Scope Z_scope.

(** ** JavaScript values and the built-ins the sources use *)

Module JS.

#[warnings="-register-all"]
Inductive Value : Type :=
| VUndefined
| VNull
| VBool (b : bool)
| VNum (n : Z)
| VStr (s : string)
| VArr (items : list Value)
| VObj (fields : list (string * Value)).

(** A normal or an abrupt (throw) completion. *)
Inductive Completion (A : Type) : Type :=
| Normal (a : A)
| Throw (e : Value).
Arguments Normal {A} a.
Arguments Throw {A} e.

(** An [Error] object, as far as the sources look at one: its [message]. *)
Definition mkError (msg : string) : Value := VObj [("message", VStr msg)].

(** ToBoolean. *)
Definition truthy (v : Value) : bool :=
  match v with
  | VUndefined | VNull => false
  | VBool b => b
  | VNum n => negb (n =? 0)
  | VStr s => negb (bool_decide (s = ""))
  | VArr _ | VObj _ => true
  end.

(** [typeof v === 'object'] (which [null] satisfies too). *)
Definition typeofObject (v : Value) : bool :=
  match v with VNull | VArr _ | VObj _ => true | _ => false end.

(** *** Insertion-ordered maps: [Map] and plain objects *)

Abbreviation ordmap V := (list (string * V)).

Fixpoint ordmap_get {V} (m : ordmap V) (k : string) : option V :=
  match m with
  | [] => None
  | (k', v) :: m' => if bool_decide (k' = k) then Some v else ordmap_get m' k
  end.

(** [Map.prototype.set]: an existing key keeps its place, a new key goes
    last. *)
Fixpoint ordmap_set {V} (m : ordmap V) (k : string) (v : V) : ordmap V :=
  match m with
  | [] => [(k, v)]
  | (k', v') :: m' =>
      if bool_decide (k' = k) then (k, v) :: m' else (k', v') :: ordmap_set m' k v
  end.

Definition ordmap_delete {V} (m : ordmap V) (k : string) : ordmap V :=
  filter (fun kv => kv.1 ≠ k) m.

Definition ordmap_has {V} (m : ordmap V) (k : string) : bool :=
  match ordmap_get m k with Some _ => true | None => false end.

(** *** Strings *)

Definition charCode (c : ascii) : Z := Z.of_nat (nat_of_ascii c).

(** The white space that [trim] and [parseInt] strip: WhiteSpace and
    LineTerminator of the language, by their UTF-8 encodings. One byte:
    TAB, LF, VT, FF, CR and the space. *)
Definition isWhiteSpace (c : ascii) : bool :=
  let n := charCode c in ((9 <=? n) && (n <=? 13)) || (n =? 32).

(** Two bytes: U+00A0. *)
Definition isWhiteSpace2 (a b : ascii) : bool :=
  (charCode a =? 194) && (charCode b =? 160).

(** Three bytes: U+1680, U+2000 to U+200A, U+2028, U+2029, U+202F, U+205F,
    U+3000 and U+FEFF. *)
Definition isWhiteSpace3 (a b c : ascii) : bool :=
  let x := charCode a in
  let y := charCode b in
  let z := charCode c in
  ((x =? 225) && (y =? 154) && (z =? 128))
  || ((x =? 226) && (y =? 128)
      && (((128 <=? z) && (z <=? 138)) || (z =? 168) || (z =? 169) || (z =? 175)))
  || ((x =? 226) && (y =? 129) && (z =? 159))
  || ((x =? 227) && (y =? 128) && (z =? 128))
  || ((x =? 239) && (y =? 187) && (z =? 191)).

(** The number of bytes of the white space character that [s] starts
    with, 0 when it starts with none. With [backwards] the bytes of [s]
    are read as those of a reversed string. *)
Definition whiteSpaceBytes (backwards : bool) (s : string) : nat :=
  match s with
  | String a r =>
      if isWhiteSpace a then 1%nat
      else
        match r with
        | String b r' =>
            if (if backwards then isWhiteSpace2 b a else isWhiteSpace2 a b) then 2%nat
            else
              match r' with
              | String c _ =>
                  if (if backwards then isWhiteSpace3 c b a else isWhiteSpace3 a b c)
                  then 3%nat else 0%nat
              | EmptyString => 0%nat
              end
        | EmptyString => 0%nat
        end
  | EmptyString => 0%nat
  end.

(** Strips the white space characters at the start; [skip] bytes of one
    are still to go. *)
Fixpoint stripWhiteSpace (backwards : bool) (skip : nat) (s : string) : string :=
  match s with
  | EmptyString => EmptyString
  | String _ r =>
      match skip with
      | S k => stripWhiteSpace backwards k r
      | O =>
          match whiteSpaceBytes backwards s with
          | O => s
          | S k => stripWhiteSpace backwards k r
          end
      end
  end.

Definition trimStart (s : string) : string := stripWhiteSpace false 0 s.

Definition trim (s : string) : string :=
  String.rev (stripWhiteSpace true 0 (String.rev (trimStart s))).

Fixpoint startsWith (p s : string) : bool :=
  match p, s with
  | EmptyString, _ => true
  | String a p', String b s' => bool_decide (a = b) && startsWith p' s'
  | String _ _, EmptyString => false
  end.

Fixpoint includes (s sub : string) : bool :=
  startsWith sub s ||
  match s with
  | EmptyString => false
  | String _ s' => includes s' sub
  end.

Definition endsWith (s suffix : string) : bool :=
  startsWith (String.rev suffix) (String.rev s).

Fixpoint dropString (n : nat) (s : string) : string :=
  match n, s with
  | S n', String _ s' => dropString n' s'
  | _, _ => s
  end.

(** The replacement text of [String.prototype.replace] with its patterns
    expanded: [$$] is a dollar sign, [$&] the matched text, [$`] the text
    before the match and [$'] the text after it. A string pattern has no
    captures, so every other [$] stands for itself. *)
Fixpoint expandReplacement (matched before after rep : string) : string :=
  match rep with
  | EmptyString => EmptyString
  | String a r =>
      if bool_decide (a = "$"%char)
      then
        match r with
        | String c rest =>
            if bool_decide (c = "$"%char)
            then String "$" (expandReplacement matched before after rest)
            else if bool_decide (c = "&"%char)
            then matched +:+ expandReplacement matched before after rest
            else if bool_decide (c = "`"%char)
            then before +:+ expandReplacement matched before after rest
            else if bool_decide (c = "'"%char)
            then after +:+ expandReplacement matched before after rest
            else String a (expandReplacement matched before after r)
        | EmptyString => String a EmptyString
        end
      else String a (expandReplacement matched before after r)
  end.

(** The search of [replace] for the first occurrence of [pat], [before]
    being the text already passed. *)
Fixpoint replaceFrom (before s pat rep : string) : string :=
  if startsWith pat s
  then
    let after := dropString (String.length pat) s in
    before +:+ expandReplacement pat before after rep +:+ after
  else match s with
       | EmptyString => before
       | String c s' => replaceFrom (before +:+ String c EmptyString) s' pat rep
       end.

(** [s.replace(pat, rep)] with a string pattern: the first occurrence
    only. *)
Definition replaceFirst (s pat rep : string) : string := replaceFrom EmptyString s pat rep.

(** [s.split(sep)] for a one-character separator. *)
Fixpoint split (sep : ascii) (s : string) : list string :=
  match s with
  | EmptyString => [EmptyString]
  | String c s' =>
      if bool_decide (c = sep) then EmptyString :: split sep s'
      else match split sep s' with
           | [] => [String c EmptyString]
           | h :: t => String c h :: t
           end
  end.

(** [parts.join(sep)]. *)
Fixpoint join (sep : string) (l : list string) : string :=
  match l with
  | [] => EmptyString
  | [x] => x
  | x :: l' => x +:+ sep +:+ join sep l'
  end.

Definition upperChar (c : ascii) : ascii :=
  let n := nat_of_ascii c in
  if ((97 <=? n) && (n <=? 122))%nat then ascii_of_nat (n - 32) else c.

Fixpoint toUpperCase (s : string) : string :=
  match s with
  | EmptyString => EmptyString
  | String c s' => String (upperChar c) (toUpperCase s')
  end.

(** *** Numbers and their text *)

Definition digitChar (d : Z) : ascii :=
  if d <? 10 then ascii_of_nat (Z.to_nat (48 + d))
  else ascii_of_nat (Z.to_nat (87 + d)).

Definition digitValue (c : ascii) : option Z :=
  let n := charCode c in
  if (48 <=? n) && (n <=? 57) then Some (n - 48)
  else if (97 <=? n) && (n <=? 122) then Some (n - 87)
  else if (65 <=? n) && (n <=? 90) then Some (n - 55)
  else None.

Fixpoint natDigits (fuel : nat) (radix n : Z) (acc : string) : string :=
  match fuel with
  | O => acc
  | S fuel' =>
      let acc' := String (digitChar (n mod radix)) acc in
      if n / radix =? 0 then acc' else natDigits fuel' radix (n / radix) acc'
  end.

(** [n.toString(radix)] for an integer [n]. *)
Definition toStringRadix (radix n : Z) : string :=
  if n <? 0
  then String "-" (natDigits (S (Z.to_nat (Z.log2 (- n)))) radix (- n) EmptyString)
  else natDigits (S (Z.to_nat (Z.log2 n))) radix n EmptyString.

Definition numberToString (n : Z) : string := toStringRadix 10 n.

(** Text made of decimal digits only. *)
Fixpoint digitsOnly (s : string) : bool :=
  match s with
  | EmptyString => true
  | String c s' =>
      match digitValue c with
      | Some d => d <? 10
      | None => false
      end && digitsOnly s'
  end.

(** The longest prefix of digits below [radix], read as a number. *)
Fixpoint readDigits (radix : Z) (s : string) (acc : option Z) : option Z :=
  match s with
  | EmptyString => acc
  | String c s' =>
      match digitValue c with
      | Some d =>
          if d <? radix
          then readDigits radix s' (Some (default 0 acc * radix + d))
          else acc
      | None => acc
      end
  end.

(** [parseInt(s)] without a radix argument; [None] is NaN. *)
Definition parseInt (s : string) : option Z :=
  let s1 := trimStart s in
  let '(neg, s2) :=
    match s1 with
    | String c r =>
        if bool_decide (c = "-"%char) then (true, r)
        else if bool_decide (c = "+"%char) then (false, r)
        else (false, s1)
    | EmptyString => (false, s1)
    end in
  let r :=
    if startsWith "0x" s2 || startsWith "0X" s2
    then readDigits 16 (dropString 2 s2) None
    else readDigits 10 s2 None in
  (fun z => if neg then - z else z) <$> r.

(** ToInt32, the result type of the bitwise operators. *)
Definition toInt32 (x : Z) : Z :=
  let m := x mod 2 ^ 32 in if m <? 2 ^ 31 then m else m - 2 ^ 32.

(** The 31-multiplier string hash both classes carry:
    [hash = ((hash << 5) - hash) + char; hash = hash & hash]. *)
Fixpoint hashLoop (s : string) (hash : Z) : Z :=
  match s with
  | EmptyString => hash
  | String c s' => hashLoop s' (toInt32 (toInt32 (hash * 32) - hash + charCode c))
  end.

(** *** Conversions and property access *)

Definition dropNullish (f : Value -> string) (v : Value) : string :=
  match v with VUndefined | VNull => EmptyString | _ => f v end.

(** [String(v)], also what a template literal applies. *)
Fixpoint toString (v : Value) : string :=
  match v with
  | VUndefined => "undefined"
  | VNull => "null"
  | VBool true => "true"
  | VBool false => "false"
  | VNum n => numberToString n
  | VStr s => s
  | VArr items => join "," (map (dropNullish toString) items)
  | VObj _ => "[object Object]"
  end.

(** A canonical array index: the decimal text of a natural number. *)
Definition arrayIndex (k : string) : option nat :=
  match readDigits 10 k None with
  | Some n => if bool_decide (numberToString n = k) then Some (Z.to_nat n) else None
  | None => None
  end.

(** [k in v] for an object or an array (own properties). *)
Definition hasProp (v : Value) (k : string) : bool :=
  match v with
  | VObj fields => ordmap_has fields k
  | VArr items =>
      bool_decide (k = "length") ||
      match arrayIndex k with
      | Some i => bool_decide (i < length items)%nat
      | None => false
      end
  | _ => false
  end.

(** [v[k]] for a value that is not null or undefined (own properties of
    objects and arrays; a primitive has none of the names the sources read). *)
Definition getProp (v : Value) (k : string) : Value :=
  match v with
  | VObj fields => default VUndefined (ordmap_get fields k)
  | VArr items =>
      if bool_decide (k = "length") then VNum (Z.of_nat (length items))
      else match arrayIndex k with
           | Some i => default VUndefined (items !! i)
           | None => VUndefined
           end
  | _ => VUndefined
  end.

(** *** Plain objects filled key by key *)

(** What has become of the prototype of an object created by [{}]: it is
    [Object.prototype] until an assignment to [__proto__] replaces it. *)
Inductive Prototype : Type :=
| ObjectPrototype
| NullPrototype
| ValuePrototype (p : Value).

(** An object that the sources create empty and fill by [o[k] = v] with
    keys of the data: its own properties, and its prototype. *)
Record PlainObject : Type := {
  obj_own : ordmap Value;
  obj_proto : Prototype
}.

Definition emptyObject : PlainObject := {| obj_own := []; obj_proto := ObjectPrototype |}.

(** Whether [__proto__] names the accessor of [Object.prototype] on [o]:
    not when [o] has an own property of that name, when its prototype is
    [null], or when the object installed as its prototype has such an own
    property. *)
Definition reachesProtoAccessor (o : PlainObject) : bool :=
  negb (ordmap_has (obj_own o) "__proto__")
  && match obj_proto o with
     | ObjectPrototype => true
     | NullPrototype => false
     | ValuePrototype p => negb (hasProp p "__proto__")
     end.

(** [o[k] = v]. Under the key [__proto__] the accessor replaces the
    prototype by an object or by [null] and ignores every other value;
    no own property is created. Any other assignment creates or updates
    an own property. *)
Definition assign (o : PlainObject) (k : string) (v : Value) : PlainObject :=
  if bool_decide (k = "__proto__") && reachesProtoAccessor o
  then
    match v with
    | VObj _ | VArr _ => {| obj_own := obj_own o; obj_proto := ValuePrototype v |}
    | VNull => {| obj_own := obj_own o; obj_proto := NullPrototype |}
    | _ => o
    end
  else {| obj_own := ordmap_set (obj_own o) k v; obj_proto := obj_proto o |}.

(** [k in o], for a name that the built-in prototypes do not have. *)
Definition inObject (o : PlainObject) (k : string) : bool :=
  ordmap_has (obj_own o) k
  || match obj_proto o with
     | ValuePrototype p => hasProp p k
     | _ => false
     end.

(** [o[k]], for a name that the built-in prototypes do not have. *)
Definition readObject (o : PlainObject) (k : string) : Value :=
  match ordmap_get (obj_own o) k with
  | Some v => v
  | None =>
      match obj_proto o with
      | ValuePrototype p => getProp p k
      | _ => VUndefined
      end
  end.

(** The object as a value handed on: its own properties. *)
Definition objectValue (o : PlainObject) : Value := VObj (obj_own o).

(** *** Sorting *)

(** [Array.prototype.sort] is a stable sort: among elements that compare
    equal the earlier one stays first. *)
Fixpoint insertSorted {A} (cmp : A -> A -> Z) (x : A) (l : list A) : list A :=
  match l with
  | [] => [x]
  | y :: l' => if cmp x y <=? 0 then x :: y :: l' else y :: insertSorted cmp x l'
  end.

Definition sortBy {A} (cmp : A -> A -> Z) (l : list A) : list A :=
  foldr (insertSorted cmp) [] l.

End JS.

(** ** DataWarehouse.ts: [EnhancedDataWarehouse] *)

Module DataWarehouse.
Import JS.

Record ItemSource : Type := {
  sourceId : string;
  sourceType : string;
  source_componentId : string
}.

Record DataStorageItem : Type := {
  data : Value;
  timestamp : Z;
  expiresAt : option Z;
  source : ItemSource;
  size : Z;
  accessCount : Z;
  lastAccessed : Z;
  dataVersion : option string;
  executionId : option string
}.

Record ComponentDataStorage : Type := {
  componentId : string;
  dataSources : ordmap DataStorageItem;
  mergedData : option DataStorageItem;
  createdAt : Z;
  updatedAt : Z
}.

(** [maxMemoryUsage] is in megabytes; the model compares byte counts
    exactly, where the source divides by [1024 * 1024] in floating point. *)
Record DataWarehouseConfig : Type := {
  defaultCacheExpiry : Z;
  maxMemoryUsage : Z;
  cleanupInterval : Z;
  maxStorageItems : Z;
  enablePerformanceMonitoring : bool
}.

(** The fields of the class that hold data ([parameterStorage] is reserved
    and never read by the operations below; [metrics] are response-time
    averages). *)
Record EnhancedDataWarehouse : Type := {
  componentStorage : ordmap ComponentDataStorage;
  componentChangeNotifiers : gmap string Z;
  componentLatestVersions : gmap string string;
  config : DataWarehouseConfig
}.

(** What one call of [storeComponentData] reads from its environment:
    [Date.now()] at its start, [Date.now()] inside [generateDataVersion],
    and the two [Math.random().toString(36).substr(2, 9)] strings (for the
    execution id, and for the hash when [JSON.stringify] fails). *)
Record StoreReads : Type := {
  dateNow : Z;
  versionNow : Z;
  randomExecution : string;
  randomHash : string
}.

Definition defaultConfig : DataWarehouseConfig :=
  {| defaultCacheExpiry := 5 * 60 * 1000;
     maxMemoryUsage := 100;
     cleanupInterval := 60 * 1000;
     maxStorageItems := 1000;
     enablePerformanceMonitoring := true |}.

(** [new EnhancedDataWarehouse(config)]. *)
Definition newWarehouse (cfg : DataWarehouseConfig) : EnhancedDataWarehouse :=
  {| componentStorage := [];
     componentChangeNotifiers := ∅;
     componentLatestVersions := ∅;
     config := cfg |}.

Definition bytesPerMB : Z := 1024 * 1024.

Definition withStorage (st : EnhancedDataWarehouse)
    (cs : ordmap ComponentDataStorage) : EnhancedDataWarehouse :=
  {| componentStorage := cs;
     componentChangeNotifiers := componentChangeNotifiers st;
     componentLatestVersions := componentLatestVersions st;
     config := config st |}.

Definition setStorage (st : EnhancedDataWarehouse) (id : string)
    (storage : ComponentDataStorage) : EnhancedDataWarehouse :=
  withStorage st (ordmap_set (componentStorage st) id storage).

Definition withNotifiers (st : EnhancedDataWarehouse)
    (ns : gmap string Z) : EnhancedDataWarehouse :=
  {| componentStorage := componentStorage st;
     componentChangeNotifiers := ns;
     componentLatestVersions := componentLatestVersions st;
     config := config st |}.

(** [let n = notifiers.get(id); if (!n) { n = ref(0); notifiers.set(id, n) }]. *)
Definition ensureNotifier (ns : gmap string Z) (id : string) : gmap string Z :=
  match ns !! id with
  | Some _ => ns
  | None => <[id := 0]> ns
  end.

(** [notifier.value++] on the notifier of [id], created at 0 when missing. *)
Definition bumpNotifier (ns : gmap string Z) (id : string) : gmap string Z :=
  <[id := default 0 (ns !! id) + 1]> ns.

Definition isExpired (now : Z) (item : DataStorageItem) : bool :=
  match expiresAt item with
  | Some e => e <? now
  | None => false
  end.

Definition extractTimestampFromVersion (version : string) : Z :=
  let parts := split "-" version in
  if bool_decide (2 <= length parts)%nat
  then default 0 (parts !! 1%nat ≫= parseInt)
  else 0.

Definition shouldAcceptData (st : EnhancedDataWarehouse)
    (componentId : string) (dataVersion : string) : bool :=
  match componentLatestVersions st !! componentId with
  | None => true
  | Some latestVersion =>
      if bool_decide (latestVersion = "") then true
      else
        let currentTimestamp := extractTimestampFromVersion dataVersion in
        let latestTimestamp := extractTimestampFromVersion latestVersion in
        latestTimestamp <=? currentTimestamp
  end.

Definition updateLatestDataVersion (st : EnhancedDataWarehouse)
    (componentId dataVersion : string) : EnhancedDataWarehouse :=
  {| componentStorage := componentStorage st;
     componentChangeNotifiers := componentChangeNotifiers st;
     componentLatestVersions := <[componentId := dataVersion]> (componentLatestVersions st);
     config := config st |}.

Definition storageBytes (storage : ComponentDataStorage) : Z :=
  foldr (fun kv acc => size kv.2 + acc) 0 (dataSources storage)
  + match mergedData storage with Some m => size m | None => 0 end.

(** The byte total that [getCurrentMemoryUsage] divides by [1024 * 1024]. *)
Definition currentMemoryBytes (st : EnhancedDataWarehouse) : Z :=
  foldr (fun kv acc => storageBytes kv.2 + acc) 0 (componentStorage st).

Definition storageItemCount (storage : ComponentDataStorage) : Z :=
  Z.of_nat (length (dataSources storage))
  + match mergedData storage with Some _ => 1 | None => 0 end.

Definition getTotalItemCount (st : EnhancedDataWarehouse) : Z :=
  foldr (fun kv acc => storageItemCount kv.2 + acc) 0 (componentStorage st).

(** [currentMemoryMB + newDataMB > maxMemoryUsage || count >= maxStorageItems]. *)
Definition shouldRejectStorage (st : EnhancedDataWarehouse) (dataSize : Z) : bool :=
  (maxMemoryUsage (config st) * bytesPerMB <? currentMemoryBytes st + dataSize)
  || (maxStorageItems (config st) <=? getTotalItemCount st).

Section WithStringify.

(** [JSON.stringify]; [None] when it throws or yields [undefined] (reading
    [.length] of the result then throws, which the callers catch alike). *)
Variable JSON_stringify : Value -> option string.

Definition calculateDataSize (d : Value) : Z :=
  match JSON_stringify d with
  | Some s => Z.of_nat (String.length s) * 2
  | None => 1024
  end.

Definition calculateDataHash (rnd : string) (d : Value) : string :=
  match JSON_stringify d with
  | Some dataString => toStringRadix 36 (Z.abs (hashLoop dataString 0))
  | None => rnd
  end.

Definition generateDataVersion (componentId : string) (now : Z) (rnd : string)
    (d : Value) : string :=
  componentId +:+ "-" +:+ numberToString now +:+ "-" +:+ calculateDataHash rnd d.

Definition newStorage (componentId : string) (now : Z) : ComponentDataStorage :=
  {| componentId := componentId;
     dataSources := [];
     mergedData := None;
     createdAt := now;
     updatedAt := now |}.

(** [customExpiry ? now + customExpiry : now + this.config.defaultCacheExpiry]. *)
Definition expiryFor (cfg : DataWarehouseConfig) (now : Z) (customExpiry : option Z) : Z :=
  match customExpiry with
  | Some c => if c =? 0 then now + defaultCacheExpiry cfg else now + c
  | None => now + defaultCacheExpiry cfg
  end.

Definition storeComponentData (r : StoreReads) (componentId sourceId : string)
    (d : Value) (sourceType : string) (customExpiry : option Z)
    (st : EnhancedDataWarehouse) : EnhancedDataWarehouse :=
  let now := dateNow r in
  let executionId :=
    componentId +:+ "-" +:+ numberToString now +:+ "-" +:+ randomExecution r in
  let dataVersion := generateDataVersion componentId (versionNow r) (randomHash r) d in
  if negb (shouldAcceptData st componentId dataVersion) then st
  else
    let dataSize := calculateDataSize d in
    if shouldRejectStorage st dataSize then st
    else
      let componentStorage0 :=
        default (newStorage componentId now) (ordmap_get (componentStorage st) componentId) in
      let storageItem :=
        {| data := d;
           timestamp := now;
           expiresAt := Some (expiryFor (config st) now customExpiry);
           source := {| sourceId := sourceId; sourceType := sourceType;
                        source_componentId := componentId |};
           size := dataSize;
           accessCount := 0;
           lastAccessed := now;
           dataVersion := Some dataVersion;
           executionId := Some executionId |} in
      let componentStorage1 :=
        {| componentId := DataWarehouse.componentId componentStorage0;
           dataSources := ordmap_set (dataSources componentStorage0) sourceId storageItem;
           mergedData := None;
           createdAt := createdAt componentStorage0;
           updatedAt := now |} in
      let st1 := setStorage st componentId componentStorage1 in
      let st2 := updateLatestDataVersion st1 componentId dataVersion in
      withNotifiers st2 (bumpNotifier (componentChangeNotifiers st2) componentId).

(** An accepted write: neither the version check nor the memory check
    returns early. *)
Definition storeAccepted (r : StoreReads) (componentId : string) (d : Value)
    (st : EnhancedDataWarehouse) : bool :=
  shouldAcceptData st componentId
    (generateDataVersion componentId (versionNow r) (randomHash r) d)
  && negb (shouldRejectStorage st (calculateDataSize d)).

Definition touch (now : Z) (item : DataStorageItem) : DataStorageItem :=
  {| data := data item;
     timestamp := timestamp item;
     expiresAt := expiresAt item;
     source := source item;
     size := size item;
     accessCount := accessCount item + 1;
     lastAccessed := now;
     dataVersion := dataVersion item;
     executionId := executionId item |}.

(** The loop of [getComponentData] over [dataSources]: a live entry goes into
    [componentData] and is touched, an expired one is deleted from the map. *)
Fixpoint collectSources (now : Z) (srcs : ordmap DataStorageItem)
    (componentData : PlainObject) : PlainObject * ordmap DataStorageItem :=
  match srcs with
  | [] => (componentData, [])
  | (sourceId, item) :: rest =>
      if negb (isExpired now item)
      then
        let '(cd, kept) := collectSources now rest (assign componentData sourceId (data item)) in
        (cd, (sourceId, touch now item) :: kept)
      else collectSources now rest componentData
  end.

(** The unwrapping of a [complete] source at the end of [getComponentData]. *)
Definition unwrapComplete (componentData : PlainObject) : Value :=
  if inObject componentData "complete"
     && truthy (readObject componentData "complete")
  then
    let completeData := readObject componentData "complete" in
    if truthy (getProp completeData "deviceData")
       && truthy (getProp (getProp completeData "deviceData") "data")
    then getProp (getProp completeData "deviceData") "data"
    else completeData
  else objectValue componentData.

Definition mergedItem (cfg : DataWarehouseConfig) (now : Z) (componentId : string)
    (finalData : Value) : DataStorageItem :=
  {| data := finalData;
     timestamp := now;
     expiresAt := Some (now + defaultCacheExpiry cfg);
     source := {| sourceId := "*merged*"; sourceType := "merged";
                  source_componentId := componentId |};
     size := calculateDataSize finalData;
     accessCount := 1;
     lastAccessed := now;
     dataVersion := None;
     executionId := None |}.

Definition withSources (storage : ComponentDataStorage)
    (srcs : ordmap DataStorageItem) (merged : option DataStorageItem) : ComponentDataStorage :=
  {| componentId := componentId storage;
     dataSources := srcs;
     mergedData := merged;
     createdAt := createdAt storage;
     updatedAt := updatedAt storage |}.

(** [getComponentData(componentId)]: the returned value ([VNull] for
    [null]) and the warehouse after the call. *)
Definition getComponentData (now : Z) (id : string) (st : EnhancedDataWarehouse)
    : Value * EnhancedDataWarehouse :=
  let st1 := withNotifiers st (ensureNotifier (componentChangeNotifiers st) id) in
  match ordmap_get (componentStorage st1) id with
  | None => (VNull, st1)
  | Some storage =>
      let cached :=
        match mergedData storage with
        | Some m => if negb (isExpired now m) then Some m else None
        | None => None
        end in
      match cached with
      | Some m =>
          (data m,
           setStorage st1 id
             (withSources storage (dataSources storage) (Some (touch now m))))
      | None =>
          let '(componentData, kept) := collectSources now (dataSources storage) emptyObject in
          let hasValidData := negb (bool_decide (kept = [])) in
          if negb hasValidData
          then (VNull, setStorage st1 id (withSources storage kept (mergedData storage)))
          else
            let finalData := unwrapComplete componentData in
            (finalData,
             setStorage st1 id
               (withSources storage kept
                  (Some (mergedItem (config st) now id finalData))))
      end
  end.

(** [getDataSourceData(componentId, sourceId)]. *)
Definition getDataSourceData (now : Z) (id sourceId : string)
    (st : EnhancedDataWarehouse) : Value * EnhancedDataWarehouse :=
  match ordmap_get (componentStorage st) id with
  | None => (VNull, st)
  | Some storage =>
      match ordmap_get (dataSources storage) sourceId with
      | None => (VNull, st)
      | Some item =>
          if isExpired now item
          then (VNull,
                setStorage st id
                  (withSources storage (ordmap_delete (dataSources storage) sourceId)
                     (mergedData storage)))
          else (data item,
                setStorage st id
                  (withSources storage
                     (ordmap_set (dataSources storage) sourceId (touch now item))
                     (mergedData storage)))
      end
  end.

End WithStringify.

Definition clearComponentCache (id : string) (st : EnhancedDataWarehouse)
    : EnhancedDataWarehouse :=
  match ordmap_get (componentStorage st) id with
  | Some _ =>
      {| componentStorage := ordmap_delete (componentStorage st) id;
         componentChangeNotifiers := delete id (componentChangeNotifiers st);
         componentLatestVersions := componentLatestVersions st;
         config := config st |}
  | None => st
  end.

Definition clearComponentMergedCache (id : string) (st : EnhancedDataWarehouse)
    : EnhancedDataWarehouse :=
  match ordmap_get (componentStorage st) id with
  | Some storage =>
      {| componentStorage :=
           ordmap_set (componentStorage st) id (withSources storage (dataSources storage) None);
         componentChangeNotifiers := bumpNotifier (componentChangeNotifiers st) id;
         componentLatestVersions := componentLatestVersions st;
         config := config st |}
  | None => st
  end.

Definition clearDataSourceCache (id sourceId : string) (st : EnhancedDataWarehouse)
    : EnhancedDataWarehouse :=
  match ordmap_get (componentStorage st) id with
  | Some storage =>
      let removed := ordmap_has (dataSources storage) sourceId in
      if removed
      then
        {| componentStorage :=
             ordmap_set (componentStorage st) id
               (withSources storage (ordmap_delete (dataSources storage) sourceId) None);
           componentChangeNotifiers :=
             match componentChangeNotifiers st !! id with
             | Some n => <[id := n + 1]> (componentChangeNotifiers st)
             | None => componentChangeNotifiers st
             end;
           componentLatestVersions := componentLatestVersions st;
           config := config st |}
      else st
  | None => st
  end.

Definition clearAllCache (st : EnhancedDataWarehouse) : EnhancedDataWarehouse :=
  {| componentStorage := [];
     componentChangeNotifiers := ∅;
     componentLatestVersions := componentLatestVersions st;
     config := config st |}.

Definition setCacheExpiry (milliseconds : Z) (st : EnhancedDataWarehouse)
    : EnhancedDataWarehouse :=
  {| componentStorage := componentStorage st;
     componentChangeNotifiers := componentChangeNotifiers st;
     componentLatestVersions := componentLatestVersions st;
     config :=
       {| defaultCacheExpiry := milliseconds;
          maxMemoryUsage := maxMemoryUsage (config st);
          cleanupInterval := cleanupInterval (config st);
          maxStorageItems := maxStorageItems (config st);
          enablePerformanceMonitoring := enablePerformanceMonitoring (config st) |} |}.

(** *** The periodic sweep *)

(** An element of [allItems] in [getLeastAccessedItems]. *)
Record AccessRecord : Type := {
  ar_componentId : string;
  ar_sourceId : string;
  ar_accessCount : Z;
  ar_lastAccessed : Z
}.

(** The comparator handed to [allItems.sort]. *)
Definition compareAccess (a b : AccessRecord) : Z :=
  if negb (ar_accessCount a =? ar_accessCount b)
  then ar_accessCount a - ar_accessCount b
  else ar_lastAccessed a - ar_lastAccessed b.

Definition accessRecords (st : EnhancedDataWarehouse) : list AccessRecord :=
  flat_map
    (fun cs =>
       map (fun kv =>
              {| ar_componentId := cs.1;
                 ar_sourceId := kv.1;
                 ar_accessCount := accessCount kv.2;
                 ar_lastAccessed := lastAccessed kv.2 |})
           (dataSources cs.2))
    (componentStorage st).

Definition getLeastAccessedItems (count : nat) (st : EnhancedDataWarehouse)
    : list AccessRecord :=
  take count (sortBy compareAccess (accessRecords st)).

(** The first loop of [performCleanup] on one component: expired sources
    and an expired merged view go; the component itself goes when neither a
    valid source nor a merged view is left. *)
Definition sweepStorage (now : Z) (storage : ComponentDataStorage)
    : option ComponentDataStorage :=
  let kept := filter (fun kv => isExpired now kv.2 = false) (dataSources storage) in
  let hasValidData := negb (bool_decide (kept = [])) in
  let merged :=
    match mergedData storage with
    | Some m => if isExpired now m then None else Some m
    | None => None
    end in
  if negb hasValidData && negb (bool_decide (is_Some merged))
  then None
  else Some (withSources storage kept merged).

Fixpoint sweepExpired (now : Z) (cs : ordmap ComponentDataStorage)
    : ordmap ComponentDataStorage :=
  match cs with
  | [] => []
  | (id, storage) :: rest =>
      match sweepStorage now storage with
      | Some storage' => (id, storage') :: sweepExpired now rest
      | None => sweepExpired now rest
      end
  end.

(** [getCurrentMemoryUsage() > maxMemoryUsage * 0.8], in bytes. *)
Definition memoryPressure (st : EnhancedDataWarehouse) : bool :=
  4 * maxMemoryUsage (config st) * bytesPerMB <? 5 * currentMemoryBytes st.

Definition evict (items : list AccessRecord) (st : EnhancedDataWarehouse)
    : EnhancedDataWarehouse :=
  foldl (fun s a => clearDataSourceCache (ar_componentId a) (ar_sourceId a) s) st items.

Definition performCleanup (now : Z) (st : EnhancedDataWarehouse)
    : EnhancedDataWarehouse :=
  let st1 := withStorage st (sweepExpired now (componentStorage st)) in
  if memoryPressure st1
  then evict (getLeastAccessedItems 10 st1) st1
  else st1.

(** *** Notions used to state the properties *)

(** The live entry of a [(componentId, sourceId)] key, and the cached merged
    view of a component. *)
Definition entryAt (st : EnhancedDataWarehouse) (id sourceId : string)
    : option DataStorageItem :=
  storage ← ordmap_get (componentStorage st) id;
  ordmap_get (dataSources storage) sourceId.

Definition mergedAt (st : EnhancedDataWarehouse) (id : string) : option DataStorageItem :=
  storage ← ordmap_get (componentStorage st) id;
  mergedData storage.

(** What [getComponentData] makes of the data of a truthy [complete]
    source. *)
Definition unwrapValue (completeData : Value) : Value :=
  if truthy (getProp completeData "deviceData")
     && truthy (getProp (getProp completeData "deviceData") "data")
  then getProp (getProp completeData "deviceData") "data"
  else completeData.

(** The invariant of one component's storage, given the latest version the
    warehouse has recorded for the component: source ids are unique, the
    recorded version is not older than the version of any stored entry, a
    cached merged view is truthy, and it is the unwrapped [complete] source
    when the component still holds one with truthy data. *)
Record StorageInv (latest : option string) (storage : ComponentDataStorage) : Prop := {
  inv_keys : NoDup (dataSources storage).*1;
  inv_versions : ∀ sourceId item version,
    ordmap_get (dataSources storage) sourceId = Some item →
    dataVersion item = Some version →
    ∃ latestVersion,
      latest = Some latestVersion ∧ latestVersion ≠ "" ∧
      extractTimestampFromVersion version ≤ extractTimestampFromVersion latestVersion;
  inv_merged_truthy : ∀ m, mergedData storage = Some m → truthy (data m) = true;
  inv_merged_complete : ∀ m item,
    mergedData storage = Some m →
    ordmap_get (dataSources storage) "complete" = Some item →
    truthy (data item) = true →
    data m = unwrapValue (data item)
}.

Record Inv (st : EnhancedDataWarehouse) : Prop := {
  inv_components : NoDup (componentStorage st).*1;
  inv_storage : ∀ id storage,
    ordmap_get (componentStorage st) id = Some storage →
    StorageInv (componentLatestVersions st !! id) storage
}.

(** The public operations of the class, and the states they lead to from a
    fresh warehouse. *)
Inductive Operation : Type :=
| OpStore (r : StoreReads) (componentId sourceId : string) (d : Value)
    (sourceType : string) (customExpiry : option Z)
| OpGetComponentData (now : Z) (componentId : string)
| OpGetDataSourceData (now : Z) (componentId sourceId : string)
| OpClearComponentCache (componentId : string)
| OpClearComponentMergedCache (componentId : string)
| OpClearDataSourceCache (componentId sourceId : string)
| OpClearAllCache
| OpSetCacheExpiry (milliseconds : Z)
| OpPerformCleanup (now : Z).

Section Reachable.

Variable JSON_stringify : Value -> option string.

Definition apply (op : Operation) (st : EnhancedDataWarehouse) : EnhancedDataWarehouse :=
  match op with
  | OpStore r id sourceId d sourceType customExpiry =>
      storeComponentData JSON_stringify r id sourceId d sourceType customExpiry st
  | OpGetComponentData now id => (getComponentData JSON_stringify now id st).2
  | OpGetDataSourceData now id sourceId => (getDataSourceData now id sourceId st).2
  | OpClearComponentCache id => clearComponentCache id st
  | OpClearComponentMergedCache id => clearComponentMergedCache id st
  | OpClearDataSourceCache id sourceId => clearDataSourceCache id sourceId st
  | OpClearAllCache => clearAllCache st
  | OpSetCacheExpiry ms => setCacheExpiry ms st
  | OpPerformCleanup now => performCleanup now st
  end.

(** [run ops st]: the operations of [ops] applied in order. *)
Definition run (ops : list Operation) (st : EnhancedDataWarehouse) : EnhancedDataWarehouse :=
  foldl (fun s op => apply op s) st ops.

Definition reachable (st : EnhancedDataWarehouse) : Prop :=
  ∃ cfg ops, st = run ops (newWarehouse cfg).

End Reachable.

End DataWarehouse.

(** ** DataWarehouse.ts: [getStorageStats] and the capacity limits *)

Module WarehouseStats.
Import JS DataWarehouse.

(** An entry of [componentStats]. *)
Record ComponentStats : Type := {
  dataSourceCount : Z;
  componentTotalSize : Z;
  stats_createdAt : Z;
  stats_updatedAt : Z
}.

(** The object [getStorageStats] returns. Its [memoryUsageMB] is
    [totalSize / (1024 * 1024)], a fraction of [totalSize], and is not a
    field of its own here. *)
Record StorageStats : Type := {
  totalComponents : Z;
  totalDataSources : Z;
  totalSize : Z;
  componentStats : ordmap ComponentStats;
  stats_config : DataWarehouseConfig
}.

(** [Array.from(storage.dataSources.values()).reduce((sum, item) => sum + item.size, 0)]. *)
Definition componentSize (storage : ComponentDataStorage) : Z :=
  foldl (fun sum item => sum + size item) 0 (dataSources storage).*2.

Definition getStorageStats (st : EnhancedDataWarehouse) : StorageStats :=
  let '(totalItems, totalSize, componentStats) :=
    foldl (fun '(totalItems, totalSize, componentStats) kv =>
             (totalItems + Z.of_nat (length (dataSources kv.2)),
              totalSize + componentSize kv.2,
              ordmap_set componentStats kv.1
                {| dataSourceCount := Z.of_nat (length (dataSources kv.2));
                   componentTotalSize := componentSize kv.2;
                   stats_createdAt := createdAt kv.2;
                   stats_updatedAt := updatedAt kv.2 |}))
          (0, 0, []) (componentStorage st) in
  {| totalComponents := Z.of_nat (length (componentStorage st));
     totalDataSources := totalItems;
     totalSize := totalSize;
     componentStats := componentStats;
     stats_config := config st |}.

(** *** Notions used to state the capacity properties *)

(** The sizes of the source entries, component by component, and of the
    cached merged views. *)
Definition itemSizes (storage : ComponentDataStorage) : list Z :=
  (fun kv => size kv.2) <$> dataSources storage.

Definition srcSizes (cs : ordmap ComponentDataStorage) : list Z :=
  flat_map (fun kv => itemSizes kv.2) cs.

Definition mergedSizes (cs : ordmap ComponentDataStorage) : list Z :=
  omap (fun kv => size <$> mergedData kv.2) cs.

Definition sumZ (l : list Z) : Z := foldr Z.add 0 l.

(** The capacity invariant: no size is negative, and the source entries
    are within the configured item count and memory budget. *)
Record CapInv (st : EnhancedDataWarehouse) : Prop := {
  cap_src : Forall (fun x => 0 <= x) (srcSizes (componentStorage st));
  cap_merged : Forall (fun x => 0 <= x) (mergedSizes (componentStorage st));
  cap_count :
    Z.of_nat (length (srcSizes (componentStorage st)))
    <= Z.max 0 (maxStorageItems (config st));
  cap_bytes :
    sumZ (srcSizes (componentStorage st))
    <= Z.max 0 (maxMemoryUsage (config st) * bytesPerMB)
}.

(** [st'] holds a part of the source entries of [st], under the same
    limits. *)
Record Shrinks (st st' : EnhancedDataWarehouse) : Prop := {
  shr_src : srcSizes (componentStorage st') `sublist_of` srcSizes (componentStorage st);
  shr_merged :
    Forall (fun x => 0 <= x) (mergedSizes (componentStorage st)) ->
    Forall (fun x => 0 <= x) (mergedSizes (componentStorage st'));
  shr_items : maxStorageItems (config st') = maxStorageItems (config st);
  shr_memory : maxMemoryUsage (config st') = maxMemoryUsage (config st)
}.

End WarehouseStats.

(** ** UnifiedDataExecutor.ts: the dispatcher *)

Module UnifiedDataExecutor.
Import JS.

Record UnifiedDataConfig : Type := {
  id : string;
  type : string;
  enabled : option bool;          (* [enabled?: boolean] *)
  config : ordmap Value
}.

Record UnifiedDataResult : Type := {
  success : bool;
  data : Value;
  error : Value;                  (* [VUndefined] when absent *)
  errorCode : option string;
  timestamp : Z;
  sourceId : string
}.

(** A [DataSourceExecutor]: its [type] and its [execute] method. What the
    method does on the network is outside the program, so an executor is
    given by what its promise settles to. *)
Record DataSourceExecutor : Type := {
  ex_type : string;
  ex_execute : UnifiedDataConfig -> Completion UnifiedDataResult
}.

Definition registerExecutor (executor : DataSourceExecutor)
    (executors : gmap string DataSourceExecutor) : gmap string DataSourceExecutor :=
  <[ex_type executor := executor]> executors.

(** The constructor registers the four built-in executors. *)
Definition newExecutors (http static json websocket : DataSourceExecutor)
    : gmap string DataSourceExecutor :=
  registerExecutor websocket
    (registerExecutor json
       (registerExecutor static
          (registerExecutor http ∅))).

Definition failure (now : Z) (cfg : UnifiedDataConfig) (err : Value) (code : string)
    : UnifiedDataResult :=
  {| success := false; data := VUndefined; error := err; errorCode := Some code;
     timestamp := now; sourceId := id cfg |}.

(** Reading [error.message] off a caught value: a [TypeError] when the value
    is [null] or [undefined]. *)
Definition typeError : Value := mkError "TypeError".

Definition messageOr (e : Value) (fallback : string) : Completion Value :=
  match e with
  | VUndefined | VNull => Throw typeError
  | _ => Normal (if truthy (getProp e "message") then getProp e "message"
                 else VStr fallback)
  end.

(** [execute(config)]: what the returned promise settles to. *)
Definition execute (executors : gmap string DataSourceExecutor) (now : Z)
    (cfg : UnifiedDataConfig) : Completion UnifiedDataResult :=
  let enabled := default true (enabled cfg) in
  if negb enabled
  then Normal (failure now cfg (VStr "数据源未启用") "DATA_SOURCE_DISABLED")
  else
    match executors !! type cfg with
    | None =>
        Normal (failure now cfg (VStr ("不支持的数据源类型: " +:+ type cfg))
                  "UNSUPPORTED_DATA_SOURCE")
    | Some executor =>
        match ex_execute executor cfg with
        | Normal result => Normal result
        | Throw e =>
            match messageOr e "执行器异常" with
            | Normal msg => Normal (failure now cfg msg "EXECUTOR_EXCEPTION")
            | Throw e' => Throw e'
            end
        end
    end.

End UnifiedDataExecutor.

(** ** UnifiedDataExecutor.ts: the built-in executors and the batch entry *)

Module BuiltinExecutors.
Import JS UnifiedDataExecutor.

(** *** More of JavaScript *)

Definition lowerChar (c : ascii) : ascii :=
  let n := nat_of_ascii c in
  if ((65 <=? n) && (n <=? 90))%nat then ascii_of_nat (n + 32) else c.

Fixpoint toLowerCase (s : string) : string :=
  match s with
  | EmptyString => EmptyString
  | String c s' => String (lowerChar c) (toLowerCase s')
  end.

(** [a === b]. Two objects or arrays are equal only as the same
    reference, which a value of a response and a value of a configuration
    never are. *)
Definition strictEquals (a b : Value) : bool :=
  match a, b with
  | VUndefined, VUndefined => true
  | VNull, VNull => true
  | VBool x, VBool y => bool_decide (x = y)
  | VNum x, VNum y => x =? y
  | VStr x, VStr y => bool_decide (x = y)
  | _, _ => false
  end.

Fixpoint indexed (i : nat) (l : list Value) : list (string * Value) :=
  match l with
  | [] => []
  | x :: l' => (numberToString (Z.of_nat i), x) :: indexed (S i) l'
  end.

Fixpoint characters (s : string) : list Value :=
  match s with
  | EmptyString => []
  | String c s' => VStr (String c EmptyString) :: characters s'
  end.

(** [Object.entries(v)] for a value that is not null or undefined. *)
Definition entries (v : Value) : list (string * Value) :=
  match v with
  | VObj fields => fields
  | VArr items => indexed 0 items
  | VStr s => indexed 0 (characters s)
  | _ => []
  end.

(** [item[key]]: a [TypeError] on null and undefined, the length and the
    characters of a string, the own properties of an object or array. *)
Definition getMember (item : Value) (key : string) : Completion Value :=
  match item with
  | VUndefined | VNull => Throw typeError
  | VStr s => Normal (getProp (VArr (characters s)) key)
  | _ => Normal (getProp item key)
  end.

(** *** HttpExecutor: the transform steps *)

(** [extractByPath(data, path)]. *)
Definition extractByPath (data : Value) (path : string) : Value :=
  default VNull
    (foldl (fun (result : option Value) (key : string) =>
              r ← result;
              if truthy r && typeofObject r && hasProp r key
              then Some (getProp r key) else None)
           (Some data) (split "." path)).

(** [path.split('.')] is a [TypeError] unless [path] is a string. *)
Definition extractByPathValue (data path : Value) : Completion Value :=
  match path with
  | VStr s => Normal (extractByPath data s)
  | _ => Throw typeError
  end.

(** The loop of [applyMapping] over [Object.entries(mapping)]. *)
Fixpoint mapEntries (data : Value) (es : list (string * Value)) (result : PlainObject)
    : Completion PlainObject :=
  match es with
  | [] => Normal result
  | (targetKey, sourceKey) :: es' =>
      match extractByPathValue data sourceKey with
      | Throw e => Throw e
      | Normal v => mapEntries data es' (assign result targetKey v)
      end
  end.

Definition applyMapping (data mapping : Value) : Completion Value :=
  if negb (truthy data) || negb (typeofObject data) then Normal data
  else match mapEntries data (entries mapping) emptyObject with
       | Throw e => Throw e
       | Normal result => Normal (objectValue result)
       end.

(** The callback of [data.filter] in [applyFilter]. *)
Fixpoint matchesFilter (item : Value) (es : list (string * Value)) : Completion bool :=
  match es with
  | [] => Normal true
  | (key, value) :: es' =>
      match getMember item key with
      | Throw e => Throw e
      | Normal x => if negb (strictEquals x value) then Normal false
                    else matchesFilter item es'
      end
  end.

Fixpoint filterItems (items : list Value) (es : list (string * Value))
    : Completion (list Value) :=
  match items with
  | [] => Normal []
  | item :: items' =>
      match matchesFilter item es with
      | Throw e => Throw e
      | Normal keep =>
          match filterItems items' es with
          | Throw e => Throw e
          | Normal rest => Normal (if keep then item :: rest else rest)
          end
      end
  end.

Definition applyFilter (data filter : Value) : Completion Value :=
  match data with
  | VArr items =>
      match filterItems items (entries filter) with
      | Throw e => Throw e
      | Normal kept => Normal (VArr kept)
      end
  | _ => Normal data
  end.

(** [applyTransform(data, transform)] of [HttpExecutor]. *)
Definition applyTransform (data transform : Value) : Completion Value :=
  if negb (truthy transform) then Normal data
  else
    let afterPath :=
      if truthy (getProp transform "path")
      then extractByPathValue data (getProp transform "path")
      else Normal data in
    match afterPath with
    | Throw e => Throw e
    | Normal r1 =>
        let afterMapping :=
          if truthy (getProp transform "mapping")
          then applyMapping r1 (getProp transform "mapping")
          else Normal r1 in
        match afterMapping with
        | Throw e => Throw e
        | Normal r2 =>
            if truthy (getProp transform "filter")
            then applyFilter r2 (getProp transform "filter")
            else Normal r2
        end
    end.

Definition succeeded (now : Z) (cfg : UnifiedDataConfig) (d : Value) : UnifiedDataResult :=
  {| success := true; data := d; error := VUndefined; errorCode := None;
     timestamp := now; sourceId := id cfg |}.

(** The [catch] of an executor: [error.message || fallback] under the
    executor's error code. *)
Definition caught (now : Z) (cfg : UnifiedDataConfig) (e : Value)
    (fallback code : string) : Completion UnifiedDataResult :=
  match messageOr e fallback with
  | Normal msg => Normal (failure now cfg msg code)
  | Throw e' => Throw e'
  end.

(** The options handed to [request]. *)
Record RequestOptions : Type := {
  ro_url : Value;
  ro_method : string;
  ro_headers : Value;
  ro_params : Value;
  ro_data : Value;
  ro_timeout : Value
}.

Section WithEnvironment.

(** [JSON.stringify]; [None] when it throws or yields [undefined]. *)
Variable JSON_stringify : Value -> option string.

(** [JSON.parse]: the parsed value, or the message of the [SyntaxError]. *)
Variable JSON_parse : string -> Value + string.

(** The [request] library: what the promise of a call settles to. *)
Variable request : RequestOptions -> Completion Value.

(** [JSON.stringify(v).length] read for the metadata: a [TypeError] when
    there is no text. *)
Definition measured (v : Value) : Completion unit :=
  match JSON_stringify v with
  | Some _ => Normal tt
  | None => Throw typeError
  end.

Definition orDefault (v dflt : Value) : Value :=
  match v with VUndefined => dflt | _ => v end.

(** The body of the [try] in [HttpExecutor.execute] after the url check. *)
Definition httpAttempt (cfg : UnifiedDataConfig) : Completion Value :=
  let c := VObj (config cfg) in
  match orDefault (getProp c "method") (VStr "GET") with
  | VStr method =>
      match request {| ro_url := getProp c "url";
                       ro_method := toLowerCase method;
                       ro_headers := getProp c "headers";
                       ro_params := getProp c "params";
                       ro_data := getProp c "body";
                       ro_timeout := orDefault (getProp c "timeout") (VNum 5000) |} with
      | Throw e => Throw e
      | Normal response =>
          match response with
          | VUndefined | VNull => Throw typeError
          | _ =>
              match applyTransform (getProp response "data") (getProp c "transform") with
              | Throw e => Throw e
              | Normal transformedData =>
                  match measured (getProp response "data") with
                  | Throw e => Throw e
                  | Normal _ => Normal transformedData
                  end
              end
          end
      end
  | _ => Throw typeError
  end.

Definition HttpExecutor (now : Z) : DataSourceExecutor :=
  {| ex_type := "http";
     ex_execute := fun cfg =>
       if negb (truthy (getProp (VObj (config cfg)) "url"))
       then Normal (failure now cfg (VStr "URL未配置") "HTTP_NO_URL")
       else match httpAttempt cfg with
            | Normal transformedData => Normal (succeeded now cfg transformedData)
            | Throw e => caught now cfg e "请求失败" "HTTP_REQUEST_FAILED"
            end |}.

(** [StaticExecutor]: its [applyTransform] returns the data on both
    branches. *)
Definition StaticExecutor (now : Z) : DataSourceExecutor :=
  {| ex_type := "static";
     ex_execute := fun cfg =>
       let d := getProp (VObj (config cfg)) "data" in
       match measured d with
       | Normal _ => Normal (succeeded now cfg d)
       | Throw e => caught now cfg e "静态数据处理失败" "STATIC_DATA_ERROR"
       end |}.

(** [JsonExecutor]: [JSON.parse] turns its argument into a string first;
    its [applyTransform] returns the data. *)
Definition JsonExecutor (now : Z) : DataSourceExecutor :=
  {| ex_type := "json";
     ex_execute := fun cfg =>
       let jsonContent := getProp (VObj (config cfg)) "jsonContent" in
       if negb (truthy jsonContent)
       then Normal (failure now cfg (VStr "JSON内容未配置") "JSON_NO_CONTENT")
       else match JSON_parse (toString jsonContent) with
            | inl parsedData => Normal (succeeded now cfg parsedData)
            | inr message => caught now cfg (mkError message) "JSON解析失败" "JSON_PARSE_ERROR"
            end |}.

Definition WebSocketExecutor (now : Z) : DataSourceExecutor :=
  {| ex_type := "websocket";
     ex_execute := fun cfg =>
       let wsUrl := getProp (VObj (config cfg)) "wsUrl" in
       if negb (truthy wsUrl)
       then Normal (failure now cfg (VStr "WebSocket URL未配置") "WS_NO_URL")
       else Normal (succeeded now cfg
                      (VObj [("status", VStr "connecting"); ("url", wsUrl)])) |}.

(** [new UnifiedDataExecutor()]: the registry after the constructor. *)
Definition builtinExecutors (now : Z) : gmap string DataSourceExecutor :=
  newExecutors (HttpExecutor now) (StaticExecutor now) (JsonExecutor now)
    (WebSocketExecutor now).

End WithEnvironment.

(** [executeMultiple(configs)]: [Promise.allSettled] over [execute], and a
    failure result in the place of a rejected promise. *)
Definition batchFailure (now : Z) (cfg : UnifiedDataConfig) (reason : Value)
    : UnifiedDataResult :=
  {| success := false;
     data := VUndefined;
     error :=
       match reason with
       | VUndefined | VNull => VStr "批量执行失败"
       | _ => if truthy (getProp reason "message") then getProp reason "message"
              else VStr "批量执行失败"
       end;
     errorCode := Some "BATCH_EXECUTION_ERROR";
     timestamp := now;
     sourceId := if bool_decide (id cfg = "") then "unknown" else id cfg |}.

Definition executeMultiple (executors : gmap string DataSourceExecutor) (now : Z)
    (configs : list UnifiedDataConfig) : list UnifiedDataResult :=
  map (fun cfg =>
         match execute executors now cfg with
         | Normal value => value
         | Throw reason => batchFailure now cfg reason
         end)
      configs.

End BuiltinExecutors.

(** ** SimpleDataBridge.ts *)

Module SimpleDataBridge.
Import JS.
Module W := DataWarehouse.
Module U := UnifiedDataExecutor.

Record SimpleDataSourceConfig : Type := {
  id : string;
  type : string;
  config : ordmap Value
}.

Record DataResult : Type := {
  success : bool;
  data : Value;                   (* [VUndefined] when absent *)
  error : option string;
  timestamp : Z
}.

(** [dataSources] is [None] for a requirement object that lacks the array
    (a malformed requirement, on which [.map] throws). *)
Record ComponentDataRequirement : Type := {
  componentId : string;
  dataSources : option (list SimpleDataSourceConfig)
}.

(** [convertToUnifiedConfig]: only an http source is touched, its [method]
    is upper-cased (calling [toUpperCase] on a value that is not a string
    throws). *)
Definition convertToUnifiedConfig (dataSource : SimpleDataSourceConfig)
    : Completion U.UnifiedDataConfig :=
  let base (cfg : ordmap Value) :=
    {| U.id := id dataSource; U.type := type dataSource;
       U.enabled := Some true; U.config := cfg |} in
  if bool_decide (type dataSource = "http")
  then
    let m := getProp (VObj (config dataSource)) "method" in
    if truthy m
    then match m with
         | VStr s => Normal (base (ordmap_set (config dataSource) "method" (VStr (toUpperCase s))))
         | _ => Throw U.typeError
         end
    else Normal (base (config dataSource))
  else Normal (base (config dataSource)).

Definition errorText (v : Value) (fallback : string) : string :=
  if truthy v then toString v else fallback.

(** [executeDataSource]: the data of a successful result, a throw for
    anything else. *)
Definition executeDataSource (executors : gmap string U.DataSourceExecutor)
    (now : Z) (dataSource : SimpleDataSourceConfig) : Completion Value :=
  match convertToUnifiedConfig dataSource with
  | Throw e => Throw e
  | Normal unifiedConfig =>
      match U.execute executors now unifiedConfig with
      | Throw e => Throw e
      | Normal result =>
          if U.success result then Normal (U.data result)
          else Throw (mkError (errorText (U.error result) "数据源执行失败"))
      end
  end.

(** What a source contributes to the merged result: its data, or [null]
    when its execution throws. *)
Definition slot (executors : gmap string U.DataSourceExecutor) (now : Z)
    (ds : SimpleDataSourceConfig) : Value :=
  match executeDataSource executors now ds with
  | Normal v => v
  | Throw _ => VNull
  end.

(** The configurations handed to [unifiedDataExecutor.execute], in the order
    of the calls. *)
Definition executedConfigs (srcs : list SimpleDataSourceConfig) : list U.UnifiedDataConfig :=
  omap (fun ds => match convertToUnifiedConfig ds with
                  | Normal c => Some c
                  | Throw _ => None
                  end) srcs.

(** What one run of [executeComponent] reads and how its promises are
    scheduled: the clock at the cache lookup, the clock seen by the
    executors, the clock of the returned result, and the order in which the
    per-source promises settle (indices into [dataSources]) together with
    what [storeComponentData] reads when each one stores. *)
Record Run : Type := {
  lookupNow : Z;
  executeNow : Z;
  resultNow : Z;
  settleOrder : list (nat * W.StoreReads)
}.

Record Outcome : Type := {
  result : DataResult;
  warehouse : W.EnhancedDataWarehouse;
  notified : list (string * Value);         (* arguments of [notifyDataUpdate] *)
  executed : list U.UnifiedDataConfig       (* executor invocations *)
}.

Section WithStringify.

Variable JSON_stringify : Value -> option string.

(** The body of one per-source promise, run when its executor settles:
    [componentData[dataSource.id] = result], or [= null] in the [catch]. *)
Definition settleSource (executors : gmap string U.DataSourceExecutor) (now : Z)
    (componentId : string) (dataSource : SimpleDataSourceConfig) (r : W.StoreReads)
    (acc : PlainObject * W.EnhancedDataWarehouse) : PlainObject * W.EnhancedDataWarehouse :=
  match executeDataSource executors now dataSource with
  | Normal v =>
      (assign acc.1 (id dataSource) v,
       W.storeComponentData JSON_stringify r componentId (id dataSource) v
         (type dataSource) None acc.2)
  | Throw _ => (assign acc.1 (id dataSource) VNull, acc.2)
  end.

Fixpoint settleAll (executors : gmap string U.DataSourceExecutor) (now : Z)
    (componentId : string) (srcs : list SimpleDataSourceConfig)
    (order : list (nat * W.StoreReads))
    (acc : PlainObject * W.EnhancedDataWarehouse) : PlainObject * W.EnhancedDataWarehouse :=
  match order with
  | [] => acc
  | (i, r) :: order' =>
      settleAll executors now componentId srcs order'
        (match srcs !! i with
         | Some ds => settleSource executors now componentId ds r acc
         | None => acc
         end)
  end.

Definition executeComponent (executors : gmap string U.DataSourceExecutor)
    (run : Run) (requirement : ComponentDataRequirement)
    (st : W.EnhancedDataWarehouse) : Outcome :=
  let '(cachedData, st1) :=
    W.getComponentData JSON_stringify (lookupNow run) (componentId requirement) st in
  if truthy cachedData
  then
    {| result := {| success := true; data := cachedData; error := None;
                    timestamp := resultNow run |};
       warehouse := st1;
       notified := [(componentId requirement, cachedData)];
       executed := [] |}
  else
    match dataSources requirement with
    | None =>
        {| result := {| success := false; data := VUndefined;
                        error := Some (toString (getProp U.typeError "message"));
                        timestamp := resultNow run |};
           warehouse := st1;
           notified := [];
           executed := [] |}
    | Some srcs =>
        let '(componentData, st2) :=
          settleAll executors (executeNow run) (componentId requirement) srcs
            (settleOrder run) (emptyObject, st1) in
        {| result := {| success := true; data := objectValue componentData; error := None;
                        timestamp := resultNow run |};
           warehouse := st2;
           notified := [(componentId requirement, objectValue componentData)];
           executed := executedConfigs srcs |}
    end.

End WithStringify.

End SimpleDataBridge.

(** ** ConfigEventBus.ts *)

Module ConfigEventBus.
Import JS.

Record EventContext : Type := {
  triggerComponent : option string;
  shouldTriggerExecution : option bool;
  changedFields : option (list string)
}.

Record ConfigChangeEvent : Type := {
  componentId : string;
  componentType : string;
  section : string;
  oldConfig : Value;
  newConfig : Value;
  timestamp : Z;
  source : string;
  context : option EventContext
}.

(** A handler is a function object: two registrations are of the same
    handler when they are of the same object, named here by a number. A
    call of it returns, or fails (it throws, or the promise it returns
    rejects); which of the two is taken as a function of the event, and so
    is the answer of a filter condition. *)
Record ConfigEventHandler : Type := {
  handlerId : nat;
  handle : ConfigChangeEvent -> Completion unit
}.

Record ConfigEventFilter : Type := {
  name : string;
  condition : ConfigChangeEvent -> Completion bool;
  priority : option Z
}.

Record Statistics : Type := {
  eventsEmitted : Z;
  eventsFiltered : Z;
  handlersExecuted : Z;
  errors : Z
}.

(** The bus. [eventHandlers] maps an event type to a [Set] object; the
    [Set] objects live in [sets], each under the number it was created
    with, so that the closure returned by [onConfigChange] can keep
    pointing at its own. *)
Record ConfigEventBus : Type := {
  eventHandlers : ordmap nat;
  sets : list (list ConfigEventHandler);
  globalFilters : list ConfigEventFilter;
  statistics : Statistics
}.

Definition noStatistics : Statistics :=
  {| eventsEmitted := 0; eventsFiltered := 0; handlersExecuted := 0; errors := 0 |}.

Definition newBus : ConfigEventBus :=
  {| eventHandlers := []; sets := []; globalFilters := []; statistics := noStatistics |}.

(** [Set.prototype.add] and [delete], by identity. *)
Definition setAdd (h : ConfigEventHandler) (s : list ConfigEventHandler)
    : list ConfigEventHandler :=
  if existsb (fun h' => Nat.eqb (handlerId h') (handlerId h)) s then s else s ++ [h].

Definition setDelete (h : ConfigEventHandler) (s : list ConfigEventHandler)
    : list ConfigEventHandler :=
  List.filter (fun h' => negb (Nat.eqb (handlerId h') (handlerId h))) s.

(** What the closure returned by [onConfigChange] has captured. *)
Record Unsubscribe : Type := {
  u_handlers : nat;
  u_handler : ConfigEventHandler;
  u_eventType : string
}.

Definition onConfigChange (eventType : string) (handler : ConfigEventHandler)
    (bus : ConfigEventBus) : Unsubscribe * ConfigEventBus :=
  let bus1 :=
    if negb (ordmap_has (eventHandlers bus) eventType)
    then {| eventHandlers := ordmap_set (eventHandlers bus) eventType (length (sets bus));
            sets := sets bus ++ [[]];
            globalFilters := globalFilters bus;
            statistics := statistics bus |}
    else bus in
  let handlers := default 0%nat (ordmap_get (eventHandlers bus1) eventType) in
  ({| u_handlers := handlers; u_handler := handler; u_eventType := eventType |},
   {| eventHandlers := eventHandlers bus1;
      sets := alter (setAdd handler) handlers (sets bus1);
      globalFilters := globalFilters bus1;
      statistics := statistics bus1 |}).

(** A call of the returned closure. *)
Definition unsubscribe (u : Unsubscribe) (bus : ConfigEventBus) : ConfigEventBus :=
  let sets1 := alter (setDelete (u_handler u)) (u_handlers u) (sets bus) in
  {| eventHandlers :=
       if bool_decide (default [] (sets1 !! u_handlers u) = [])
       then ordmap_delete (eventHandlers bus) (u_eventType u)
       else eventHandlers bus;
     sets := sets1;
     globalFilters := globalFilters bus;
     statistics := statistics bus |}.

(** The handlers that an event of type [eventType] reaches. *)
Definition handlersOf (bus : ConfigEventBus) (eventType : string)
    : list ConfigEventHandler :=
  match ordmap_get (eventHandlers bus) eventType with
  | Some handlers => default [] (sets bus !! handlers)
  | None => []
  end.

(** [f.priority || 0]. *)
Definition priorityOf (f : ConfigEventFilter) : Z := default 0 (priority f).

(** [addEventFilter]: before the first filter of strictly lower priority. *)
Fixpoint insertFilter (filter : ConfigEventFilter) (fs : list ConfigEventFilter)
    : list ConfigEventFilter :=
  match fs with
  | [] => [filter]
  | f :: fs' =>
      if priorityOf f <? priorityOf filter then filter :: f :: fs'
      else f :: insertFilter filter fs'
  end.

Definition addEventFilter (filter : ConfigEventFilter) (bus : ConfigEventBus)
    : ConfigEventBus :=
  {| eventHandlers := eventHandlers bus;
     sets := sets bus;
     globalFilters := insertFilter filter (globalFilters bus);
     statistics := statistics bus |}.

(** [removeEventFilter]: the first filter of that name. *)
Fixpoint removeFirst (filterName : string) (fs : list ConfigEventFilter)
    : list ConfigEventFilter :=
  match fs with
  | [] => []
  | f :: fs' => if bool_decide (name f = filterName) then fs'
                else f :: removeFirst filterName fs'
  end.

Definition removeEventFilter (filterName : string) (bus : ConfigEventBus)
    : ConfigEventBus :=
  {| eventHandlers := eventHandlers bus;
     sets := sets bus;
     globalFilters := removeFirst filterName (globalFilters bus);
     statistics := statistics bus |}.

Definition getStatistics (bus : ConfigEventBus) : Statistics := statistics bus.

Definition clear (bus : ConfigEventBus) : ConfigEventBus :=
  {| eventHandlers := []; sets := sets bus; globalFilters := [];
     statistics := noStatistics |}.

(** [passesGlobalFilters]: a filter that throws lets the event through. *)
Fixpoint passesGlobalFilters (event : ConfigChangeEvent) (fs : list ConfigEventFilter)
    : bool :=
  match fs with
  | [] => true
  | filter :: fs' =>
      match condition filter event with
      | Normal false => false
      | _ => passesGlobalFilters event fs'
      end
  end.

Definition determineEventTypes (event : ConfigChangeEvent) : list string :=
  "config-changed" ::
  (if bool_decide (section event = "dataSource") then ["data-source-changed"]
   else if bool_decide (section event = "component") then ["component-props-changed"]
   else if bool_decide (section event = "base") then ["base-config-changed"]
   else if bool_decide (section event = "interaction") then ["interaction-changed"]
   else []).

Definition failed (c : Completion unit) : bool :=
  match c with Normal _ => false | Throw _ => true end.

(** [emitConfigChange(event)], once every handler promise has settled: the
    handlers called, in the order of the calls, and the bus afterwards.
    This is an emit whose filter conditions and handlers leave the bus
    alone: one that calls back into the bus while the emit runs ([clear],
    which installs a new statistics object, [onConfigChange], ...) is not
    described by this definition. *)
Definition emitConfigChange (event : ConfigChangeEvent) (bus : ConfigEventBus)
    : list ConfigEventHandler * ConfigEventBus :=
  if negb (passesGlobalFilters event (globalFilters bus))
  then ([],
        {| eventHandlers := eventHandlers bus;
           sets := sets bus;
           globalFilters := globalFilters bus;
           statistics :=
             {| eventsEmitted := eventsEmitted (statistics bus) + 1;
                eventsFiltered := eventsFiltered (statistics bus) + 1;
                handlersExecuted := handlersExecuted (statistics bus);
                errors := errors (statistics bus) |} |})
  else
    let called := flat_map (handlersOf bus) (determineEventTypes event) in
    (called,
     {| eventHandlers := eventHandlers bus;
        sets := sets bus;
        globalFilters := globalFilters bus;
        statistics :=
          {| eventsEmitted := eventsEmitted (statistics bus) + 1;
             eventsFiltered := eventsFiltered (statistics bus);
             handlersExecuted :=
               handlersExecuted (statistics bus) + Z.of_nat (length called);
             errors :=
               errors (statistics bus)
               + Z.of_nat (length (List.filter (fun h => failed (handle h event)) called)) |} |}).

(** The filter that the module installs on the global bus. *)
Definition ignoreSystemUpdates : ConfigEventFilter :=
  {| name := "ignore-system-updates";
     condition := fun event =>
       Normal (negb (bool_decide (source event = "system"))
               || negb (bool_decide
                          ((context event ≫= shouldTriggerExecution) = Some false)));
     priority := Some 100 |}.

Definition configEventBus : ConfigEventBus := addEventFilter ignoreSystemUpdates newBus.

(** *** Notions used to state the properties *)

(** The calls a client can make, and the buses they lead to. *)
Inductive BusOp : Type :=
| OpSubscribe (eventType : string) (handler : ConfigEventHandler)
| OpUnsubscribe (u : Unsubscribe)
| OpAddFilter (filter : ConfigEventFilter)
| OpRemoveFilter (filterName : string)
| OpEmit (event : ConfigChangeEvent)
| OpClear.

Definition applyOp (op : BusOp) (bus : ConfigEventBus) : ConfigEventBus :=
  match op with
  | OpSubscribe eventType handler => (onConfigChange eventType handler bus).2
  | OpUnsubscribe u => unsubscribe u bus
  | OpAddFilter filter => addEventFilter filter bus
  | OpRemoveFilter filterName => removeEventFilter filterName bus
  | OpEmit event => (emitConfigChange event bus).2
  | OpClear => clear bus
  end.

Definition runOps (ops : list BusOp) (bus : ConfigEventBus) : ConfigEventBus :=
  foldl (fun b op => applyOp op b) bus ops.

End ConfigEventBus.

(** ** executors/DataItemFetcher.ts *)

Module DataItemFetcher.
Import JS.

(** The fields of [HttpParameter] (types/http-config) that the fetcher
    reads. *)
Record HttpParameter : Type := {
  key : string;
  value : Value;
  enabled : bool;
  selectedTemplate : option string;
  defaultValue : Value;           (* [VUndefined] when absent *)
  dataType : string;
  paramType : string
}.

Record HttpDataItemConfig : Type := {
  url : string;
  method : string;
  headers : option (ordmap string);
  body : Value;
  timeout : option Z;
  pathParameter : option HttpParameter;
  pathParams : option (list HttpParameter);
  params : option (list HttpParameter);
  parameters : option (list HttpParameter)
}.

(** The editor store ([useEditorStore()]) as far as the fetcher reads it. *)
Record EditorNode : Type := {
  node_id : string;
  properties : Value
}.

Record EditorStore : Type := {
  nodes : option (list EditorNode);
  selectedNodeId : option string
}.

(** The request handed to the [request] library. *)
Record HttpRequest : Type := {
  rq_method : string;
  rq_url : string;
  rq_timeout : Z;
  rq_headers : option (ordmap string);
  rq_params : option (ordmap Value);
  rq_body : Value
}.

Definition REQUEST_CACHE_TTL : Z := 200.

(** [getNestedProperty(obj, path)]. *)
Definition getNestedProperty (obj : Value) (path : string) : Value :=
  if negb (truthy obj) || bool_decide (path = "") then VUndefined
  else
    default VUndefined
      (foldl (fun (current : option Value) (k : string) =>
                c ← current;
                if truthy c && typeofObject c && hasProp c k
                then Some (getProp c k) else None)
             (Some obj) (split "." path)).

(** [getComponentPropertyValue(bindingPath)] for a string path. *)
Definition getComponentPropertyValue (es : EditorStore) (bindingPath : string) : Value :=
  if bool_decide (bindingPath = "") || negb (includes bindingPath ".") then VUndefined
  else
    let parts := split "." bindingPath in
    let componentId := default "" (head parts) in
    let propertyPath := join "." (tail parts) in
    match List.find (fun n => bool_decide (node_id n = componentId))
                    (default [] (nodes es)) with
    | None => VUndefined
    | Some targetComponent => getNestedProperty (properties targetComponent) propertyPath
    end.

(** [!bindingPath || bindingPath.trim() === ''], which throws when the value
    is truthy and has no [trim] method. *)
Definition bindingPathBlank (bindingPath : Value) : Completion bool :=
  if negb (truthy bindingPath) then Normal true
  else match bindingPath with
       | VStr s => Normal (bool_decide (trim s = ""))
       | _ => Throw (mkError "TypeError")
       end.

(** The binding path tried when the configured one is blank. *)
Definition derivedBindingPath (es : EditorStore) (bindingPath : Value) : Value :=
  let availableNodes := default [] (nodes es) in
  match selectedNodeId es with
  | Some selectedNode =>
      if negb (bool_decide (selectedNode = ""))
         && existsb (fun n => bool_decide (node_id n = selectedNode)) availableNodes
      then VStr (selectedNode +:+ ".customize.deviceId")
      else match availableNodes with
           | n :: _ => VStr (node_id n +:+ ".customize.deviceId")
           | [] => bindingPath
           end
  | None =>
      match availableNodes with
      | n :: _ => VStr (node_id n +:+ ".customize.deviceId")
      | [] => bindingPath
      end
  end.

(** The first half of [resolveParameterValue]: the value after the
    component-property binding, before the emptiness check. *)
Definition boundValue (es : EditorStore) (param : HttpParameter) : Completion Value :=
  if bool_decide (selectedTemplate param = Some "component-property-binding")
  then
    match bindingPathBlank (value param) with
    | Throw e => Throw e
    | Normal blank =>
        let bindingPath :=
          if blank then derivedBindingPath es (value param) else value param in
        match bindingPath with
        | VStr s =>
            if truthy bindingPath
            then
              let actualValue := getComponentPropertyValue es s in
              match actualValue with
              | VUndefined | VNull => Normal VUndefined
              | VStr "" => Normal VUndefined
              | _ => Normal actualValue
              end
            else Normal (value param)
        | _ => Normal (value param)
        end
    end
  else Normal (value param).

Definition isEmpty (resolvedValue : Value) : bool :=
  match resolvedValue with
  | VNull | VUndefined => true
  | VStr s => bool_decide (s = "") || bool_decide (trim s = "")
  | _ => false
  end.

(** [param.defaultValue !== undefined && param.defaultValue !== null]. *)
Definition hasDefault (param : HttpParameter) : bool :=
  match defaultValue param with
  | VUndefined | VNull => false
  | _ => true
  end.

Section WithConvert.

(** [convertValue(value, dataType)] of types/http-config. *)
Variable convertValue : Value -> string -> Value.

(** [resolveParameterValue(param)]; [VNull] is the marker for a parameter to
    skip. *)
Definition resolveParameterValue (es : EditorStore) (param : HttpParameter)
    : Completion Value :=
  match boundValue es param with
  | Throw e => Throw e
  | Normal resolvedValue =>
      if isEmpty resolvedValue
      then
        if hasDefault param
        then Normal (convertValue (defaultValue param) (dataType param))
        else Normal VNull
      else Normal (convertValue resolvedValue (dataType param))
  end.

(** [.filter(p => p.enabled && p.key)]. *)
Definition active (l : list HttpParameter) : list HttpParameter :=
  List.filter (fun p => enabled p && negb (bool_decide (key p = ""))) l.

(** The part of the request that the parameters write: [finalUrl], the
    [queryParams] object and [requestConfig.headers]. The latter is
    [config.headers] itself when the configuration has headers, so what the
    rounds write there stays in the caller's configuration after the
    call. *)
Record Draft : Type := {
  finalUrl : string;
  queryParams : PlainObject;
  draftHeaders : option (ordmap string)
}.

(** [headers[k] = text] on a headers object: a string is no prototype, so
    under [__proto__] the assignment does nothing unless the object has an
    own property of that name. *)
Definition setHeader (h : ordmap string) (k text : string) : ordmap string :=
  if bool_decide (k = "__proto__") && negb (ordmap_has h "__proto__") then h
  else ordmap_set h k text.

Definition isNull (v : Value) : bool :=
  match v with VNull => true | _ => false end.

Definition substitute (placeholder : string) (v : Value) (d : Draft) : Draft :=
  if includes (finalUrl d) placeholder
  then {| finalUrl := replaceFirst (finalUrl d) placeholder (toString v);
          queryParams := queryParams d;
          draftHeaders := draftHeaders d |}
  else d.

(** One round of the [forEach] over [config.pathParams]. *)
Definition applyPathParam (p : HttpParameter) (resolvedValue : Value) (d : Draft) : Draft :=
  if negb (isNull resolvedValue)
  then substitute ("{" +:+ key p +:+ "}") resolvedValue d
  else d.

(** The [else if (config.pathParameter)] branch. *)
Definition applyLegacyPathParameter (p : HttpParameter) (resolvedValue : Value)
    (d : Draft) : Draft :=
  if negb (isNull resolvedValue) && truthy resolvedValue
     && negb (bool_decide (trim (toString resolvedValue) = ""))
  then substitute (if bool_decide (key p = "") then "{id}" else "{" +:+ key p +:+ "}")
                  resolvedValue d
  else d.

(** One round of the [forEach] over [config.params]. *)
Definition applyQueryParam (p : HttpParameter) (resolvedValue : Value) (d : Draft) : Draft :=
  if negb (isNull resolvedValue)
  then {| finalUrl := finalUrl d;
          queryParams := assign (queryParams d) (key p) resolvedValue;
          draftHeaders := draftHeaders d |}
  else d.

(** One round of the [forEach] over [config.parameters]. *)
Definition applyUnifiedParam (p : HttpParameter) (resolvedValue : Value) (d : Draft) : Draft :=
  if negb (isNull resolvedValue)
  then
    if bool_decide (paramType p = "path")
    then
      if truthy resolvedValue && negb (bool_decide (trim (toString resolvedValue) = ""))
      then
        let separator := if endsWith (finalUrl d) "/" then "" else "/" in
        {| finalUrl := finalUrl d +:+ separator +:+ toString resolvedValue;
           queryParams := queryParams d;
           draftHeaders := draftHeaders d |}
      else d
    else if bool_decide (paramType p = "query")
    then {| finalUrl := finalUrl d;
            queryParams := assign (queryParams d) (key p) resolvedValue;
            draftHeaders := draftHeaders d |}
    else if bool_decide (paramType p = "header")
    then {| finalUrl := finalUrl d;
            queryParams := queryParams d;
            draftHeaders :=
              Some (setHeader (default [] (draftHeaders d)) (key p) (toString resolvedValue)) |}
    else d
  else d.

(** A round writes at most the key of its parameter, and nothing for the
    skip marker. *)
Definition writesOwnKey (round : HttpParameter → Value → Draft → Draft) : Prop :=
  ∀ q v d k,
    (key q = k → v = VNull) →
    ordmap_get (obj_own (queryParams (round q v d))) k
    = ordmap_get (obj_own (queryParams d)) k ∧
    ordmap_get (default [] (draftHeaders (round q v d))) k
    = ordmap_get (default [] (draftHeaders d)) k.

(** A [forEach] that resolves each parameter and applies one round; a throw
    of the resolver leaves the loop. *)
Fixpoint forEachParam (es : EditorStore)
    (round : HttpParameter -> Value -> Draft -> Draft)
    (l : list HttpParameter) (d : Draft) : Completion Draft :=
  match l with
  | [] => Normal d
  | p :: l' =>
      match resolveParameterValue es p with
      | Throw e => Throw e
      | Normal v => forEachParam es round l' (round p v d)
      end
  end.

Definition nonEmpty {A} (o : option (list A)) : option (list A) :=
  match o with
  | Some (x :: l) => Some (x :: l)
  | _ => None
  end.

(** The parameter handling of [executeHttpRequest]. *)
Definition applyParameters (es : EditorStore) (cfg : HttpDataItemConfig)
    : Completion Draft :=
  let d0 :=
    {| finalUrl := url cfg;
       queryParams := emptyObject;
       draftHeaders :=
         match headers cfg with
         | Some (h :: hs) => Some (h :: hs)
         | _ => None
         end |} in
  let afterPath :=
    match nonEmpty (pathParams cfg) with
    | Some l => forEachParam es applyPathParam (active l) d0
    | None =>
        match pathParameter cfg with
        | Some p =>
            match resolveParameterValue es p with
            | Throw e => Throw e
            | Normal v => Normal (applyLegacyPathParameter p v d0)
            end
        | None => Normal d0
        end
    end in
  match afterPath with
  | Throw e => Throw e
  | Normal d1 =>
      match nonEmpty (params cfg) with
      | Some l => forEachParam es applyQueryParam (active l) d1
      | None =>
          match nonEmpty (parameters cfg) with
          | Some l => forEachParam es applyUnifiedParam (active l) d1
          | None => Normal d1
          end
      end
  end.

(** [JSON.parse]; [None] when it throws. *)
Variable JSON_parse : string -> option Value.

Definition requestBody (cfg : HttpDataItemConfig) : Value :=
  if bool_decide (method cfg ∈ ["POST"; "PUT"; "PATCH"; "DELETE"]) && truthy (body cfg)
  then match body cfg with
       | VStr s => default (body cfg) (JSON_parse s)
       | b => b
       end
  else VUndefined.

(** [executeHttpRequest] from the request configuration to the call of the
    [request] library: the request sent, or the throw that the enclosing
    [catch] turns into [{}]. (The pre-request script, which may rewrite
    [config] before this point, and the post-response script are steps of
    the script engine.) *)
Definition buildRequest (es : EditorStore) (cfg : HttpDataItemConfig)
    : Completion HttpRequest :=
  match applyParameters es cfg with
  | Throw e => Throw e
  | Normal d =>
      let m := toUpperCase (method cfg) in
      if bool_decide (m ∈ ["GET"; "POST"; "PUT"; "PATCH"; "DELETE"])
      then
        Normal
          {| rq_method := m;
             rq_url := finalUrl d;
             rq_timeout := match timeout cfg with
                           | Some t => if t =? 0 then 10000 else t
                           | None => 10000
                           end;
             rq_headers := draftHeaders d;
             rq_params := match obj_own (queryParams d) with
                          | [] => None
                          | q => Some q
                          end;
             rq_body := if bool_decide (m ∈ ["POST"; "PUT"; "PATCH"])
                        then requestBody cfg else VUndefined |}
      else Throw (mkError ("不支持的HTTP方法: " +:+ method cfg))
  end.

(** *** Request de-duplication *)

Definition simpleHash (str : string) : string :=
  if bool_decide (str = "") then "0"
  else toStringRadix 36 (Z.abs (hashLoop str 0)).

Definition compareStrings (a b : string) : Z :=
  match String.compare a b with
  | Lt => -1
  | Eq => 0
  | Gt => 1
  end.

(** [l.filter(..).map(p => `${p.key}=${this.resolveParameterValue(p)}`)]. *)
Fixpoint keyParts (es : EditorStore) (l : list HttpParameter) : Completion (list string) :=
  match l with
  | [] => Normal []
  | p :: l' =>
      match resolveParameterValue es p with
      | Throw e => Throw e
      | Normal v =>
          match keyParts es l' with
          | Throw e => Throw e
          | Normal r => Normal ((key p +:+ "=" +:+ toString v) :: r)
          end
      end
  end.

Definition keyComponent (es : EditorStore) (label : string)
    (o : option (list HttpParameter)) : Completion (list string) :=
  match nonEmpty o with
  | Some l =>
      match keyParts es (active l) with
      | Throw e => Throw e
      | Normal parts =>
          Normal [label +:+ join "&" (sortBy compareStrings parts)]
      end
  | None => Normal []
  end.

(** [JSON.stringify] of a request body (an object or an array). *)
Variable JSON_stringify : Value -> string.

Definition generateRequestKey (es : EditorStore) (cfg : HttpDataItemConfig)
    : Completion string :=
  match keyComponent es "path:" (pathParams cfg) with
  | Throw e => Throw e
  | Normal kp =>
      match keyComponent es "query:" (params cfg) with
      | Throw e => Throw e
      | Normal kq =>
          match keyComponent es "unified:" (parameters cfg) with
          | Throw e => Throw e
          | Normal ku =>
              let kb :=
                if truthy (body cfg) && typeofObject (body cfg)
                then ["body:" +:+ JSON_stringify (body cfg)] else [] in
              let keyComponents :=
                [if bool_decide (method cfg = "") then "GET" else method cfg; url cfg]
                ++ kp ++ kq ++ ku ++ kb in
              Normal ("http_" +:+ simpleHash (join "|" keyComponents))
          end
      end
  end.

(** The state of one fetcher, as the event loop sees it: the table of
    pending promises by request key, the cleanup timers that [setTimeout]
    has armed (due time and key), the underlying requests started so far
    (promise and configuration), and the promises that have settled, with
    the time at which they did. A promise is named by its number. *)
Record Fetcher : Type := {
  requestCache : gmap string nat;
  timers : list (Z * string);
  started : list (nat * HttpDataItemConfig);
  settled : gmap nat Z
}.

Definition newFetcher : Fetcher :=
  {| requestCache := ∅; timers := []; started := []; settled := ∅ |}.

(** The synchronous part of [fetchHttpData], called at time [now]: the
    promise the caller awaits and the fetcher afterwards. *)
Definition fetchHttpData (es : EditorStore) (now : Z) (cfg : HttpDataItemConfig)
    (f : Fetcher) : Completion (nat * Fetcher) :=
  match generateRequestKey es cfg with
  | Throw e => Throw e
  | Normal requestKey =>
      match requestCache f !! requestKey with
      | Some existingRequest => Normal (existingRequest, f)
      | None =>
          let requestPromise := length (started f) in
          Normal
            (requestPromise,
             {| requestCache := <[requestKey := requestPromise]> (requestCache f);
                timers := timers f ++ [(now + REQUEST_CACHE_TTL, requestKey)];
                started := started f ++ [(requestPromise, cfg)];
                settled := settled f |})
      end
  end.

(** The event loop runs the cleanup callbacks that are due at [now]. *)
Definition runTimers (now : Z) (f : Fetcher) : Fetcher :=
  {| requestCache :=
       foldl (fun c t => if t.1 <=? now then delete t.2 c else c)
             (requestCache f) (timers f);
     timers := filter (fun t => now < t.1) (timers f);
     started := started f;
     settled := settled f |}.

(** The underlying request of [promise] completes at [now]. *)
Definition settle (now : Z) (promise : nat) (f : Fetcher) : Fetcher :=
  {| requestCache := requestCache f;
     timers := timers f;
     started := started f;
     settled := <[promise := now]> (settled f) |}.

(** The events of a fetcher's life and the trace semantics: a call of
    [fetchHttpData] (a call whose key computation throws leaves the fetcher
    as it was), the event loop running the due cleanup callbacks, and the
    completion of an underlying request. *)
Inductive Event : Type :=
| Call (now : Z) (cfg : HttpDataItemConfig)
| RunTimers (now : Z)
| Settle (now : Z) (promise : nat).

Definition step (es : EditorStore) (ev : Event) (f : Fetcher) : Fetcher :=
  match ev with
  | Call now cfg =>
      match fetchHttpData es now cfg f with
      | Normal (_, f') => f'
      | Throw _ => f
      end
  | RunTimers now => runTimers now f
  | Settle now promise => settle now promise f
  end.

Definition steps (es : EditorStore) (evs : list Event) (f : Fetcher) : Fetcher :=
  foldl (fun f ev => step es ev f) f evs.

(** Every table entry has exactly one armed cleanup timer, and conversely. *)
Record FetcherInv (f : Fetcher) : Prop := {
  inv_timer_keys : NoDup (timers f).*2;
  inv_timer_entry : ∀ k, is_Some (requestCache f !! k) ↔ k ∈ (timers f).*2
}.

(** While the entry of [k] is in the table with its timer not yet run, no
    event removes it and no call starts a request under the key [k]. *)
Record Pending (es : EditorStore) (k : string) (p : nat) (due : Z)
    (base : list (nat * HttpDataItemConfig)) (f : Fetcher) : Prop := {
  pending_inv : FetcherInv f;
  pending_entry : requestCache f !! k = Some p;
  pending_timer : (due, k) ∈ timers f;
  pending_started : ∀ q cfg, (q, cfg) ∈ started f →
                      (q, cfg) ∈ base ∨ generateRequestKey es cfg ≠ Normal k
}.

End WithConvert.

End DataItemFetcher.


(** ** Concrete inputs for the examples *)

Module Samples.
Import JS.

Definition quote (s : string) : string :=
  let q := String (ascii_of_nat 34) EmptyString in
  let fix escape (s : string) : string :=
    match s with
    | EmptyString => EmptyString
    | String c s' =>
        if bool_decide (c = ascii_of_nat 34) || bool_decide (c = ascii_of_nat 92)
        then String (ascii_of_nat 92) (String c (escape s'))
        else String c (escape s')
    end in
  q +:+ escape s +:+ q.

(** [JSON.stringify] on the values of the examples (text without control
    characters): [None] for [undefined]. *)
Fixpoint stringify (v : Value) : option string :=
  match v with
  | VUndefined => None
  | VNull => Some "null"
  | VBool true => Some "true"
  | VBool false => Some "false"
  | VNum n => Some (numberToString n)
  | VStr s => Some (quote s)
  | VArr items =>
      Some ("[" +:+ join "," (map (fun x => default "null" (stringify x)) items) +:+ "]")
  | VObj fields =>
      Some ("{" +:+
            join "," (omap (fun kv => match kv with
                                      | (k, x) => (fun t => quote k +:+ ":" +:+ t) <$> stringify x
                                      end) fields)
            +:+ "}")
  end.

(** The reads of a [storeComponentData] call made at clock value [t]. *)
Definition readsAt (t : Z) : DataWarehouse.StoreReads :=
  {| DataWarehouse.dateNow := t;
     DataWarehouse.versionNow := t;
     DataWarehouse.randomExecution := "k3x9q1z7a";
     DataWarehouse.randomHash := "p0o9i8u7y" |}.

Import DataWarehouse.

Definition payloadItem (id sourceId : string) (bytes count accessed : Z) : DataStorageItem :=
  {| data := VStr sourceId;
     timestamp := 0;
     expiresAt := Some 300000;
     source := {| sourceId := sourceId; sourceType := "http"; source_componentId := id |};
     size := bytes;
     accessCount := count;
     lastAccessed := accessed;
     dataVersion := Some (id +:+ "-0-0");
     executionId := None |}.

(** One widget with two 400000-byte sources and the merged view that a
    [getComponentData] cached for them, under a budget of 1 MB: 1600060
    bytes in all. *)
Definition crowded : EnhancedDataWarehouse :=
  {| componentStorage :=
       [("w1",
         {| componentId := "w1";
            dataSources := [("old", payloadItem "w1" "old" 400000 1 10);
                            ("recent", payloadItem "w1" "recent" 400000 3 90)];
            mergedData :=
              Some {| data := VObj [("old", VStr "old"); ("recent", VStr "recent")];
                      timestamp := 90;
                      expiresAt := Some 300090;
                      source := {| sourceId := "*merged*"; sourceType := "merged";
                                   source_componentId := "w1" |};
                      size := 800060;
                      accessCount := 1;
                      lastAccessed := 90;
                      dataVersion := None;
                      executionId := None |};
            createdAt := 0;
            updatedAt := 0 |})];
     componentChangeNotifiers := {["w1" := 2]};
     componentLatestVersions := {["w1" := "w1-0-0"]};
     config :=
       {| defaultCacheExpiry := 300000; maxMemoryUsage := 1; cleanupInterval := 60000;
          maxStorageItems := 1000; enablePerformanceMonitoring := true |} |}.

(** A widget with a [complete] source and another source, both just
    stored. *)
Definition twoSources (completeData : Value) : EnhancedDataWarehouse :=
  storeComponentData stringify (readsAt 100) "w1" "s1" (VNum 7) "static" None
    (storeComponentData stringify (readsAt 100) "w1" "complete" completeData "static" None
       (newWarehouse defaultConfig)).

(** One source stored and read once, all within the same millisecond. *)
Definition stored1 : EnhancedDataWarehouse :=
  (getComponentData stringify 100 "w1"
     (storeComponentData stringify (readsAt 100) "w1" "s1" (VNum 1) "static" None
        (newWarehouse defaultConfig))).2.

(** A stub executor that settles to [outcome] whatever the configuration. *)
Definition stub (ty : string) (outcome : Completion Value)
    : UnifiedDataExecutor.DataSourceExecutor :=
  UnifiedDataExecutor.Build_DataSourceExecutor ty
    (fun cfg =>
       match outcome with
       | Normal v =>
           Normal (UnifiedDataExecutor.Build_UnifiedDataResult
                     true v VUndefined None 0 (UnifiedDataExecutor.id cfg))
       | Throw e => Throw e
       end).

(** A registry as the constructor leaves it, with stubs for the built-in
    executors: the json one throws. *)
Definition builtin : gmap string UnifiedDataExecutor.DataSourceExecutor :=
  UnifiedDataExecutor.newExecutors
    (stub "http" (Normal (VObj [("temp", VNum 22)])))
    (stub "static" (Normal (VNum 1)))
    (stub "json" (Throw (mkError "Unexpected token")))
    (stub "websocket" (Normal (VObj [("status", VStr "connecting")]))).

Definition sourceOf (ty : string) (en : option bool) : UnifiedDataExecutor.UnifiedDataConfig :=
  UnifiedDataExecutor.Build_UnifiedDataConfig "s1" ty en [].

Definition source (id ty : string) (cfg : ordmap Value)
    : SimpleDataBridge.SimpleDataSourceConfig :=
  SimpleDataBridge.Build_SimpleDataSourceConfig id ty cfg.

Definition threeSources : SimpleDataBridge.ComponentDataRequirement :=
  SimpleDataBridge.Build_ComponentDataRequirement "w1"
    (Some [source "source1" "static" [("data", VNum 1)];
           source "source2" "json" [("jsonContent", VStr "{")];
           source "source3" "http" [("url", VStr "/api/temp"); ("method", VStr "get")]]).

(** The third promise settles first, then the first, then the second. *)
Definition sampleRun : SimpleDataBridge.Run :=
  SimpleDataBridge.Build_Run 100 100 130
    [(2%nat, readsAt 120); (0%nat, readsAt 101); (1%nat, readsAt 110)].

(** Modelled from the spec: [convertValue] of types/http-config, which is
    not among the sources. The spec describes it as a fixed, total
    conversion to the declared data type in which an input that does not
    convert degrades to a zero value. *)
Definition convert (v : Value) (dataType : string) : Value :=
  if bool_decide (dataType = "number") then VNum (default 0 (parseInt (toString v)))
  else if bool_decide (dataType = "boolean") then VBool (bool_decide (toString v = "true"))
  else if bool_decide (dataType = "string") then VStr (toString v)
  else v.

Definition stringifyBody (v : Value) : string := default "" (stringify v).

Definition noEditor : DataItemFetcher.EditorStore :=
  DataItemFetcher.Build_EditorStore (Some []) None.

(** An enabled query parameter with a literal value. *)
Definition param (k : string) (v dflt : Value) (ty : string) : DataItemFetcher.HttpParameter :=
  DataItemFetcher.Build_HttpParameter k v true None dflt ty "query".

(** [GET /api/device/{id}/telemetry] with a path parameter, a query
    parameter that falls back to its default, and one with neither a value
    nor a default. *)
Definition telemetry : DataItemFetcher.HttpDataItemConfig :=
  DataItemFetcher.Build_HttpDataItemConfig
    "/api/device/{id}/telemetry" "GET" None VUndefined None None
    (Some [param "id" (VStr "42") VUndefined "string"])
    (Some [param "limit" (VStr "  ") (VNum 10) "number";
           param "filter" (VStr "") VUndefined "string"])
    None.

End Samples.
(** ** Concrete inputs for the further examples *)

Module MoreSamples.
Import JS.

(** [JSON.parse] on the texts of the examples: a decimal numeral parses,
    anything else is a syntax error. *)
Definition parseNumeral (s : string) : Value + string :=
  if negb (bool_decide (s = "")) && digitsOnly s
  then inl (VNum (default 0 (parseInt s)))
  else inr "Unexpected token".

Definition reading (n : Z) (ok : bool) : Value :=
  VObj [("id", VNum n); ("ok", VBool ok); ("tags", VArr [])].

(** A [request] that answers every call with two readings, and one whose
    answer carries no [data]. *)
Definition respond (opts : BuiltinExecutors.RequestOptions) : Completion Value :=
  Normal (VObj [("data", VArr [reading 1 true; reading 2 false])]).

Definition respondEmpty (opts : BuiltinExecutors.RequestOptions) : Completion Value :=
  Normal (VObj [("status", VNum 204)]).

(** A [request] that always rejects with an [Error]. *)
Definition refuse (opts : BuiltinExecutors.RequestOptions) : Completion Value :=
  Throw (mkError "Network Error").

Definition unified (id ty : string) (cfg : ordmap Value)
    : UnifiedDataExecutor.UnifiedDataConfig :=
  UnifiedDataExecutor.Build_UnifiedDataConfig id ty None cfg.

Definition batch : list UnifiedDataExecutor.UnifiedDataConfig :=
  [unified "a" "static" [("data", VNum 7)];
   unified "b" "json" [("jsonContent", VStr "{")];
   unified "c" "file" [("filePath", VStr "/tmp/readings.csv")]].




(** The telemetry request with its query parameters the other way round. *)
Definition telemetrySwapped : DataItemFetcher.HttpDataItemConfig :=
  DataItemFetcher.Build_HttpDataItemConfig
    "/api/device/{id}/telemetry" "GET" None VUndefined None None
    (Some [Samples.param "id" (VStr "42") VUndefined "string"])
    (Some [Samples.param "filter" (VStr "") VUndefined "string";
           Samples.param "limit" (VStr "  ") (VNum 10) "number"])
    None.

(** A request whose method is written in lower case. *)
Definition lowerCasePost : DataItemFetcher.HttpDataItemConfig :=
  DataItemFetcher.Build_HttpDataItemConfig
    "/api/device" "post" None (VObj [("name", VStr "d1")]) None None None None None.

(** An editor with one node. *)
Definition oneNode : DataItemFetcher.EditorStore :=
  DataItemFetcher.Build_EditorStore
    (Some [DataItemFetcher.Build_EditorNode "n1"
             (VObj [("customize", VObj [("deviceId", VStr "d1")])])])
    None.

(** A handler that returns, or fails, whatever the event. *)
Definition handler (n : nat) (fails : bool) : ConfigEventBus.ConfigEventHandler :=
  ConfigEventBus.Build_ConfigEventHandler n
    (fun _ => if fails then Throw (mkError "handler failed") else Normal tt).

(** A filter with a fixed answer. *)
Definition constantFilter (n : string) (p : option Z) (answer : Completion bool)
    : ConfigEventBus.ConfigEventFilter :=
  ConfigEventBus.Build_ConfigEventFilter n (fun _ => answer) p.

(** The global bus with one subscriber of every event. *)
Definition oneSubscriber : ConfigEventBus.ConfigEventBus :=
  (ConfigEventBus.onConfigChange "config-changed" (handler 1 false)
     ConfigEventBus.configEventBus).2.

Definition userEvent (section : string) : ConfigEventBus.ConfigChangeEvent :=
  ConfigEventBus.Build_ConfigChangeEvent "w1" "" section VNull VNull 0 "user"
    (Some (ConfigEventBus.Build_EventContext (Some "ConfigurationManager") (Some true) None)).

End MoreSamples.

(** * Properties *)

(** ** Facts about the JavaScript layer *)

Module JSFacts.
Import JS.

Section OrdMap.
Context {V : Type}.
Implicit Types (m : ordmap V) (k : string) (v : V).

Lemma ordmap_get_set_eq m k v : ordmap_get (ordmap_set m k v) k = Some v.
Proof.
  induction m as [|[k' v'] m IH]; simpl.
  - by rewrite bool_decide_eq_true_2.
  - case_bool_decide; simpl.
    + by rewrite bool_decide_eq_true_2.
    + by rewrite bool_decide_eq_false_2.
Qed.

Lemma ordmap_get_set_ne m k k' v :
  k ≠ k' → ordmap_get (ordmap_set m k v) k' = ordmap_get m k'.
Proof.
  intros Hne. induction m as [|[k0 v0] m IH]; simpl.
  - by rewrite bool_decide_eq_false_2.
  - case_bool_decide as Hk; simpl.
    + subst k0. by rewrite !bool_decide_eq_false_2.
    + by rewrite IH.
Qed.

Lemma ordmap_get_set m k k' v :
  ordmap_get (ordmap_set m k v) k' = if decide (k = k') then Some v else ordmap_get m k'.
Proof.
  case_decide as Hk.
  - subst. apply ordmap_get_set_eq.
  - by apply ordmap_get_set_ne.
Qed.

Lemma ordmap_get_delete_eq m k : ordmap_get (ordmap_delete m k) k = None.
Proof.
  unfold ordmap_delete. induction m as [|[k' v'] m IH]; [done|].
  rewrite filter_cons. simpl. case_decide as Hk; simpl; [|done].
  by rewrite bool_decide_eq_false_2.
Qed.

Lemma ordmap_get_delete_ne m k k' :
  k ≠ k' → ordmap_get (ordmap_delete m k) k' = ordmap_get m k'.
Proof.
  intros Hne. unfold ordmap_delete. induction m as [|[k0 v0] m IH]; [done|].
  rewrite filter_cons. simpl. case_decide as Hk; simpl.
  - by rewrite IH.
  - assert (k0 = k) as -> by (destruct (decide (k0 = k)); [done | by destruct Hk]).
    by rewrite bool_decide_eq_false_2.
Qed.

Lemma ordmap_get_delete m k k' :
  ordmap_get (ordmap_delete m k) k' = if decide (k = k') then None else ordmap_get m k'.
Proof.
  case_decide as Hk.
  - subst. apply ordmap_get_delete_eq.
  - by apply ordmap_get_delete_ne.
Qed.

Lemma ordmap_get_Some_elem m k v : ordmap_get m k = Some v → (k, v) ∈ m.
Proof.
  induction m as [|[k' v'] m IH]; simpl; [done|].
  case_bool_decide as Hk.
  - intros [= ->]. subst. left.
  - intros H. right. by apply IH.
Qed.

Lemma ordmap_get_None m k : ordmap_get m k = None ↔ k ∉ m.*1.
Proof.
  induction m as [|[k' v'] m IH]; simpl.
  - split; [intros _; apply not_elem_of_nil | done].
  - rewrite not_elem_of_cons. case_bool_decide as Hk; simpl.
    + split; [done | intros [? _]; congruence].
    + rewrite IH. split; [intros ?; split; [congruence | done] | by intros [_ ?]].
Qed.

Lemma ordmap_get_elem m k v : NoDup m.*1 → (k, v) ∈ m → ordmap_get m k = Some v.
Proof.
  induction m as [|[k' v'] m IH]; simpl.
  - intros _ H. by apply elem_of_nil in H.
  - rewrite NoDup_cons. intros [Hnin Hnd] Hin.
    apply elem_of_cons in Hin as [[= -> ->]|Hin].
    + by rewrite bool_decide_eq_true_2.
    + case_bool_decide as Hk.
      * subst k'. exfalso. apply Hnin. apply list_elem_of_fmap. by exists (k, v).
      * by apply IH.
Qed.


End OrdMap.

Section OrdMapKeys.
Context {V : Type}.
Implicit Types (m : ordmap V) (k : string) (v : V).

Lemma ordmap_set_keys m k v :
  (ordmap_set m k v).*1 = if ordmap_has m k then m.*1 else m.*1 ++ [k].
Proof.
  unfold ordmap_has. induction m as [|[k' v'] m IH]; csimpl; [done|].
  case_bool_decide as Hk; csimpl.
  - by subst.
  - rewrite IH. by destruct (ordmap_get m k).
Qed.

Lemma ordmap_set_NoDup m k v : NoDup m.*1 → NoDup (ordmap_set m k v).*1.
Proof.
  intros Hnd. rewrite ordmap_set_keys. unfold ordmap_has.
  destruct (ordmap_get m k) eqn:Hg; [done|].
  apply ordmap_get_None in Hg.
  apply NoDup_app. split_and!; [done | | apply NoDup_singleton].
  intros x Hx Hx'. apply list_elem_of_singleton in Hx'. by subst.
Qed.

Lemma ordmap_delete_NoDup m k : NoDup m.*1 → NoDup (ordmap_delete m k).*1.
Proof.
  unfold ordmap_delete. induction m as [|[k' v'] m IH]; [done|].
  csimpl. rewrite NoDup_cons. intros [Hnin Hnd].
  rewrite filter_cons. case_decide; csimpl; [|by apply IH].
  apply NoDup_cons. split; [|by apply IH].
  intros Hin. apply Hnin.
  apply list_elem_of_fmap in Hin as [[k0 v0] [-> Hin]].
  apply list_elem_of_filter in Hin as [_ Hin].
  apply list_elem_of_fmap. by exists (k0, v0).
Qed.

Lemma ordmap_filter_NoDup (P : string * V → Prop) `{∀ x, Decision (P x)} m :
  NoDup m.*1 → NoDup (filter P m).*1.
Proof.
  induction m as [|[k' v'] m IH]; [done|].
  csimpl. rewrite NoDup_cons. intros [Hnin Hnd].
  rewrite filter_cons. case_decide; csimpl; [|by apply IH].
  apply NoDup_cons. split; [|by apply IH].
  intros Hin. apply Hnin.
  apply list_elem_of_fmap in Hin as [[k0 v0] [-> Hin]].
  apply list_elem_of_filter in Hin as [_ Hin].
  apply list_elem_of_fmap. by exists (k0, v0).
Qed.

Lemma ordmap_get_filter_Some (P : string * V → Prop) `{∀ x, Decision (P x)} m k v :
  NoDup m.*1 → ordmap_get (filter P m) k = Some v → ordmap_get m k = Some v ∧ P (k, v).
Proof.
  intros Hnd Hg. apply ordmap_get_Some_elem in Hg.
  apply list_elem_of_filter in Hg as [HP Hin]. split; [|done].
  by apply ordmap_get_elem.
Qed.

Lemma ordmap_get_filter_intro (P : string * V → Prop) `{∀ x, Decision (P x)} m k v :
  NoDup m.*1 → ordmap_get m k = Some v → P (k, v) → ordmap_get (filter P m) k = Some v.
Proof.
  intros Hnd Hg HP. apply ordmap_get_elem; [by apply ordmap_filter_NoDup|].
  apply list_elem_of_filter. split; [done|]. by apply ordmap_get_Some_elem.
Qed.

End OrdMapKeys.

Section Sorting.
Context {A : Type} (cmp : A → A → Z).

Lemma insertSorted_Permutation x l : insertSorted cmp x l ≡ₚ x :: l.
Proof.
  induction l as [|y l IH]; simpl; [done|].
  destruct (cmp x y <=? 0); [done|].
  rewrite IH. apply Permutation_swap.
Qed.

Lemma sortBy_Permutation l : sortBy cmp l ≡ₚ l.
Proof.
  induction l as [|x l IH]; simpl; [done|].
  unfold sortBy in *. simpl. rewrite insertSorted_Permutation. by rewrite IH.
Qed.

Hypothesis cmp_total : ∀ a b, 0 < cmp a b → cmp b a ≤ 0.
Hypothesis cmp_trans : ∀ a b c, cmp a b ≤ 0 → cmp b c ≤ 0 → cmp a c ≤ 0.

Lemma insertSorted_StronglySorted x l :
  StronglySorted (λ a b, cmp a b ≤ 0) l →
  StronglySorted (λ a b, cmp a b ≤ 0) (insertSorted cmp x l).
Proof.
  induction 1 as [|y l Hs IH Hall]; simpl.
  - repeat constructor.
  - destruct (Z.leb_spec (cmp x y) 0) as [Hle|Hgt].
    + constructor; [by constructor|].
      constructor; [done|].
      eapply Forall_impl; [exact Hall|]. intros z Hz. by eapply cmp_trans.
    + constructor; [done|].
      rewrite insertSorted_Permutation. constructor; [|done].
      by apply cmp_total.
Qed.

Lemma sortBy_StronglySorted l : StronglySorted (λ a b, cmp a b ≤ 0) (sortBy cmp l).
Proof.
  induction l as [|x l IH]; [constructor|].
  unfold sortBy in *. simpl. by apply insertSorted_StronglySorted.
Qed.


End Sorting.

Section Text.

Lemma digitChar_cases (P : Z → Prop) d :
  0 ≤ d < 10 →
  P 0 → P 1 → P 2 → P 3 → P 4 → P 5 → P 6 → P 7 → P 8 → P 9 → P d.
Proof.
  intros Hd. assert (d = 0 ∨ d = 1 ∨ d = 2 ∨ d = 3 ∨ d = 4 ∨ d = 5 ∨ d = 6 ∨ d = 7
                     ∨ d = 8 ∨ d = 9) as Hcases by lia.
  by destruct Hcases as [->|[->|[->|[->|[->|[->|[->|[->|[->| ->]]]]]]]]].
Qed.

Lemma digitValue_digitChar d : 0 ≤ d < 10 → digitValue (digitChar d) = Some d.
Proof. intros Hd. by apply (digitChar_cases (λ d, digitValue (digitChar d) = Some d) d). Qed.

Lemma string_app_cons x (a b : string) : String x a +:+ b = String x (a +:+ b).
Proof. reflexivity. Qed.

Lemma string_app_nil_l (b : string) : "" +:+ b = b.
Proof. reflexivity. Qed.

Lemma digitsOnly_app a b : digitsOnly (a +:+ b) = digitsOnly a && digitsOnly b.
Proof.
  induction a as [|c a IH]; [done|]. rewrite string_app_cons. simpl. rewrite IH.
  by destruct (digitValue c) as [d|]; [destruct (d <? 10)|].
Qed.

Lemma string_app_assoc (a b c : string) : (a +:+ b) +:+ c = a +:+ (b +:+ c).
Proof. induction a as [|x a IH]; [done|]. by rewrite !string_app_cons, IH. Qed.

Lemma string_app_length (a b : string) :
  String.length (a +:+ b) = (String.length a + String.length b)%nat.
Proof. induction a as [|x a IH]; [done|]. rewrite string_app_cons. simpl. by rewrite IH. Qed.

(** The decimal digits of [n], most significant first, put in front of
    [acc]: reading them back multiplies what was read before by a power of
    ten and adds [n]. *)
Lemma natDigits_spec fuel n acc :
  0 ≤ n < 10 ^ Z.of_nat (S fuel) →
  ∃ ds,
    natDigits (S fuel) 10 n acc = ds +:+ acc ∧
    ds ≠ "" ∧
    digitsOnly ds = true ∧
    (∀ a rest, readDigits 10 (ds +:+ rest) a
               = readDigits 10 rest
                   (Some (default 0 a * 10 ^ Z.of_nat (String.length ds) + n))).
Proof.
  revert n acc. induction fuel as [|fuel IH]; intros n acc Hn.
  all: cbn [natDigits].
  all: assert (0 ≤ n mod 10 < 10) as Hmod by (apply Z.mod_pos_bound; lia).
  all: assert (∀ a rest, readDigits 10 (String (digitChar (n mod 10)) rest) a
            = readDigits 10 rest (Some (default 0 a * 10 + n mod 10))) as Hone
         by (intros a rest; cbn [readDigits]; rewrite digitValue_digitChar by done;
             by rewrite (proj2 (Z.ltb_lt _ _)) by lia).
  all: assert (digitsOnly (String (digitChar (n mod 10)) "") = true) as Hdone
         by (simpl; rewrite digitValue_digitChar by done;
             by rewrite (proj2 (Z.ltb_lt _ _)) by lia).
  all: assert (n / 10 = 0 →
         ∃ ds, String (digitChar (n mod 10)) acc = ds +:+ acc ∧ ds ≠ "" ∧
               digitsOnly ds = true ∧
               ∀ a rest, readDigits 10 (ds +:+ rest) a
                 = readDigits 10 rest
                     (Some (default 0 a * 10 ^ Z.of_nat (String.length ds) + n))) as Hsingle.
  1,3: intros Hq; exists (String (digitChar (n mod 10)) "");
       assert (n mod 10 = n) as Hnn by (rewrite (Z.div_mod n 10) at 2; lia);
       (split_and!; [done|done|done|]);
       intros a rest; rewrite string_app_cons, string_app_nil_l, Hone; simpl;
       do 2 f_equal; lia.
  - destruct (Z.eqb_spec (n / 10) 0) as [Hq|Hq]; [by apply Hsingle|].
    exfalso. apply Hq. apply Z.div_small. simpl in Hn. lia.
  - destruct (Z.eqb_spec (n / 10) 0) as [Hq|Hq]; [by apply Hsingle|].
    assert (0 ≤ n / 10 < 10 ^ Z.of_nat (S fuel)) as Hdiv.
    { split; [apply Z.div_pos; lia|].
      apply Z.div_lt_upper_bound; [lia|].
      rewrite (Nat2Z.inj_succ (S fuel)), Z.pow_succ_r in Hn by lia. lia. }
    destruct (IH (n / 10) (String (digitChar (n mod 10)) acc) Hdiv)
      as (ds & Heq & Hne & Hdig & Hread).
    exists (ds +:+ String (digitChar (n mod 10)) "").
    split_and!.
    + cbn [natDigits] in Heq. rewrite Heq. by rewrite string_app_assoc.
    + by destruct ds.
    + by rewrite digitsOnly_app, Hdig, Hdone.
    + intros a rest. rewrite string_app_assoc, string_app_cons, string_app_nil_l.
      rewrite Hread, Hone. simpl. do 2 f_equal.
      rewrite string_app_length. simpl String.length.
      rewrite Nat2Z.inj_add, Z.pow_add_r by lia.
      rewrite (Z.div_mod n 10) at 3 by lia. change (Z.of_nat 1) with 1. lia.
Qed.

Lemma numberToString_spec n :
  0 ≤ n →
  numberToString n ≠ "" ∧ digitsOnly (numberToString n) = true ∧
  readDigits 10 (numberToString n) None = Some n.
Proof.
  intros Hn. unfold numberToString, toStringRadix.
  rewrite (proj2 (Z.ltb_ge _ _)) by done.
  destruct (natDigits_spec (Z.to_nat (Z.log2 n)) n "") as (ds & Heq & Hne & Hdig & Hread).
  { split; [done|]. rewrite Nat2Z.inj_succ, Z2Nat.id by apply Z.log2_nonneg.
    destruct (decide (n = 0)) as [Hz|Hnz].
    - subst n. by vm_compute.
    - eapply Z.lt_le_trans; [apply Z.log2_spec; lia|].
      apply Z.pow_le_mono_l. lia. }
  assert (ds +:+ "" = ds) as Hnil.
  { clear. induction ds as [|c ds IH]; [done|]. by rewrite string_app_cons, IH. }
  rewrite Heq, Hnil. split_and!; [done..|].
  rewrite <- Hnil at 1. rewrite Hread. simpl. by f_equal.
Qed.

Lemma includes_char_cons c x s :
  includes (String x s) (String c "") = bool_decide (c = x) || includes s (String c "").
Proof. simpl. by destruct (bool_decide (c = x)). Qed.

Lemma split_app sep a b :
  includes a (String sep "") = false →
  split sep (a +:+ String sep b) = a :: split sep b.
Proof.
  induction a as [|x a IH]; intros Hinc.
  - rewrite string_app_nil_l. simpl. by rewrite bool_decide_eq_true_2.
  - rewrite includes_char_cons in Hinc. apply orb_false_iff in Hinc as [Hx Ha].
    apply bool_decide_eq_false in Hx.
    rewrite string_app_cons. cbn [split]. rewrite bool_decide_eq_false_2 by congruence.
    by rewrite IH.
Qed.

Lemma digitsOnly_no_hyphen s : digitsOnly s = true → includes s "-" = false.
Proof.
  induction s as [|c s IH]; [done|]. cbn [digitsOnly]. intros [Hc Hs]%andb_true_iff.
  rewrite includes_char_cons, IH by done. rewrite orb_false_r.
  apply bool_decide_eq_false. intros <-. by vm_compute in Hc.
Qed.

Lemma trimStart_not_white c s :
  match digitValue c with Some d => d <? 10 | None => false end = true →
  trimStart (String c s) = String c s.
Proof.
  intros Hc.
  assert (48 ≤ charCode c ≤ 57) as Hr.
  { unfold digitValue in Hc.
    destruct ((48 <=? charCode c) && (charCode c <=? 57)) eqn:H1; [lia|].
    destruct ((97 <=? charCode c) && (charCode c <=? 122)) eqn:H2; [lia|].
    destruct ((65 <=? charCode c) && (charCode c <=? 90)) eqn:H3; [lia|done]. }
  unfold trimStart. cbn [stripWhiteSpace].
  assert (whiteSpaceBytes false (String c s) = 0%nat) as ->; [|done].
  unfold whiteSpaceBytes, isWhiteSpace, isWhiteSpace2, isWhiteSpace3.
  replace (((9 <=? charCode c) && (charCode c <=? 13)) || (charCode c =? 32)) with false by lia.
  destruct s as [|b [|c' s]]; try done.
  - by replace (charCode c =? 194) with false by lia.
  - replace (charCode c =? 194) with false by lia.
    replace (charCode c =? 225) with false by lia.
    replace (charCode c =? 226) with false by lia.
    replace (charCode c =? 227) with false by lia.
    by replace (charCode c =? 239) with false by lia.
Qed.

Lemma parseInt_digits s n :
  s ≠ "" → digitsOnly s = true → readDigits 10 s None = Some n → parseInt s = Some n.
Proof.
  intros Hne Hdig Hread. unfold parseInt.
  destruct s as [|c s]; [done|]. cbn [digitsOnly] in Hdig.
  apply andb_true_iff in Hdig as [Hc Hs].
  assert (isWhiteSpace c = false ∧ c ≠ "-"%char ∧ c ≠ "+"%char) as (Hw & Hm & Hp).
  { split_and!.
    - destruct (isWhiteSpace c) eqn:Hw; [|done]. exfalso.
      unfold isWhiteSpace, digitValue in *. 
      destruct ((48 <=? charCode c) && (charCode c <=? 57)) eqn:H1; [lia|].
      destruct ((97 <=? charCode c) && (charCode c <=? 122)) eqn:H2; [lia|].
      destruct ((65 <=? charCode c) && (charCode c <=? 90)) eqn:H3; [lia|done].
    - intros ->. by vm_compute in Hc.
    - intros ->. by vm_compute in Hc. }
  rewrite (trimStart_not_white c s) by done.
  rewrite !bool_decide_eq_false_2 by done.
  assert (startsWith "0x" (String c s) || startsWith "0X" (String c s) = false) as ->.
  { destruct s as [|c' s]; simpl.
    - by destruct (bool_decide ("0"%char = c)).
    - cbn [digitsOnly] in Hs. apply andb_true_iff in Hs as [Hc' _].
      assert (c' ≠ "x"%char ∧ c' ≠ "X"%char) as [Hx HX].
      { split; intros ->; by vm_compute in Hc'. }
      rewrite !(bool_decide_eq_false_2 (_ = c')) by congruence.
      by destruct (bool_decide ("0"%char = c)). }
  by rewrite Hread.
Qed.

End Text.

(** *** Plain objects *)

Lemma obj_own_assign_ne o k' v k :
  k' ≠ k → ordmap_get (obj_own (assign o k' v)) k = ordmap_get (obj_own o) k.
Proof.
  intros Hne. unfold assign. destruct (_ && _).
  - by destruct v.
  - simpl. by apply ordmap_get_set_ne.
Qed.

Lemma obj_own_assign_eq o k v :
  k ≠ "__proto__" → ordmap_get (obj_own (assign o k v)) k = Some v.
Proof.
  intros Hne. unfold assign. rewrite bool_decide_eq_false_2 by done. simpl.
  apply ordmap_get_set_eq.
Qed.

Lemma obj_own_assign o k' v k :
  k ≠ "__proto__" →
  ordmap_get (obj_own (assign o k' v)) k
  = if decide (k' = k) then Some v else ordmap_get (obj_own o) k.
Proof.
  intros Hne. case_decide as Hk.
  - subst k'. by apply obj_own_assign_eq.
  - by apply obj_own_assign_ne.
Qed.

(** Filling an object from a map without repeated keys. *)
Lemma obj_own_foldl_assign {A} (f : A → Value) (l : ordmap A) (o : PlainObject) k :
  k ≠ "__proto__" →
  NoDup l.*1 →
  ordmap_get (obj_own (foldl (λ acc kv, assign acc kv.1 (f kv.2)) o l)) k =
    match ordmap_get l k with
    | Some v => Some (f v)
    | None => ordmap_get (obj_own o) k
    end.
Proof.
  intros Hk. revert o. induction l as [|[k0 v0] l IH]; intros o; csimpl; [done|].
  rewrite NoDup_cons. intros [Hnin Hnd]. rewrite IH by done.
  case_bool_decide as Hk0.
  - subst k0. apply ordmap_get_None in Hnin. rewrite Hnin.
    by apply obj_own_assign_eq.
  - destruct (ordmap_get l k); [done|]. by apply obj_own_assign_ne.
Qed.

(** A replacement text without a dollar sign stands for itself. *)
Lemma expandReplacement_plain matched before after rep :
  includes rep "$" = false → expandReplacement matched before after rep = rep.
Proof.
  induction rep as [|a r IH]; [done|]. rewrite includes_char_cons.
  intros [Ha Hr]%orb_false_iff. apply bool_decide_eq_false in Ha.
  cbn [expandReplacement]. rewrite bool_decide_eq_false_2 by done. by rewrite IH.
Qed.

End JSFacts.

(** ** The warehouse invariant *)

Module WarehouseFacts.
Import JS JSFacts DataWarehouse.

Section Invariant.
Variable JSON_stringify : Value → option string.

Abbreviation storeComponentData := (DataWarehouse.storeComponentData JSON_stringify).
Abbreviation getComponentData := (DataWarehouse.getComponentData JSON_stringify).
Abbreviation generateDataVersion := (DataWarehouse.generateDataVersion JSON_stringify).

Lemma generateDataVersion_nonempty id now rnd d : generateDataVersion id now rnd d ≠ "".
Proof. unfold DataWarehouse.generateDataVersion. by destruct id. Qed.

Lemma store_rejected_below_latest r id sourceId d sourceType customExpiry st latestVersion :
  componentLatestVersions st !! id = Some latestVersion →
  latestVersion ≠ "" →
  extractTimestampFromVersion
    (generateDataVersion id (versionNow r) (randomHash r) d)
    < extractTimestampFromVersion latestVersion →
  storeComponentData r id sourceId d sourceType customExpiry st = st.
Proof.
  intros Hlv Hne Hlt. unfold DataWarehouse.storeComponentData, shouldAcceptData.
  rewrite Hlv, bool_decide_eq_false_2 by done.
  by rewrite (proj2 (Z.leb_gt _ _)) by lia.
Qed.

(** For a component id without a hyphen and a clock value that is not
    negative, the timestamp read back from a version token is the clock
    value the token was made with. *)
Lemma extractTimestamp_generateDataVersion id now rnd d :
  includes id "-" = false → 0 ≤ now →
  extractTimestampFromVersion (generateDataVersion id now rnd d) = now.
Proof.
  intros Hid Hnow. unfold extractTimestampFromVersion, DataWarehouse.generateDataVersion.
  destruct (numberToString_spec now Hnow) as (Hne & Hdig & Hread).
  rewrite !(string_app_cons "-" ""), !string_app_nil_l.
  rewrite split_app by done.
  rewrite split_app by by apply digitsOnly_no_hyphen.
  rewrite bool_decide_eq_true_2.
  - simpl. by rewrite (parseInt_digits _ now).
  - simpl. destruct (split "-" (DataWarehouse.calculateDataHash JSON_stringify rnd d)); simpl; lia.
Qed.

Lemma Inv_new cfg : Inv (newWarehouse cfg).
Proof. split; simpl; [constructor | done]. Qed.

(** The invariant looks at the component storage and the recorded versions
    only. *)
Lemma Inv_ext st st' :
  componentStorage st' = componentStorage st →
  componentLatestVersions st' = componentLatestVersions st →
  Inv st → Inv st'.
Proof.
  intros Hc Hl [Hnd Hs]. split; rewrite ?Hc, ?Hl; [done|].
  intros id storage. apply Hs.
Qed.

Lemma Inv_set st id storage' cs ns :
  Inv st →
  StorageInv (componentLatestVersions st !! id) storage' →
  cs = ordmap_set (componentStorage st) id storage' →
  Inv {| componentStorage := cs; componentChangeNotifiers := ns;
         componentLatestVersions := componentLatestVersions st; config := config st |}.
Proof.
  intros [Hnd Hs] Hnew ->. split; simpl.
  - by apply ordmap_set_NoDup.
  - intros id' s. rewrite ordmap_get_set. case_decide as Hid.
    + intros [= <-]. by subst.
    + apply Hs.
Qed.

Local Ltac inv_set st id :=
  unfold setStorage, withStorage; simpl;
  eapply (Inv_set st id); [eassumption | | reflexivity].

(** A storage whose sources are among the old ones (same data and version)
    and whose merged view, if any, carries the old merged data. *)
Lemma StorageInv_shrink latest storage storage' :
  StorageInv latest storage →
  NoDup (dataSources storage').*1 →
  (∀ sid item', ordmap_get (dataSources storage') sid = Some item' →
     ∃ item, ordmap_get (dataSources storage) sid = Some item ∧
             data item = data item' ∧ dataVersion item = dataVersion item') →
  (∀ m', mergedData storage' = Some m' →
     ∃ m, mergedData storage = Some m ∧ data m = data m') →
  StorageInv latest storage'.
Proof.
  intros [Hk Hv Ht Hc] Hk' Hsrc Hm. split; [done| | |].
  - intros sid item' v Hg Hdv.
    destruct (Hsrc _ _ Hg) as (item & Hg0 & _ & Hdv0).
    apply (Hv sid item v Hg0). congruence.
  - intros m' Hm'. destruct (Hm _ Hm') as (m & Hm0 & <-). by apply Ht.
  - intros m' item' Hm' Hg Htr.
    destruct (Hm _ Hm') as (m & Hm0 & Hdm).
    destruct (Hsrc _ _ Hg) as (item & Hg0 & Hdi & _).
    rewrite <- Hdm, <- Hdi in *. by apply (Hc m item).
Qed.


Lemma shouldAcceptData_latest st id dv latestVersion :
  componentLatestVersions st !! id = Some latestVersion → latestVersion ≠ "" →
  shouldAcceptData st id dv = true →
  extractTimestampFromVersion latestVersion ≤ extractTimestampFromVersion dv.
Proof.
  unfold shouldAcceptData. intros -> Hne.
  rewrite bool_decide_eq_false_2 by done. intros H. by apply Z.leb_le.
Qed.

Lemma Inv_store r id sid d ty ce st :
  Inv st → Inv (storeComponentData r id sid d ty ce st).
Proof.
  intros HI. unfold DataWarehouse.storeComponentData.
  destruct (shouldAcceptData st id _) eqn:Hacc; simpl; [|done].
  destruct (shouldRejectStorage st _); [done|].
  destruct HI as [Hnd Hs]. split; simpl.
  - by apply ordmap_set_NoDup.
  - intros id' s. rewrite ordmap_get_set. case_decide as Hid.
    + subst id'. intros [= <-]. rewrite lookup_insert_eq.
      assert (StorageInv (componentLatestVersions st !! id)
                (default (newStorage id (dateNow r))
                   (ordmap_get (componentStorage st) id))) as [Hk Hv _ _].
      { destruct (ordmap_get (componentStorage st) id) eqn:Hg; simpl.
        - by apply Hs.
        - split; simpl; [constructor | done..]. }
      split; simpl; [by apply ordmap_set_NoDup| |done..].
      intros sid' item v. rewrite ordmap_get_set. case_decide as Hsid.
      * intros [= <-]. simpl. intros [= <-]. eexists. split_and!; [done| |done].
        apply generateDataVersion_nonempty.
      * intros Hg Hdv. destruct (Hv _ _ _ Hg Hdv) as (lv & Hlv & Hne & Hle).
        eexists. split_and!; [done|apply generateDataVersion_nonempty|].
        etrans; [exact Hle|]. by eapply shouldAcceptData_latest.
    + rewrite lookup_insert_ne by done. apply Hs.
Qed.


Lemma collectSources_spec now srcs cd :
  collectSources now srcs cd =
    (foldl (λ acc kv, assign acc kv.1 (data kv.2)) cd
       (filter (λ kv, isExpired now kv.2 = false) srcs),
     prod_map id (touch now) <$> filter (λ kv, isExpired now kv.2 = false) srcs).
Proof.
  revert cd. induction srcs as [|[sid item] srcs IH]; intros cd; [done|].
  simpl. destruct (isExpired now item) eqn:He; simpl.
  - rewrite filter_cons_False by (simpl; congruence). apply IH.
  - rewrite filter_cons_True by done. rewrite IH. done.
Qed.

Lemma ordmap_get_fmap {A B} (g : A → B) (l : ordmap A) k :
  ordmap_get (prod_map id g <$> l) k = g <$> ordmap_get l k.
Proof.
  induction l as [|[k0 v0] l IH]; csimpl; [done|].
  by case_bool_decide.
Qed.

Lemma fmap_prod_map_keys {A B} (g : A → B) (l : ordmap A) :
  (prod_map id g <$> l).*1 = l.*1.
Proof. induction l as [|[k0 v0] l IH]; csimpl; [done|]. by rewrite IH. Qed.

Lemma unwrapComplete_truthy cd : truthy (unwrapComplete cd) = true.
Proof.
  unfold unwrapComplete.
  destruct (inObject cd "complete"); simpl; [|done].
  destruct (truthy (readObject cd "complete")) eqn:Ht; simpl; [|done].
  destruct (truthy (getProp _ "deviceData")); simpl; [|done].
  by destruct (truthy (getProp (getProp _ "deviceData") "data")) eqn:Ht'.
Qed.

Lemma unwrapComplete_complete cd v :
  ordmap_get (obj_own cd) "complete" = Some v → truthy v = true →
  unwrapComplete cd = unwrapValue v.
Proof.
  intros Hg Ht. unfold unwrapComplete, unwrapValue, inObject, readObject, ordmap_has.
  by rewrite Hg; simpl; rewrite Ht.
Qed.

Lemma StorageInv_rebuild cfg latest storage now id :
  StorageInv latest storage →
  StorageInv latest
    (withSources storage (collectSources now (dataSources storage) emptyObject).2
       (Some (mergedItem JSON_stringify cfg now id
                (unwrapComplete (collectSources now (dataSources storage) emptyObject).1)))).
Proof.
  intros HS. pose proof HS as [Hk Hv Ht Hc].
  rewrite collectSources_spec. simpl.
  set (live := filter (λ kv, isExpired now kv.2 = false) (dataSources storage)).
  assert (NoDup live.*1) as Hkl by by apply ordmap_filter_NoDup.
  split; simpl.
  - by rewrite fmap_prod_map_keys.
  - intros sid item v. rewrite ordmap_get_fmap.
    destruct (ordmap_get live sid) as [item0|] eqn:Hg; simpl; [|done].
    intros [= <-]. simpl.
    apply ordmap_get_filter_Some in Hg as [Hg _]; [|done].
    by apply (Hv sid item0 v).
  - intros m [= <-]. simpl. apply unwrapComplete_truthy.
  - intros m item [= <-]. rewrite ordmap_get_fmap.
    destruct (ordmap_get live "complete") as [item0|] eqn:Hg; simpl; [|done].
    intros [= <-]. simpl. intros Htr.
    apply unwrapComplete_complete; [|done].
    rewrite obj_own_foldl_assign by done. by rewrite Hg.
Qed.

Lemma Inv_getComponentData now id st :
  Inv st → Inv (getComponentData now id st).2.
Proof.
  intros HI. unfold DataWarehouse.getComponentData. simpl.
  destruct (ordmap_get (componentStorage st) id) as [storage|] eqn:Hg.
  2: { simpl. by apply (Inv_ext st). }
  pose proof (inv_storage _ HI _ _ Hg) as HS.
  assert (∀ storage', StorageInv (componentLatestVersions st !! id) storage' →
     Inv (setStorage (withNotifiers st (ensureNotifier (componentChangeNotifiers st) id))
            id storage')) as Hset.
  { intros storage' HS'. unfold setStorage, withStorage, withNotifiers. simpl.
    by apply (Inv_set st id storage'). }
  destruct (match mergedData storage with
            | Some m => if negb (isExpired now m) then Some m else None
            | None => None
            end) as [m|] eqn:Hcached; simpl.
  - apply Hset. eapply StorageInv_shrink; [exact HS|apply HS| |]; simpl.
    + intros sid item' ?. by exists item'.
    + intros m' [= <-]. exists m. split; [|done].
      destruct (mergedData storage) as [m0|]; [|done].
      by destruct (negb (isExpired now m0)); simplify_eq.
  - pose proof (StorageInv_rebuild (config st) _ _ now id HS) as HR.
    destruct (collectSources now (dataSources storage) emptyObject) as [cd kept] eqn:Hcs.
    simpl in HR. case_bool_decide as Hkept; simpl.
    + apply Hset. subst kept. eapply StorageInv_shrink; [exact HS| | |]; simpl.
      * constructor.
      * done.
      * intros m' ?. by exists m'.
    + by apply Hset.
Qed.


Lemma StorageInv_delete latest storage sid merged :
  StorageInv latest storage →
  (∀ m', merged = Some m' → ∃ m, mergedData storage = Some m ∧ data m = data m') →
  StorageInv latest (withSources storage (ordmap_delete (dataSources storage) sid) merged).
Proof.
  intros HS Hm. eapply StorageInv_shrink; [exact HS| | |exact Hm]; simpl.
  - apply ordmap_delete_NoDup, HS.
  - intros sid' item'. rewrite ordmap_get_delete. case_decide; [done|].
    intros ?. by exists item'.
Qed.

Lemma Inv_getDataSourceData now id sid st :
  Inv st → Inv (getDataSourceData now id sid st).2.
Proof.
  intros HI. unfold getDataSourceData.
  destruct (ordmap_get (componentStorage st) id) as [storage|] eqn:Hg; [|done].
  pose proof (inv_storage _ HI _ _ Hg) as HS.
  destruct (ordmap_get (dataSources storage) sid) as [item|] eqn:Hi; [|done].
  destruct (isExpired now item); simpl.
  - inv_set st id.
    apply StorageInv_delete; [done|]. intros m' ?. by exists m'.
  - inv_set st id.
    eapply StorageInv_shrink; [exact HS| | |]; simpl.
    + apply ordmap_set_NoDup, HS.
    + intros sid' item'. rewrite ordmap_get_set. case_decide as Hs.
      * subst sid'. intros [= <-]. by exists item.
      * intros ?. by exists item'.
    + intros m' ?. by exists m'.
Qed.

Lemma Inv_clearComponentCache id st : Inv st → Inv (clearComponentCache id st).
Proof.
  intros HI. unfold clearComponentCache.
  destruct (ordmap_get (componentStorage st) id); [|done].
  destruct HI as [Hnd Hs]. split; simpl.
  - by apply ordmap_delete_NoDup.
  - intros id' s. rewrite ordmap_get_delete. case_decide; [done|]. apply Hs.
Qed.

Lemma Inv_clearComponentMergedCache id st : Inv st → Inv (clearComponentMergedCache id st).
Proof.
  intros HI. unfold clearComponentMergedCache.
  destruct (ordmap_get (componentStorage st) id) as [storage|] eqn:Hg; [|done].
  inv_set st id.
  eapply StorageInv_shrink; [exact (inv_storage _ HI _ _ Hg)| | |]; simpl.
  - apply (inv_storage _ HI _ _ Hg).
  - intros sid item' ?. by exists item'.
  - done.
Qed.

Lemma Inv_clearDataSourceCache id sid st : Inv st → Inv (clearDataSourceCache id sid st).
Proof.
  intros HI. unfold clearDataSourceCache.
  destruct (ordmap_get (componentStorage st) id) as [storage|] eqn:Hg; [|done].
  destruct (ordmap_has (dataSources storage) sid); [|done].
  inv_set st id.
  apply StorageInv_delete; [exact (inv_storage _ HI _ _ Hg)|done].
Qed.

Lemma Inv_clearAllCache st : Inv st → Inv (clearAllCache st).
Proof. intros _. split; simpl; [constructor|done]. Qed.

Lemma Inv_setCacheExpiry ms st : Inv st → Inv (setCacheExpiry ms st).
Proof. by apply Inv_ext. Qed.

Lemma StorageInv_sweep latest now storage storage' :
  StorageInv latest storage → sweepStorage now storage = Some storage' →
  StorageInv latest storage'.
Proof.
  intros HS. unfold sweepStorage.
  destruct (_ && _); [done|]. intros [= <-].
  eapply StorageInv_shrink; [exact HS| | |]; simpl.
  - apply ordmap_filter_NoDup, HS.
  - intros sid item' Hg. exists item'.
    apply ordmap_get_filter_Some in Hg as [Hg _]; [done|apply HS].
  - intros m' Hm. exists m'. split; [|done].
    destruct (mergedData storage) as [m|]; [|done].
    by destruct (isExpired now m); simplify_eq.
Qed.

Lemma sweepExpired_elem now cs id storage' :
  (id, storage') ∈ sweepExpired now cs →
  ∃ storage, (id, storage) ∈ cs ∧ sweepStorage now storage = Some storage'.
Proof.
  induction cs as [|[id0 s0] cs IH]; simpl.
  - intros H. by apply elem_of_nil in H.
  - destruct (sweepStorage now s0) as [s0'|] eqn:Hs0.
    + intros [[= -> ->]|Hin]%elem_of_cons.
      * exists s0. split; [left|done].
      * destruct (IH Hin) as (s & ? & ?). exists s. split; [by right|done].
    + intros Hin. destruct (IH Hin) as (s & ? & ?). exists s. split; [by right|done].
Qed.

Lemma sweepExpired_keys now cs : (sweepExpired now cs).*1 `sublist_of` cs.*1.
Proof.
  induction cs as [|[id0 s0] cs IH]; csimpl; [done|].
  destruct (sweepStorage now s0); csimpl.
  - by apply sublist_skip.
  - by apply sublist_cons.
Qed.

Lemma Inv_sweep now st :
  Inv st → Inv (withStorage st (sweepExpired now (componentStorage st))).
Proof.
  intros [Hnd Hs]. split; simpl.
  - eapply sublist_NoDup; [exact Hnd|apply sweepExpired_keys].
  - intros id s' Hg. apply ordmap_get_Some_elem in Hg.
    apply sweepExpired_elem in Hg as (s & Hin & Hsw).
    eapply StorageInv_sweep; [|exact Hsw].
    apply Hs. by apply ordmap_get_elem.
Qed.

Lemma Inv_evict items st : Inv st → Inv (evict items st).
Proof.
  unfold evict. revert st. induction items as [|a items IH]; intros st HI; [done|].
  simpl. apply IH. by apply Inv_clearDataSourceCache.
Qed.

Lemma Inv_performCleanup now st : Inv st → Inv (performCleanup now st).
Proof.
  intros HI. unfold performCleanup.
  destruct (memoryPressure _).
  - by apply Inv_evict, Inv_sweep.
  - by apply Inv_sweep.
Qed.

Lemma Inv_apply op st : Inv st → Inv (apply JSON_stringify op st).
Proof.
  destruct op; simpl.
  - apply Inv_store.
  - apply Inv_getComponentData.
  - apply Inv_getDataSourceData.
  - apply Inv_clearComponentCache.
  - apply Inv_clearComponentMergedCache.
  - apply Inv_clearDataSourceCache.
  - apply Inv_clearAllCache.
  - apply Inv_setCacheExpiry.
  - apply Inv_performCleanup.
Qed.

Lemma Inv_run ops st : Inv st → Inv (run JSON_stringify ops st).
Proof.
  unfold run. revert st. induction ops as [|op ops IH]; intros st HI; [done|].
  simpl. by apply IH, Inv_apply.
Qed.

(** Every state the operations reach from a fresh warehouse satisfies the
    invariant. *)
Lemma reachable_Inv st : reachable JSON_stringify st → Inv st.
Proof. intros (cfg & ops & ->). apply Inv_run, Inv_new. Qed.

End Invariant.

End WarehouseFacts.

(** ** DataWarehouse: the claims *)

Module WarehouseClaims.
Import JS JSFacts DataWarehouse WarehouseFacts Samples.

Section Claims.
Variable JSON_stringify : Value → option string.

Abbreviation storeComponentData := (DataWarehouse.storeComponentData JSON_stringify).
Abbreviation getComponentData := (DataWarehouse.getComponentData JSON_stringify).
Abbreviation generateDataVersion := (DataWarehouse.generateDataVersion JSON_stringify).
Abbreviation storeAccepted := (DataWarehouse.storeAccepted JSON_stringify).

(** A write is dropped when the entry stored under its key carries a
    version that the warehouse reads as later than the new token. *)
Lemma store_dropped_below_entry st r id sourceId d sourceType customExpiry item version :
  Inv st →
  entryAt st id sourceId = Some item →
  dataVersion item = Some version →
  extractTimestampFromVersion
    (generateDataVersion id (versionNow r) (randomHash r) d)
    < extractTimestampFromVersion version →
  storeComponentData r id sourceId d sourceType customExpiry st = st.
Proof.
  intros HI Hentry Hdv Hlt. unfold entryAt in Hentry.
  destruct (ordmap_get (componentStorage st) id) as [storage|] eqn:Hg; [|done].
  simpl in Hentry.
  destruct (inv_versions _ _ (inv_storage _ HI _ _ Hg) _ _ _ Hentry Hdv)
    as (lv & Hlv & Hne & Hle).
  apply (store_rejected_below_latest JSON_stringify _ _ _ _ _ _ _ lv); [done..|lia].
Qed.

(** C1, as the code has it: for a component id without a hyphen, a write
    is dropped when the entry already stored for the same (componentId,
    sourceId) key carries a version made at a clock value strictly greater
    than the clock value of the newly computed version token. The
    warehouse is then exactly as it was: the stored data, the recorded
    latest version, the merged view and the notifier are untouched, and the
    call returns normally. *)
Theorem stale_write_dropped st r id sourceId d sourceType customExpiry item t rnd d0 :
  Inv st →
  includes id "-" = false →
  entryAt st id sourceId = Some item →
  dataVersion item = Some (generateDataVersion id t rnd d0) →
  0 ≤ versionNow r < t →
  storeComponentData r id sourceId d sourceType customExpiry st = st.
Proof.
  intros HI Hid Hentry Hdv Hlt.
  apply (store_dropped_below_entry st r id sourceId d sourceType customExpiry item
           (generateDataVersion id t rnd d0)); [done..|].
  rewrite (extractTimestamp_generateDataVersion JSON_stringify id t rnd d0 Hid) by lia.
  rewrite (extractTimestamp_generateDataVersion JSON_stringify id _ _ _ Hid) by lia. lia.
Qed.

(** C2, as the code has it: the version check is scoped per component.
    Whether a store to a component is accepted is a function of the latest
    version recorded for that component alone, whichever of its sources
    wrote it; a store to another component never changes the answer. *)
Theorem version_check_scoped_per_component st st' r id' sourceId' d sourceType customExpiry
    id dataVersion :
  (componentLatestVersions st !! id = componentLatestVersions st' !! id →
   shouldAcceptData st id dataVersion = shouldAcceptData st' id dataVersion) ∧
  (id' ≠ id →
   shouldAcceptData (storeComponentData r id' sourceId' d sourceType customExpiry st)
     id dataVersion
   = shouldAcceptData st id dataVersion).
Proof.
  assert (∀ s s', componentLatestVersions s !! id = componentLatestVersions s' !! id →
            shouldAcceptData s id dataVersion = shouldAcceptData s' id dataVersion) as Hdep.
  { intros s s' H. unfold shouldAcceptData. by rewrite H. }
  split; [apply Hdep|]. intros Hne. apply Hdep.
  unfold DataWarehouse.storeComponentData.
  destruct (negb _); [done|]. destruct (shouldRejectStorage _ _); [done|].
  simpl. by rewrite lookup_insert_ne.
Qed.

(** C8: an accepted write for component A leaves component B alone. B's
    storage object (its source entries and its cached merged view), B's
    change notifier and B's recorded version are what they were, and the
    notifier of A goes up by one (from 0 when A had none). *)
Theorem store_leaves_other_components A B r sourceId d sourceType customExpiry st :
  A ≠ B →
  storeAccepted r A d st = true →
  let st' := storeComponentData r A sourceId d sourceType customExpiry st in
  ordmap_get (componentStorage st') B = ordmap_get (componentStorage st) B ∧
  componentChangeNotifiers st' !! B = componentChangeNotifiers st !! B ∧
  componentLatestVersions st' !! B = componentLatestVersions st !! B ∧
  componentChangeNotifiers st' !! A
    = Some (default 0 (componentChangeNotifiers st !! A) + 1).
Proof.
  intros Hne Hacc. unfold DataWarehouse.storeAccepted in Hacc.
  apply andb_true_iff in Hacc as [Hv Hm]. apply negb_true_iff in Hm.
  unfold DataWarehouse.storeComponentData. rewrite Hv, Hm. simpl.
  unfold bumpNotifier.
  rewrite ordmap_get_set_ne, !lookup_insert_ne, lookup_insert_eq by done.
  done.
Qed.

End Claims.

(** A write stamped 50 after a write stamped 100 to the same key. *)
Lemma stale_write_dropped_witness :
  let st := DataWarehouse.storeComponentData stringify (readsAt 100) "w1" "s1" (VNum 1) "static" None
              (newWarehouse defaultConfig) in
  storeComponentData stringify (readsAt 50) "w1" "s1" (VNum 2) "static" None st = st.
Proof.
  intros st.
  eapply (stale_write_dropped stringify st (readsAt 50) "w1" "s1" (VNum 2) "static" None
            _ 100 (randomHash (readsAt 100)) (VNum 1)).
  - apply reachable_Inv with (JSON_stringify := stringify).
    exists defaultConfig, [OpStore (readsAt 100) "w1" "s1" (VNum 1) "static" None].
    reflexivity.
  - vm_compute. reflexivity.
  - vm_compute. reflexivity.
  - reflexivity.
  - simpl. lia.
Defined.

(** With a hyphen in the component id the second field of the version is
    a piece of the id, every token reads as the same timestamp, and a write
    stamped 50 overwrites one stamped 100. *)
Example hyphenated_id_accepts_stale :
  let st := storeComponentData stringify (readsAt 100) "w-1" "s1" (VNum 1) "static" None
              (newWarehouse defaultConfig) in
  extractTimestampFromVersion (generateDataVersion stringify "w-1" 100 "" (VNum 1)) = 1 ∧
  extractTimestampFromVersion (generateDataVersion stringify "w-1" 50 "" (VNum 2)) = 1 ∧
  data <$> entryAt (storeComponentData stringify (readsAt 50) "w-1" "s1" (VNum 2)
                      "static" None st) "w-1" "s1"
  = Some (VNum 2).
Proof. vm_compute. repeat split; reflexivity. Qed.

(** C1 fails as stated, at equal versions: a second write of the same data
    in the same millisecond computes the very token that is stored, and is
    accepted: the merged view is dropped and the notifier goes up; with
    other data in the same millisecond the stored data is overwritten. *)
Lemma equal_version_counterexample :
  let token d := generateDataVersion stringify "w1" 100 "p0o9i8u7y" d in
  let same := storeComponentData stringify (readsAt 100) "w1" "s1" (VNum 1) "static" None stored1 in
  let other := storeComponentData stringify (readsAt 100) "w1" "s1" (VNum 2) "static" None stored1 in
  (dataVersion <$> entryAt stored1 "w1" "s1") = Some (Some (token (VNum 1))) ∧
  extractTimestampFromVersion (token (VNum 1)) = 100 ∧
  extractTimestampFromVersion (token (VNum 2)) = 100 ∧
  (data <$> mergedAt stored1 "w1") = Some (VObj [("s1", VNum 1)]) ∧
  mergedAt same "w1" = None ∧
  componentChangeNotifiers stored1 !! "w1" = Some 1 ∧
  componentChangeNotifiers same !! "w1" = Some 2 ∧
  (data <$> entryAt stored1 "w1" "s1") = Some (VNum 1) ∧
  (data <$> entryAt other "w1" "s1") = Some (VNum 2).
Proof. vm_compute. repeat split; reflexivity. Qed.

(** C2 fails as stated: nothing was ever stored for (w1, s2), and a store
    to it stamped 50 would be accepted by a fresh warehouse, but after a
    store to (w1, s1) stamped 100 it is rejected. *)
Lemma per_source_counterexample :
  let st0 := newWarehouse defaultConfig in
  let st1 := storeComponentData stringify (readsAt 100) "w1" "s1" (VNum 1) "static" None st0 in
  entryAt st1 "w1" "s2" = None ∧
  storeAccepted stringify (readsAt 100) "w1" (VNum 1) st0 = true ∧
  storeAccepted stringify (readsAt 50) "w1" (VNum 2) st0 = true ∧
  storeAccepted stringify (readsAt 50) "w1" (VNum 2) st1 = false ∧
  storeComponentData stringify (readsAt 50) "w1" "s2" (VNum 2) "static" None st1 = st1.
Proof. vm_compute. repeat split; reflexivity. Qed.










Section Complete.
Variable JSON_stringify : Value → option string.
Abbreviation getComponentData := (DataWarehouse.getComponentData JSON_stringify).

(** C10, as the code has it: when a component holds a live [complete]
    source whose data is truthy, [getComponentData] returns, and caches as
    the merged view, the data's [deviceData.data] when [deviceData] and
    [deviceData.data] are both truthy, and the data of the [complete] source
    itself otherwise; what other sources hold does not appear. *)
Theorem complete_source_unwrapped now id st storage item :
  Inv st →
  ordmap_get (componentStorage st) id = Some storage →
  ordmap_get (dataSources storage) "complete" = Some item →
  isExpired now item = false →
  truthy (data item) = true →
  (getComponentData now id st).1 = unwrapValue (data item) ∧
  data <$> mergedAt (getComponentData now id st).2 id = Some (unwrapValue (data item)).
Proof.
  intros HI Hg Hc He Ht. pose proof (inv_storage _ HI _ _ Hg) as HS.
  unfold DataWarehouse.getComponentData, mergedAt. simpl. rewrite Hg.
  destruct (match mergedData storage with
            | Some m => if negb (isExpired now m) then Some m else None
            | None => None
            end) as [m|] eqn:Hcached; simpl.
  - rewrite ordmap_get_set_eq. simpl.
    assert (mergedData storage = Some m) as Hm.
    { destruct (mergedData storage) as [m0|]; [|done].
      by destruct (negb (isExpired now m0)); simplify_eq. }
    by rewrite (inv_merged_complete _ _ HS m item).
  - rewrite collectSources_spec.
    set (live := filter (λ kv, isExpired now kv.2 = false) (dataSources storage)).
    assert (ordmap_get live "complete" = Some item) as Hlive.
    { apply ordmap_get_filter_intro; [apply HS|done..]. }
    rewrite bool_decide_eq_false_2; simpl.
    2: { intros Hnil. apply fmap_nil_inv in Hnil. by rewrite Hnil in Hlive. }
    rewrite ordmap_get_set_eq. simpl.
    rewrite (unwrapComplete_complete _ (data item)); [done| |done].
    rewrite obj_own_foldl_assign; [|done|apply ordmap_filter_NoDup, HS].
    by rewrite Hlive.
Qed.

End Complete.

(** C10 fails as stated: with falsy data under [complete] the map by
    source id is returned, and a falsy [deviceData.data] is not unwrapped. *)
Lemma complete_counterexample :
  (DataWarehouse.getComponentData stringify 200 "w1" (twoSources (VNum 0))).1
    = VObj [("complete", VNum 0); ("s1", VNum 7)] ∧
  (DataWarehouse.getComponentData stringify 200 "w1"
     (twoSources (VObj [("deviceData", VObj [("data", VNum 0)])]))).1
    = VObj [("deviceData", VObj [("data", VNum 0)])].
Proof. split; vm_compute; reflexivity. Qed.

(** A [complete] source that wraps a telemetry object. *)
Lemma complete_source_unwrapped_witness :
  let d := VObj [("deviceData", VObj [("data", VObj [("temp", VNum 22)])])] in
  (DataWarehouse.getComponentData stringify 200 "w1" (twoSources d)).1
    = VObj [("temp", VNum 22)].
Proof.
  intros d.
  destruct (complete_source_unwrapped stringify 200 "w1" (twoSources d)
     (default (newStorage "w1" 0) (ordmap_get (componentStorage (twoSources d)) "w1"))
     (default (payloadItem "" "" 0 0 0) (entryAt (twoSources d) "w1" "complete")))
    as [H _].
  - apply reachable_Inv with (JSON_stringify := stringify).
    exists defaultConfig,
      [OpStore (readsAt 100) "w1" "complete" d "static" None;
       OpStore (readsAt 100) "w1" "s1" (VNum 7) "static" None].
    reflexivity.
  - vm_compute. reflexivity.
  - vm_compute. reflexivity.
  - vm_compute. reflexivity.
  - vm_compute. reflexivity.
  - rewrite H. vm_compute. reflexivity.
Defined.

(** A store to w2 does not change the answer for w1. *)
Lemma version_check_scoped_per_component_witness :
  let st := storeComponentData stringify (readsAt 100) "w2" "s1" (VNum 1) "static" None stored1 in
  shouldAcceptData st "w1" "w1-50-x" = shouldAcceptData stored1 "w1" "w1-50-x".
Proof.
  intros st.
  destruct (version_check_scoped_per_component stringify stored1 stored1 (readsAt 100)
              "w2" "s1" (VNum 1) "static" None "w1" "w1-50-x") as [_ H].
  apply H. discriminate.
Defined.

(** A first store to w2 next to the cached w1. *)
Lemma store_leaves_other_components_witness :
  let st' := storeComponentData stringify (readsAt 100) "w2" "s1" (VNum 5) "static" None stored1 in
  ordmap_get (componentStorage st') "w1" = ordmap_get (componentStorage stored1) "w1" ∧
  componentChangeNotifiers st' !! "w1" = Some 1 ∧
  componentChangeNotifiers st' !! "w2" = Some 1.
Proof.
  intros st'.
  destruct (store_leaves_other_components stringify "w2" "w1" (readsAt 100) "s1" (VNum 5)
              "static" None stored1) as (Hs & Hn & _ & Ha).
  - discriminate.
  - vm_compute. reflexivity.
  - split; [exact Hs|]. split.
    + subst st'. rewrite Hn. vm_compute. reflexivity.
    + subst st'. rewrite Ha. vm_compute. reflexivity.
Defined.


End WarehouseClaims.

(** ** UnifiedDataExecutor: the claims *)

Module ExecutorClaims.
Import JS JSFacts UnifiedDataExecutor Samples.

(** C5 fails as stated: the code of the failure for an unregistered type is
    [UNSUPPORTED_DATA_SOURCE], and a disabled source of an unregistered type
    fails with [DATA_SOURCE_DISABLED] before the registry is looked at. *)
Lemma error_code_counterexample :
  (errorCode <$> match execute builtin 0 (sourceOf "file" None) with
                 | Normal r => Some r | Throw _ => None end)
    = Some (Some "UNSUPPORTED_DATA_SOURCE") ∧
  Some "UNSUPPORTED_DATA_SOURCE" ≠ Some "UNSUPPORTED_SOURCE_KIND" ∧
  (errorCode <$> match execute builtin 0 (sourceOf "file" (Some false)) with
                 | Normal r => Some r | Throw _ => None end)
    = Some (Some "DATA_SOURCE_DISABLED").
Proof. split_and!; [vm_compute; reflexivity|discriminate|vm_compute; reflexivity]. Qed.

(** C5, as the code has it: for a source that is not disabled, an
    unregistered type yields the failure result with the code
    [UNSUPPORTED_DATA_SOURCE]; a value other than [null] and [undefined]
    thrown by the registered executor becomes the failure result with the
    code [EXECUTOR_EXCEPTION]; and nothing else than a thrown [null] or
    [undefined] can make [execute] itself throw. *)
Theorem execute_failure_results executors now cfg :
  enabled cfg ≠ Some false →
  (executors !! type cfg = None →
   execute executors now cfg
   = Normal (failure now cfg (VStr ("不支持的数据源类型: " +:+ type cfg))
               "UNSUPPORTED_DATA_SOURCE")) ∧
  (∀ executor e,
     executors !! type cfg = Some executor →
     ex_execute executor cfg = Throw e →
     e ≠ VUndefined → e ≠ VNull →
     ∃ msg, execute executors now cfg
            = Normal (failure now cfg msg "EXECUTOR_EXCEPTION")) ∧
  (∀ e', execute executors now cfg = Throw e' →
     ∃ executor e,
       executors !! type cfg = Some executor ∧
       ex_execute executor cfg = Throw e ∧ (e = VUndefined ∨ e = VNull)).
Proof.
  intros Hen. unfold execute.
  assert (negb (default true (enabled cfg)) = false) as ->.
  { destruct (enabled cfg) as [[]|]; simpl; congruence. }
  split_and!.
  - by intros ->.
  - intros executor e -> -> Hu Hn. unfold messageOr.
    destruct e; try done; by eexists.
  - intros e'. destruct (executors !! type cfg) as [executor|]; [|done].
    destruct (ex_execute executor cfg) as [r|e] eqn:He; [done|].
    unfold messageOr. destruct e; try done; intros _; exists executor; eauto.
Qed.

(** A throwing json executor and an unregistered file type. *)
Lemma execute_failure_results_witness :
  (∃ msg, execute builtin 5 (sourceOf "json" None)
          = Normal (failure 5 (sourceOf "json" None) msg "EXECUTOR_EXCEPTION")) ∧
  execute builtin 5 (sourceOf "file" None)
  = Normal (failure 5 (sourceOf "file" None) (VStr "不支持的数据源类型: file")
              "UNSUPPORTED_DATA_SOURCE").
Proof.
  split.
  - destruct (execute_failure_results builtin 5 (sourceOf "json" None)) as (_ & H & _);
      [done|].
    apply (H (stub "json" (Throw (mkError "Unexpected token")))
             (mkError "Unexpected token")); [by vm_compute|done..].
  - destruct (execute_failure_results builtin 5 (sourceOf "file" None)) as (H & _);
      [done|].
    apply H. by vm_compute.
Defined.

End ExecutorClaims.

(** ** SimpleDataBridge: the claims *)

Module BridgeClaims.
Import JS JSFacts SimpleDataBridge Samples MoreSamples.
Import DataWarehouse(Inv, inv_storage, inv_merged_truthy).

Section WithStringify.
Variable JSON_stringify : Value → option string.
Abbreviation executeComponent := (SimpleDataBridge.executeComponent JSON_stringify).
Abbreviation settleAll := (SimpleDataBridge.settleAll JSON_stringify).
Abbreviation settleSource := (SimpleDataBridge.settleSource JSON_stringify).
Abbreviation getComponentData := (DataWarehouse.getComponentData JSON_stringify).

Lemma settleSource_fst executors now cid ds r acc :
  (settleSource executors now cid ds r acc).1
  = assign acc.1 (id ds) (slot executors now ds).
Proof.
  unfold SimpleDataBridge.settleSource, slot.
  by destruct (executeDataSource executors now ds).
Qed.

Lemma settleAll_get executors now cid srcs order acc j ds :
  NoDup (id <$> srcs) →
  srcs !! j = Some ds →
  id ds ≠ "__proto__" →
  ordmap_get (obj_own (settleAll executors now cid srcs order acc).1) (id ds)
  = if decide (j ∈ order.*1) then Some (slot executors now ds)
    else ordmap_get (obj_own acc.1) (id ds).
Proof.
  intros Hnd Hj Hproto. revert acc. induction order as [|[i r] order IH]; intros acc.
  - cbn [SimpleDataBridge.settleAll fmap list_fmap].
    destruct (decide _) as [H|H]; [by apply elem_of_nil in H|done].
  - cbn [SimpleDataBridge.settleAll]. rewrite IH. csimpl.
    destruct (decide (j ∈ order.*1)) as [Hin|Hnin].
    + rewrite decide_True; [done|]. by right.
    + destruct (srcs !! i) as [dsi|] eqn:Hi.
      * rewrite settleSource_fst, obj_own_assign by done.
        destruct (decide (id dsi = id ds)) as [Hid|Hid].
        -- assert (i = j) as ->.
           { eapply (NoDup_lookup (id <$> srcs)); [done| |].
             - rewrite list_lookup_fmap, Hi. done.
             - rewrite list_lookup_fmap, Hj. simpl. by rewrite Hid. }
           rewrite decide_True; [|by left]. congruence.
        -- rewrite decide_False; [done|].
           intros [->|?]%elem_of_cons; [|done]. congruence.
      * rewrite decide_False; [done|].
        intros [->|?]%elem_of_cons; [|done]. congruence.
Qed.

(** The slot of a source by what the unified executor reports for it. *)
Lemma slot_by_outcome executors now ds :
  slot executors now ds =
    match convertToUnifiedConfig ds with
    | Throw _ => VNull
    | Normal unifiedConfig =>
        match U.execute executors now unifiedConfig with
        | Normal r => if U.success r then U.data r else VNull
        | Throw _ => VNull
        end
    end.
Proof.
  unfold slot, executeDataSource. destruct (convertToUnifiedConfig ds); [|done].
  destruct (U.execute executors now a) as [r|]; [|done]. by destruct (U.success r).
Qed.

Lemma getComponentData_truthy now id st :
  Inv st →
  (getComponentData now id st).1 = VNull ∨ truthy (getComponentData now id st).1 = true.
Proof.
  intros HI. unfold DataWarehouse.getComponentData. simpl.
  destruct (ordmap_get (DataWarehouse.componentStorage st) id) as [storage|] eqn:Hg;
    [|by left].
  destruct (match DataWarehouse.mergedData storage with
            | Some m => if negb (DataWarehouse.isExpired now m) then Some m else None
            | None => None
            end) as [m|] eqn:Hcached; simpl.
  - right. apply (inv_merged_truthy _ _ (inv_storage _ HI _ _ Hg)).
    destruct (DataWarehouse.mergedData storage) as [m0|]; [|done].
    by destruct (negb (DataWarehouse.isExpired now m0)); simplify_eq.
  - destruct (DataWarehouse.collectSources now _ emptyObject) as [cd kept].
    destruct (negb (negb (bool_decide (kept = [])))); simpl; [by left|].
    right. apply WarehouseFacts.unwrapComplete_truthy.
Qed.

(** C4: when the warehouse returns something other than [null] for the
    component, [executeComponent] returns [success = true] with exactly that
    value, hands no configuration to any executor and stores nothing. *)
Theorem cache_first executors run requirement st :
  Inv st →
  (getComponentData (lookupNow run) (componentId requirement) st).1 ≠ VNull →
  let cached := getComponentData (lookupNow run) (componentId requirement) st in
  let o := executeComponent executors run requirement st in
  success (result o) = true ∧
  data (result o) = cached.1 ∧
  executed o = [] ∧
  warehouse o = cached.2.
Proof.
  intros HI Hnn cached o. subst o. unfold SimpleDataBridge.executeComponent.
  destruct (getComponentData_truthy (lookupNow run) (componentId requirement) st HI)
    as [Hnull|Htr]; [done|].
  subst cached.
  destruct (getComponentData (lookupNow run) (componentId requirement) st) as [c st1].
  simpl in *. by rewrite Htr.
Qed.

(** Only the pipeline-level throw yields [success = false]. *)
Lemma executeComponent_failure executors run requirement st :
  success (result (executeComponent executors run requirement st)) = false ↔
  truthy (getComponentData (lookupNow run) (componentId requirement) st).1 = false ∧
  dataSources requirement = None.
Proof.
  unfold SimpleDataBridge.executeComponent.
  destruct (getComponentData (lookupNow run) (componentId requirement) st) as [c st1].
  simpl. destruct (truthy c); simpl.
  - split; [done|]. by intros [? _].
  - destruct (dataSources requirement) as [srcs|]; simpl.
    + destruct (settleAll _ _ _ _ _ _). simpl. split; [done|]. by intros [_ ?].
    + done.
Qed.

(** X31, the isolation of the sources: when the cache has nothing for the
    component and the declared sources (with distinct ids) are executed, in
    whatever order their promises settle, the result has [success = true]
    and its data holds, under the id of every source other than
    [__proto__], the data that the unified executor returned for that
    source when it reported success, and [null] when it reported failure
    or the execution threw; the slot of a source depends on that source
    only. [success = false] comes from the pipeline-level throw alone: a
    requirement without its [dataSources] array, on a cache miss. *)
Theorem partial_failure_isolated executors run requirement st :
  let o := executeComponent executors run requirement st in
  (∀ srcs,
     (getComponentData (lookupNow run) (componentId requirement) st).1 = VNull →
     dataSources requirement = Some srcs →
     NoDup (id <$> srcs) →
     (settleOrder run).*1 ≡ₚ seq 0 (length srcs) →
     success (result o) = true ∧
     ∃ componentData,
       data (result o) = VObj componentData ∧
       ∀ ds, ds ∈ srcs → id ds ≠ "__proto__" →
         ordmap_get componentData (id ds)
         = Some (match convertToUnifiedConfig ds with
                 | Throw _ => VNull
                 | Normal unifiedConfig =>
                     match U.execute executors (executeNow run) unifiedConfig with
                     | Normal r => if U.success r then U.data r else VNull
                     | Throw _ => VNull
                     end
                 end)) ∧
  (success (result o) = false ↔
   truthy (getComponentData (lookupNow run) (componentId requirement) st).1 = false ∧
   dataSources requirement = None).
Proof.
  intros o. split; [|apply executeComponent_failure].
  intros srcs Hmiss Hsrcs Hnd Hperm. subst o. unfold SimpleDataBridge.executeComponent.
  destruct (getComponentData (lookupNow run) (componentId requirement) st) as [c st1].
  simpl in Hmiss. subst c. simpl. rewrite Hsrcs.
  destruct (settleAll executors (executeNow run) (componentId requirement) srcs
              (settleOrder run) (emptyObject, st1)) as [cd st2] eqn:Hall.
  simpl. split; [done|]. exists (obj_own cd). split; [done|].
  intros ds [j Hj]%list_elem_of_lookup Hproto.
  pose proof (settleAll_get executors (executeNow run) (componentId requirement) srcs
                (settleOrder run) (emptyObject, st1) j ds Hnd Hj Hproto) as Hget.
  rewrite Hall in Hget. simpl in Hget. rewrite Hget.
  rewrite decide_True; [by rewrite slot_by_outcome|].
  rewrite Hperm. apply elem_of_seq. apply lookup_lt_Some in Hj. lia.
Qed.

End WithStringify.

(** Three sources of which the second throws, settling out of order. *)
Lemma partial_failure_isolated_witness :
  let o := executeComponent stringify builtin sampleRun threeSources
             (W.newWarehouse W.defaultConfig) in
  success (result o) = true ∧
  ∃ componentData,
    data (result o) = VObj componentData ∧
    ordmap_get componentData "source1" = Some (VNum 1) ∧
    ordmap_get componentData "source2" = Some VNull ∧
    ordmap_get componentData "source3" = Some (VObj [("temp", VNum 22)]).
Proof.
  intros o.
  destruct (partial_failure_isolated stringify builtin sampleRun threeSources
              (W.newWarehouse W.defaultConfig)) as [Hspec _].
  destruct (Hspec (default [] (dataSources threeSources))) as (Hs & cd & Hd & Hslots).
  all: clear Hspec.
  - reflexivity.
  - reflexivity.
  - apply (bool_decide_unpack _). by vm_compute.
  - apply (bool_decide_unpack _). by vm_compute.
  - split; [exact Hs|]. exists cd. split; [exact Hd|].
    split_and!.
    + exact (Hslots (source "source1" "static" [("data", VNum 1)])
               ltac:(simpl; set_solver) ltac:(discriminate)).
    + exact (Hslots (source "source2" "json" [("jsonContent", VStr "{")])
               ltac:(simpl; set_solver) ltac:(discriminate)).
    + exact (Hslots (source "source3" "http"
                       [("url", VStr "/api/temp"); ("method", VStr "get")])
               ltac:(simpl; set_solver) ltac:(discriminate)).
Defined.


(** The same requirement against a warehouse that has w1 cached. *)
Lemma cache_first_witness :
  let o := executeComponent stringify builtin sampleRun threeSources stored1 in
  success (result o) = true ∧
  data (result o) = VObj [("s1", VNum 1)] ∧
  executed o = [].
Proof.
  intros o.
  destruct (cache_first stringify builtin sampleRun threeSources stored1)
    as (Hs & Hd & He & _).
  - apply WarehouseFacts.reachable_Inv with (JSON_stringify := stringify).
    exists W.defaultConfig,
      [W.OpStore (readsAt 100) "w1" "s1" (VNum 1) "static" None;
       W.OpGetComponentData 100 "w1"].
    reflexivity.
  - by vm_compute.
  - subst o. split_and!; [exact Hs| |exact He]. rewrite Hd. by vm_compute.
Defined.

End BridgeClaims.

(** ** DataItemFetcher: the claims *)

Module FetcherClaims.
Import JS JSFacts DataItemFetcher Samples MoreSamples.

Section Parameters.
Variable convertValue : Value → string → Value.
Variable JSON_parse : string → option Value.

Abbreviation resolveParameterValue := (DataItemFetcher.resolveParameterValue convertValue).
Abbreviation forEachParam := (DataItemFetcher.forEachParam convertValue).
Abbreviation applyParameters := (DataItemFetcher.applyParameters convertValue).
Abbreviation buildRequest := (DataItemFetcher.buildRequest convertValue JSON_parse).

Lemma substitute_keys placeholder v d :
  queryParams (substitute placeholder v d) = queryParams d ∧
  draftHeaders (substitute placeholder v d) = draftHeaders d.
Proof. unfold substitute. by destruct (includes _ _). Qed.

Lemma applyPathParam_own : writesOwnKey applyPathParam.
Proof.
  intros q v d k _. unfold applyPathParam.
  destruct (negb (isNull v)); [|done].
  by destruct (substitute_keys ("{" +:+ key q +:+ "}") v d) as [-> ->].
Qed.









End Parameters.



Lemma runTimers_cache now (ts : list (Z * string)) (c : gmap string nat) k :
  foldl (λ c t, if t.1 <=? now then delete t.2 c else c) c ts !! k
  = if decide (Exists (λ t, t.2 = k ∧ t.1 ≤ now) ts) then None else c !! k.
Proof.
  revert c. induction ts as [|[t k'] ts IH]; intros c; cbn [foldl].
  - rewrite decide_False; [done|]. by intros H%Exists_nil.
  - rewrite IH. simpl. destruct (decide (Exists _ ts)) as [He|Hne].
    + rewrite decide_True; [done|]. by apply Exists_cons_tl.
    + destruct (Z.leb_spec t now) as [Hle|Hgt].
      * destruct (decide (k' = k)) as [->|Hk].
        -- rewrite decide_True, lookup_delete_eq; [done|]. by apply Exists_cons_hd.
        -- rewrite decide_False, lookup_delete_ne; [done..|].
           intros [[? _]|?]%Exists_cons; done.
      * rewrite decide_False; [done|].
        intros [[_ ?]|?]%Exists_cons; [simpl in *; lia|done].
Qed.

Lemma NoDup_snd_unique {A B} (l : list (A * B)) a a' b :
  NoDup l.*2 → (a, b) ∈ l → (a', b) ∈ l → a = a'.
Proof.
  induction l as [|[a0 b0] l IH]; csimpl.
  - by intros _ ?%elem_of_nil.
  - rewrite NoDup_cons. intros [Hnin Hnd] [[= -> ->]|H1]%elem_of_cons [[= ->]|H2]%elem_of_cons.
    + done.
    + exfalso. apply Hnin. apply list_elem_of_fmap. by exists (a', b0).
    + subst. exfalso. apply Hnin. apply list_elem_of_fmap. by exists (a, b0).
    + by apply IH.
Qed.

Lemma FetcherInv_new : FetcherInv newFetcher.
Proof.
  split; simpl; [constructor|]. intros k. rewrite lookup_empty. split.
  - by intros [? ?].
  - by intros ?%elem_of_nil.
Qed.

Lemma FetcherInv_runTimers now f : FetcherInv f → FetcherInv (runTimers now f).
Proof.
  intros [Hnd Hiff]. split; simpl.
  - eapply sublist_NoDup; [exact Hnd|]. apply fmap_sublist, sublist_filter.
  - intros k. rewrite runTimers_cache. rewrite list_elem_of_fmap.
    destruct (decide (Exists _ (timers f))) as [He|Hne].
    + split; [by intros [? ?]|]. intros ([t k'] & -> & [Hlt Hin]%list_elem_of_filter).
      apply Exists_exists in He as ([t' k''] & Hin' & Hk & Hle). simpl in *. subst k''.
      assert (t = t'); [|lia]. by eapply NoDup_snd_unique.
    + rewrite Hiff. rewrite list_elem_of_fmap. split.
      * intros ([t k'] & -> & Hin). exists (t, k'). split; [done|].
        apply list_elem_of_filter. split; [|done]. simpl.
        destruct (decide (now < t)); [done|]. exfalso. apply Hne.
        apply Exists_exists. exists (t, k'). simpl. split; [done|]. split; [done|lia].
      * intros ([t k'] & -> & [_ Hin]%list_elem_of_filter). by exists (t, k').
Qed.


Section Dedup.
Variable convertValue : Value → string → Value.
Variable JSON_stringify : Value → string.

Abbreviation generateRequestKey := (DataItemFetcher.generateRequestKey convertValue JSON_stringify).
Abbreviation fetchHttpData := (DataItemFetcher.fetchHttpData convertValue JSON_stringify).
Abbreviation step := (DataItemFetcher.step convertValue JSON_stringify).
Abbreviation steps := (DataItemFetcher.steps convertValue JSON_stringify).
Abbreviation Pending := (DataItemFetcher.Pending convertValue JSON_stringify).

Lemma fetchHttpData_hit es now cfg f k p :
  generateRequestKey es cfg = Normal k → requestCache f !! k = Some p →
  fetchHttpData es now cfg f = Normal (p, f).
Proof. intros Hk Hc. unfold DataItemFetcher.fetchHttpData. by rewrite Hk, Hc. Qed.

Lemma fetchHttpData_miss es now cfg f k :
  generateRequestKey es cfg = Normal k → requestCache f !! k = None →
  fetchHttpData es now cfg f
  = Normal (length (started f),
            {| requestCache := <[k := length (started f)]> (requestCache f);
               timers := timers f ++ [(now + REQUEST_CACHE_TTL, k)];
               started := started f ++ [(length (started f), cfg)];
               settled := settled f |}).
Proof. intros Hk Hc. unfold DataItemFetcher.fetchHttpData. by rewrite Hk, Hc. Qed.

Lemma FetcherInv_fetch es now cfg f p f' :
  FetcherInv f → fetchHttpData es now cfg f = Normal (p, f') → FetcherInv f'.
Proof.
  intros HI. unfold DataItemFetcher.fetchHttpData.
  destruct (generateRequestKey es cfg) as [k|]; [|done].
  destruct (requestCache f !! k) as [q|] eqn:Hc.
  - by intros [= _ <-].
  - intros [= _ <-]. destruct HI as [Hnd Hiff]. split; simpl.
    + rewrite fmap_app. apply NoDup_app. split_and!; [done| |apply NoDup_singleton].
      intros k' Hin Hk'%list_elem_of_singleton. subst k'.
      apply Hiff in Hin as [? Hin]. simpl in Hin. congruence.
    + intros k'. rewrite fmap_app, elem_of_app, <- Hiff. simpl.
      rewrite list_elem_of_singleton, lookup_insert. case_decide as Hk.
      * subst. split; [by right|by eexists].
      * split; [by left|]. by intros [?|?].
Qed.

Lemma FetcherInv_step es ev f : FetcherInv f → FetcherInv (step es ev f).
Proof.
  intros HI. destruct ev as [now cfg|now|now p]; simpl.
  - destruct (fetchHttpData es now cfg f) as [[p f']|] eqn:Hf; [|done].
    by eapply FetcherInv_fetch.
  - by apply FetcherInv_runTimers.
  - by destruct HI.
Qed.

Lemma Pending_step es k p due base ev f :
  (∀ t, ev = RunTimers t → t < due) →
  Pending es k p due base f → Pending es k p due base (step es ev f).
Proof.
  intros Hev HP. pose proof HP as [HI Hc Ht Hs].
  destruct ev as [now cfg|now|now q]; simpl.
  - destruct (generateRequestKey es cfg) as [k'|] eqn:Hk.
    2: { unfold DataItemFetcher.fetchHttpData. by rewrite Hk. }
    destruct (requestCache f !! k') as [q|] eqn:Hc'.
    + by rewrite (fetchHttpData_hit es now cfg f k' q).
    + rewrite (fetchHttpData_miss es now cfg f k') by done.
      assert (k' ≠ k) as Hne by congruence.
      split; simpl.
      * eapply FetcherInv_fetch; [exact HI|]. by apply fetchHttpData_miss.
      * by rewrite lookup_insert_ne.
      * apply elem_of_app. by left.
      * intros q cfg' [Hin|[= -> ->]%list_elem_of_singleton]%elem_of_app; [by apply Hs|].
        right. congruence.
  - split; simpl; [by apply FetcherInv_runTimers| | |done].
    + rewrite runTimers_cache, decide_False; [done|].
      intros ([t k'] & Hin & Hk & Hle)%Exists_exists. simpl in *. subst k'.
      assert (t = due) as -> by (eapply NoDup_snd_unique; [apply HI|done..]).
      specialize (Hev now eq_refl). lia.
    + apply list_elem_of_filter. split; [|done]. simpl. by apply Hev.
  - split; simpl; [by destruct HI|done..].
Qed.

Lemma Pending_steps es k p due base evs f :
  (∀ t, RunTimers t ∈ evs → t < due) →
  Pending es k p due base f → Pending es k p due base (steps es evs f).
Proof.
  unfold DataItemFetcher.steps. revert f.
  induction evs as [|ev evs IH]; intros f Hev HP; [done|].
  simpl. apply IH.
  - intros t Hin. apply Hev. by right.
  - apply Pending_step; [|done]. intros t ->. apply Hev. by left.
Qed.

(** C7, as the code has it: from a table without the key, the first call
    starts one request and arms a cleanup timer due 200 ms after the call.
    Until that timer runs, whatever else is called or settles, a call with
    the same key gets the same promise and starts nothing, and no request
    under the key is started in between; the first run of the timers at or
    after the due time removes the entry, whether or not the request has
    settled. *)
Theorem dedup_within_window es f cfg1 cfg2 k now1 now2 evs :
  FetcherInv f →
  generateRequestKey es cfg1 = Normal k →
  generateRequestKey es cfg2 = Normal k →
  requestCache f !! k = None →
  (∀ t, RunTimers t ∈ evs → t < now1 + REQUEST_CACHE_TTL) →
  ∃ p f1,
    fetchHttpData es now1 cfg1 f = Normal (p, f1) ∧
    started f1 = started f ++ [(p, cfg1)] ∧
    let f2 := steps es evs f1 in
    fetchHttpData es now2 cfg2 f2 = Normal (p, f2) ∧
    (∀ q cfg, (q, cfg) ∈ started f2 →
       (q, cfg) ∈ started f1 ∨ generateRequestKey es cfg ≠ Normal k) ∧
    (∀ t, now1 + REQUEST_CACHE_TTL ≤ t → requestCache (runTimers t f2) !! k = None).
Proof.
  intros HI Hk1 Hk2 Hc Hev.
  eexists _, _. split; [by apply fetchHttpData_miss|]. split; [done|].
  set (f1 := {| requestCache := _ |}).
  assert (Pending es k (length (started f)) (now1 + REQUEST_CACHE_TTL) (started f1) f1)
    as HP1.
  { split.
    - eapply FetcherInv_fetch; [exact HI|]. by apply fetchHttpData_miss.
    - subst f1. simpl. apply lookup_insert_eq.
    - subst f1. simpl. apply elem_of_app. right. apply list_elem_of_singleton. done.
    - intros q cfg Hin. by left. }
  pose proof (Pending_steps es k _ _ _ evs f1 Hev HP1) as [HI2 Hc2 Ht2 Hs2].
  intros f2. split_and!.
  - by apply (fetchHttpData_hit es now2 cfg2 f2 k).
  - exact Hs2.
  - intros t Ht. simpl. rewrite runTimers_cache, decide_True; [done|].
    apply Exists_exists. eexists. split; [exact Ht2|]. simpl. split; [done|lia].
Qed.

End Dedup.

(** A second identical call 180 ms after the first. *)
Lemma dedup_within_window_witness :
  ∃ p f1,
    fetchHttpData convert stringifyBody noEditor 0 telemetry newFetcher = Normal (p, f1) ∧
    let f2 := steps convert stringifyBody noEditor [Settle 50 0%nat; RunTimers 150] f1 in
    fetchHttpData convert stringifyBody noEditor 180 telemetry f2 = Normal (p, f2) ∧
    length (started f2) = 1%nat ∧
    requestCache (runTimers 200 f2) = ∅.
Proof.
  destruct (dedup_within_window convert stringifyBody noEditor newFetcher telemetry telemetry
              "http_ofe4r6" 0 180 [Settle 50 0%nat; RunTimers 150])
    as (p & f1 & Hfirst & Hstarted & Hsecond & _ & _).
  - apply FetcherInv_new.
  - by vm_compute.
  - by vm_compute.
  - apply lookup_empty.
  - intros t Hin. apply elem_of_cons in Hin as [[=]|Hin].
    apply list_elem_of_singleton in Hin as [= ->]. by vm_compute.
  - exists p, f1. split; [exact Hfirst|]. intros f2. split; [exact Hsecond|].
    assert (f1 = (step convert stringifyBody noEditor (Call 0 telemetry) newFetcher)) as ->.
    { unfold DataItemFetcher.step. by rewrite Hfirst. }
    vm_compute. split; reflexivity.
Defined.

(** C7 fails as stated: the window runs from the call, not from the
    completion. A request still pending after 200 ms has lost its entry, so
    an identical call at 300 ms starts a second request; and a request that
    settled at 10 ms has lost its entry by 205 ms. *)
Lemma dedup_window_counterexample :
  let run := steps convert stringifyBody noEditor in
  let late := run [Call 0 telemetry; RunTimers 200; Call 300 telemetry] newFetcher in
  let early := run [Call 0 telemetry; Settle 10 0%nat; RunTimers 205] newFetcher in
  settled late = ∅ ∧
  started late = [(0%nat, telemetry); (1%nat, telemetry)] ∧
  settled early !! 0%nat = Some 10 ∧
  requestCache early = ∅.
Proof. by vm_compute. Qed.


End FetcherClaims.
(** ** Facts about the string built-ins *)

Module StringFacts.
Import JS.

(** [split] always yields at least one part. *)
Lemma split_nonempty sep s : split sep s ≠ [].
Proof.
  destruct s as [|c s]; simpl; [done|].
  case_bool_decide; [done|]. by destruct (split sep s).
Qed.

End StringFacts.


(** * Further properties *)

(** ** DataWarehouse: capacity, versions, reads *)

Module CapacityFacts.
Import JS JSFacts DataWarehouse WarehouseFacts WarehouseStats.

Lemma sumZ_app l1 l2 : sumZ (l1 ++ l2) = sumZ l1 + sumZ l2.
Proof. unfold sumZ. induction l1 as [|x l1 IH]; simpl; lia. Qed.

Lemma sumZ_nonneg l : Forall (λ x, 0 ≤ x) l → 0 ≤ sumZ l.
Proof. unfold sumZ. induction 1; simpl; lia. Qed.

Lemma sumZ_sublist l1 l2 :
  l1 `sublist_of` l2 → Forall (λ x, 0 ≤ x) l2 → sumZ l1 ≤ sumZ l2.
Proof.
  unfold sumZ. induction 1 as [|x l1 l2 _ IH|x l1 l2 _ IH]; simpl; [done|..].
  - intros [? ?]%Forall_cons. specialize (IH ltac:(done)). lia.
  - intros [? ?]%Forall_cons. specialize (IH ltac:(done)). lia.
Qed.

Lemma componentSize_sum storage : componentSize storage = sumZ (itemSizes storage).
Proof.
  unfold componentSize, itemSizes, sumZ.
  assert (∀ (l : ordmap DataStorageItem) a,
            foldl (λ sum item, sum + size item) a l.*2
            = a + foldr Z.add 0 ((λ kv, size kv.2) <$> l)) as H.
  { induction l as [|[k i] l IH]; intros a; csimpl; [lia|]. rewrite IH. lia. }
  by rewrite H.
Qed.

Lemma getStorageStats_totals st :
  totalDataSources (getStorageStats st) = Z.of_nat (length (srcSizes (componentStorage st))) ∧
  totalSize (getStorageStats st) = sumZ (srcSizes (componentStorage st)).
Proof.
  unfold getStorageStats.
  assert (∀ cs a b c,
    let r := foldl (λ '(totalItems, totalSize, componentStats) kv,
             (totalItems + Z.of_nat (length (dataSources kv.2)),
              totalSize + componentSize kv.2,
              ordmap_set componentStats kv.1
                {| dataSourceCount := Z.of_nat (length (dataSources kv.2));
                   componentTotalSize := componentSize kv.2;
                   stats_createdAt := createdAt kv.2;
                   stats_updatedAt := updatedAt kv.2 |}))
          (a, b, c) cs in
    r.1.1 = a + Z.of_nat (length (srcSizes cs)) ∧ r.1.2 = b + sumZ (srcSizes cs)) as H.
  { induction cs as [|[k s] cs IH]; intros a b c; simpl; [unfold sumZ; simpl; lia|].
    destruct (IH (a + Z.of_nat (length (dataSources s))) (b + componentSize s)
                (ordmap_set c k
                   {| dataSourceCount := Z.of_nat (length (dataSources s));
                      componentTotalSize := componentSize s;
                      stats_createdAt := createdAt s;
                      stats_updatedAt := updatedAt s |})) as [H1 H2].
    simpl in H1, H2. rewrite H1, H2.
    rewrite length_app, sumZ_app, componentSize_sum. unfold itemSizes at 1.
    rewrite length_fmap. lia. }
  specialize (H (componentStorage st) 0 0 []). simpl in H.
  destruct (foldl _ _ _) as [[a b] c]. simpl in *. destruct H as [-> ->]. split; lia.
Qed.


Lemma Forall_sublist {A} (P : A → Prop) l1 l2 :
  l1 `sublist_of` l2 → Forall P l2 → Forall P l1.
Proof.
  induction 1 as [|x l1 l2 _ IH|x l1 l2 _ IH]; [done|..].
  - intros [? ?]%Forall_cons. constructor; auto.
  - intros [? ?]%Forall_cons. auto.
Qed.

Lemma Shrinks_refl st : Shrinks st st.
Proof. by split. Qed.

Lemma Shrinks_trans st1 st2 st3 : Shrinks st1 st2 → Shrinks st2 st3 → Shrinks st1 st3.
Proof.
  intros [A1 B1 C1 D1] [A2 B2 C2 D2]. split.
  - by etrans.
  - auto.
  - congruence.
  - congruence.
Qed.

Lemma CapInv_Shrinks st st' : CapInv st → Shrinks st st' → CapInv st'.
Proof.
  intros [Hs Hm Hc Hb] [Hsub Hmer Hi Hmem]. split.
  - by eapply Forall_sublist.
  - auto.
  - rewrite Hi. apply sublist_length in Hsub. lia.
  - rewrite Hmem. pose proof (sumZ_sublist _ _ Hsub Hs). lia.
Qed.


Lemma srcSizes_set_Some cs id s s' :
  ordmap_get cs id = Some s →
  ∃ l1 l2, srcSizes cs = l1 ++ itemSizes s ++ l2 ∧
           srcSizes (ordmap_set cs id s') = l1 ++ itemSizes s' ++ l2.
Proof.
  induction cs as [|[k s0] cs IH]; simpl; [done|].
  case_bool_decide as Hk.
  - intros [= ->]. by exists [], (srcSizes cs).
  - intros Hg. destruct (IH Hg) as (l1 & l2 & H1 & H2).
    exists (itemSizes s0 ++ l1), l2. simpl. rewrite H1, H2. by rewrite <- !(assoc_L (++)).
Qed.

Lemma srcSizes_set_None cs id s' :
  ordmap_get cs id = None →
  srcSizes (ordmap_set cs id s') = srcSizes cs ++ itemSizes s'.
Proof.
  induction cs as [|[k s0] cs IH]; simpl; [by rewrite app_nil_r|].
  case_bool_decide as Hk; [done|]. intros Hg. simpl. rewrite IH by done.
  by rewrite (assoc_L (++)).
Qed.

Lemma mergedSizes_set (P : Z → Prop) cs id s' :
  Forall P (mergedSizes cs) →
  (∀ m, mergedData s' = Some m → P (size m)) →
  Forall P (mergedSizes (ordmap_set cs id s')).
Proof.
  intros Hall Hs'. induction cs as [|[k s0] cs IH]; csimpl.
  - destruct (mergedData s') as [m|] eqn:Hm; csimpl; [|done]. constructor; auto.
  - csimpl in Hall. case_bool_decide as Hk; csimpl.
    + destruct (mergedData s') as [m|] eqn:Hm; csimpl.
      * constructor; [auto|]. destruct (mergedData s0); csimpl in *; [|done].
        by apply Forall_cons in Hall as [_ ?].
      * destruct (mergedData s0); csimpl in *; [|done].
        by apply Forall_cons in Hall as [_ ?].
    + destruct (mergedData s0); csimpl in *.
      * apply Forall_cons in Hall as [? ?]. constructor; auto.
      * auto.
Qed.

Lemma mergedSizes_get (P : Z → Prop) cs id s m :
  Forall P (mergedSizes cs) → ordmap_get cs id = Some s → mergedData s = Some m →
  P (size m).
Proof.
  intros Hall Hg Hm. apply ordmap_get_Some_elem in Hg.
  rewrite Forall_forall in Hall. apply Hall.
  unfold mergedSizes. apply list_elem_of_omap. exists (id, s). split; [done|].
  simpl. by rewrite Hm.
Qed.

Lemma srcSizes_filter (P : string * ComponentDataStorage → Prop) `{∀ x, Decision (P x)} cs :
  srcSizes (filter P cs) `sublist_of` srcSizes cs.
Proof.
  induction cs as [|x cs IH]; [done|]. rewrite filter_cons. case_decide; simpl.
  - by apply sublist_app.
  - by apply sublist_inserts_l.
Qed.

Lemma mergedSizes_filter (P : string * ComponentDataStorage → Prop) `{∀ x, Decision (P x)} cs :
  mergedSizes (filter P cs) `sublist_of` mergedSizes cs.
Proof.
  induction cs as [|x cs IH]; [done|]. rewrite filter_cons. unfold mergedSizes in *.
  case_decide; csimpl.
  - destruct (size <$> mergedData x.2); [by apply sublist_skip|done].
  - destruct (size <$> mergedData x.2); [by apply sublist_cons|done].
Qed.

Lemma itemSizes_touch ds sid item item' :
  ordmap_get ds sid = Some item → size item' = size item →
  (λ kv : string * DataStorageItem, size kv.2) <$> ordmap_set ds sid item'
  = (λ kv, size kv.2) <$> ds.
Proof.
  intros Hg Hs. induction ds as [|[k i] ds IH]; [done|]. simpl in *.
  case_bool_decide as Hk; csimpl.
  - simplify_eq. by rewrite Hs.
  - by rewrite IH.
Qed.

(** An update of the storage of one component that keeps a part of its
    source entries. *)
Lemma Shrinks_set st id s s' ns lv :
  ordmap_get (componentStorage st) id = Some s →
  itemSizes s' `sublist_of` itemSizes s →
  (∀ m', mergedData s' = Some m' →
     0 ≤ size m' ∨ ∃ m, mergedData s = Some m ∧ size m = size m') →
  Shrinks st
    {| componentStorage := ordmap_set (componentStorage st) id s';
       componentChangeNotifiers := ns;
       componentLatestVersions := lv;
       config := config st |}.
Proof.
  intros Hg Hsub Hm. split; simpl; [| |done..].
  - destruct (srcSizes_set_Some _ _ _ s' Hg) as (l1 & l2 & -> & ->).
    apply sublist_app; [done|]. by apply sublist_app.
  - intros Hall. apply mergedSizes_set; [done|].
    intros m' Hm'. destruct (Hm _ Hm') as [?|(m & Hm0 & <-)]; [done|].
    by eapply mergedSizes_get.
Qed.

Local Ltac shrinks_set st id storage :=
  unfold setStorage, withStorage, withNotifiers; simpl;
  apply (Shrinks_set st id storage).

Section Ops.
Variable JSON_stringify : Value → option string.

Lemma calculateDataSize_nonneg d : 0 ≤ calculateDataSize JSON_stringify d.
Proof. unfold calculateDataSize. destruct (JSON_stringify d); lia. Qed.

Lemma Shrinks_getComponentData now id st :
  Shrinks st (getComponentData JSON_stringify now id st).2.
Proof.
  unfold getComponentData. simpl.
  destruct (ordmap_get (componentStorage st) id) as [storage|] eqn:Hg; [|by split].
  destruct (match mergedData storage with
            | Some m => if negb (isExpired now m) then Some m else None
            | None => None
            end) as [m|] eqn:Hcached; simpl.
  - shrinks_set st id storage; [done|done|].
    simpl. intros m' [= <-]. right. exists m. split; [|done].
    destruct (mergedData storage) as [m0|]; [|done].
    by destruct (negb (isExpired now m0)); simplify_eq.
  - rewrite collectSources_spec. simpl.
    assert (itemSizes
              (withSources storage
                 (prod_map Datatypes.id (touch now)
                  <$> filter (λ kv, isExpired now kv.2 = false) (dataSources storage))
                 None) `sublist_of` itemSizes storage) as Hsub.
    { unfold itemSizes. simpl. rewrite <- list_fmap_compose.
      apply (fmap_sublist (λ kv, size kv.2)), sublist_filter. }
    case_bool_decide; simpl.
    + shrinks_set st id storage; [done|exact Hsub|].
      simpl. intros m' Hm'. right. by exists m'.
    + shrinks_set st id storage; [done|exact Hsub|].
      simpl. intros m' [= <-]. left. simpl. apply calculateDataSize_nonneg.
Qed.

Lemma Shrinks_getDataSourceData now id sid st :
  Shrinks st (getDataSourceData now id sid st).2.
Proof.
  unfold getDataSourceData.
  destruct (ordmap_get (componentStorage st) id) as [storage|] eqn:Hg; [|by split].
  destruct (ordmap_get (dataSources storage) sid) as [item|] eqn:Hi; [|by split].
  destruct (isExpired now item); simpl.
  - shrinks_set st id storage; [done| |].
    + unfold itemSizes. simpl. apply (fmap_sublist (λ kv, size kv.2)), sublist_filter.
    + simpl. intros m' Hm'. right. by exists m'.
  - shrinks_set st id storage; [done| |].
    + unfold itemSizes. simpl. by rewrite (itemSizes_touch _ _ item).
    + simpl. intros m' Hm'. right. by exists m'.
Qed.

End Ops.

Lemma Shrinks_clearComponentCache id st : Shrinks st (clearComponentCache id st).
Proof.
  unfold clearComponentCache.
  destruct (ordmap_get (componentStorage st) id); [|by split].
  split; simpl; [| |done..].
  - apply srcSizes_filter.
  - apply Forall_sublist, mergedSizes_filter.
Qed.

Lemma Shrinks_clearComponentMergedCache id st : Shrinks st (clearComponentMergedCache id st).
Proof.
  unfold clearComponentMergedCache.
  destruct (ordmap_get (componentStorage st) id) as [storage|] eqn:Hg; [|by split].
  by shrinks_set st id storage.
Qed.

Lemma Shrinks_clearDataSourceCache id sid st : Shrinks st (clearDataSourceCache id sid st).
Proof.
  unfold clearDataSourceCache.
  destruct (ordmap_get (componentStorage st) id) as [storage|] eqn:Hg; [|by split].
  destruct (ordmap_has (dataSources storage) sid); [|by split].
  shrinks_set st id storage; [done| |done].
  unfold itemSizes. simpl. apply (fmap_sublist (λ kv, size kv.2)), sublist_filter.
Qed.

Lemma Shrinks_clearAllCache st : Shrinks st (clearAllCache st).
Proof. split; simpl; [apply sublist_nil_l|constructor|done..]. Qed.

Lemma Shrinks_setCacheExpiry ms st : Shrinks st (setCacheExpiry ms st).
Proof. by split. Qed.

Lemma Shrinks_sweep now st :
  Shrinks st (withStorage st (sweepExpired now (componentStorage st))).
Proof.
  split; simpl; [| |done..].
  - induction (componentStorage st) as [|[id s] cs IH]; simpl; [done|].
    unfold sweepStorage.
    destruct (negb _ && negb _); simpl.
    + by apply sublist_inserts_l.
    + apply sublist_app; [|done]. unfold itemSizes. simpl.
      apply (fmap_sublist (λ kv, size kv.2)), sublist_filter.
  - induction (componentStorage st) as [|[id s] cs IH]; csimpl; [done|].
    intros Hall.
    assert (Forall (λ x, 0 ≤ x) (mergedSizes cs)) as Hcs.
    { unfold mergedSizes in *. destruct (size <$> mergedData s); [|done].
      by apply Forall_cons in Hall as [_ ?]. }
    unfold sweepStorage.
    destruct (negb _ && negb _); csimpl; [by apply IH|].
    destruct (mergedData s) as [m|]; csimpl in *; [|by apply IH].
    destruct (isExpired now m); csimpl; [by apply IH|].
    apply Forall_cons in Hall as [? ?]. constructor; [done|by apply IH].
Qed.

Lemma Shrinks_evict items st : Shrinks st (evict items st).
Proof.
  unfold evict. revert st. induction items as [|a items IH]; intros st; simpl.
  - apply Shrinks_refl.
  - eapply Shrinks_trans; [apply Shrinks_clearDataSourceCache|apply IH].
Qed.

Lemma Shrinks_performCleanup now st : Shrinks st (performCleanup now st).
Proof.
  unfold performCleanup. destruct (memoryPressure _).
  - eapply Shrinks_trans; [apply Shrinks_sweep|apply Shrinks_evict].
  - apply Shrinks_sweep.
Qed.


Lemma getTotalItemCount_sizes st :
  getTotalItemCount st
  = Z.of_nat (length (srcSizes (componentStorage st)))
    + Z.of_nat (length (mergedSizes (componentStorage st))).
Proof.
  unfold getTotalItemCount. induction (componentStorage st) as [|[id s] cs IH]; [done|].
  csimpl. rewrite IH, length_app. unfold storageItemCount, itemSizes. rewrite length_fmap.
  destruct (mergedData s); csimpl; lia.
Qed.

Lemma currentMemoryBytes_sizes st :
  currentMemoryBytes st
  = sumZ (srcSizes (componentStorage st)) + sumZ (mergedSizes (componentStorage st)).
Proof.
  unfold currentMemoryBytes. induction (componentStorage st) as [|[id s] cs IH]; [done|].
  csimpl. rewrite IH, sumZ_app. unfold storageBytes.
  assert (foldr (λ kv acc, size kv.2 + acc) 0 (dataSources s) = sumZ (itemSizes s)) as ->.
  { unfold itemSizes, sumZ. induction (dataSources s) as [|[k i] ds IHd]; csimpl; [done|].
    by rewrite IHd. }
  destruct (mergedData s); csimpl; unfold sumZ; simpl; lia.
Qed.

Lemma itemSizes_set ds sid (item : DataStorageItem) :
  ∃ x1 x2 o,
    (λ kv : string * DataStorageItem, size kv.2) <$> ds = x1 ++ o ++ x2 ∧
    (λ kv : string * DataStorageItem, size kv.2) <$> ordmap_set ds sid item
    = x1 ++ [size item] ++ x2 ∧
    (length o ≤ 1)%nat.
Proof.
  induction ds as [|[k i] ds IH]; csimpl.
  - exists [], [], []. simpl. split_and!; [done..|lia].
  - case_bool_decide as Hk; csimpl.
    + exists [], ((λ kv, size kv.2) <$> ds), [size i]. simpl. split_and!; [done..|lia].
    + destruct IH as (x1 & x2 & o & H1 & H2 & Hl).
      exists (size i :: x1), x2, o. simpl. rewrite H1, H2. split_and!; done.
Qed.

Section Store.
Variable JSON_stringify : Value → option string.

Lemma CapInv_store r id sid d ty ce st :
  CapInv st → CapInv (storeComponentData JSON_stringify r id sid d ty ce st).
Proof.
  intros HC. pose proof HC as [Hs Hm Hc Hb]. unfold storeComponentData.
  destruct (negb (shouldAcceptData st id _)); [done|].
  destruct (shouldRejectStorage st _) eqn:Hrej; [done|].
  unfold shouldRejectStorage in Hrej. apply orb_false_iff in Hrej as [Hmem Hcnt].
  apply Z.ltb_ge in Hmem. apply Z.leb_gt in Hcnt.
  rewrite getTotalItemCount_sizes in Hcnt. rewrite currentMemoryBytes_sizes in Hmem.
  pose proof (sumZ_nonneg _ Hm) as Hmnn.
  pose proof (calculateDataSize_nonneg JSON_stringify d) as Hdnn.
  set (n := calculateDataSize JSON_stringify d) in *.
  set (item := {| data := d; size := n |}).
  set (s0 := default (newStorage id (dateNow r)) (ordmap_get (componentStorage st) id)).
  set (s1 := {| componentId := componentId s0;
                dataSources := ordmap_set (dataSources s0) sid item |}).
  assert (∃ A B o, srcSizes (componentStorage st) = A ++ o ++ B ∧
                   srcSizes (ordmap_set (componentStorage st) id s1) = A ++ [n] ++ B ∧
                   (length o ≤ 1)%nat) as (A & B & o & HA & HB & Ho).
  { destruct (itemSizes_set (dataSources s0) sid item) as (x1 & x2 & o & H1 & H2 & Hl).
    destruct (ordmap_get (componentStorage st) id) as [s|] eqn:Hg.
    - destruct (srcSizes_set_Some _ _ _ s1 Hg) as (l1 & l2 & E1 & E2).
      exists (l1 ++ x1), (x2 ++ l2), o. rewrite E1, E2. unfold itemSizes.
      subst s0 s1. simpl in *. rewrite H1, H2. split_and!; [| |done].
      + by rewrite <- !(assoc_L (++)).
      + by rewrite <- !(assoc_L (++)).
    - exists (srcSizes (componentStorage st)), [], []. rewrite srcSizes_set_None by done.
      subst s0 s1. simpl. split_and!; [by rewrite app_nil_r|done|simpl; lia]. }
  split; simpl.
  - rewrite HB. rewrite HA in Hs. apply Forall_app in Hs as [? [_ ?]%Forall_app].
    apply Forall_app. split; [done|]. by constructor.
  - apply mergedSizes_set; [done|]. by subst s1.
  - rewrite HB. rewrite HA in Hcnt. rewrite !length_app in *. simpl. lia.
  - rewrite HB. rewrite HA in Hmem, Hs. rewrite !sumZ_app in *.
    apply Forall_app in Hs as [_ [Ho' _]%Forall_app].
    pose proof (sumZ_nonneg _ Ho'). unfold sumZ at 2. simpl. lia.
Qed.

Lemma CapInv_apply op st : CapInv st → CapInv (apply JSON_stringify op st).
Proof.
  intros HC. destruct op; simpl.
  - by apply CapInv_store.
  - eapply CapInv_Shrinks; [done|apply Shrinks_getComponentData].
  - eapply CapInv_Shrinks; [done|apply Shrinks_getDataSourceData].
  - eapply CapInv_Shrinks; [done|apply Shrinks_clearComponentCache].
  - eapply CapInv_Shrinks; [done|apply Shrinks_clearComponentMergedCache].
  - eapply CapInv_Shrinks; [done|apply Shrinks_clearDataSourceCache].
  - eapply CapInv_Shrinks; [done|apply Shrinks_clearAllCache].
  - eapply CapInv_Shrinks; [done|apply Shrinks_setCacheExpiry].
  - eapply CapInv_Shrinks; [done|apply Shrinks_performCleanup].
Qed.

Lemma reachable_CapInv st : reachable JSON_stringify st → CapInv st.
Proof.
  intros (cfg & ops & ->).
  assert (∀ st, CapInv st → CapInv (run JSON_stringify ops st)) as H.
  { unfold run. induction ops as [|op ops IH]; intros st HC; [done|].
    simpl. by apply IH, CapInv_apply. }
  apply H. split; simpl; try constructor; unfold sumZ; simpl; lia.
Qed.

End Store.

End CapacityFacts.

Module VersionFacts.
Import JS JSFacts StringFacts DataWarehouse WarehouseFacts.


Lemma split_head_app sep b rest :
  head (split sep (b +:+ String sep rest)) = head (split sep b).
Proof.
  induction b as [|c b IH].
  - rewrite string_app_nil_l. simpl. by rewrite bool_decide_eq_true_2.
  - rewrite string_app_cons. cbn [split]. case_bool_decide; [done|].
    pose proof (split_nonempty sep (b +:+ String sep rest)).
    pose proof (split_nonempty sep b).
    destruct (split sep (b +:+ String sep rest)), (split sep b); try done.
    simpl in *. by simplify_eq.
Qed.

Lemma includes_char_split c s :
  includes s (String c "") = true →
  ∃ a b, s = a +:+ String c b ∧ includes a (String c "") = false.
Proof.
  induction s as [|x s IH]; [done|].
  rewrite includes_char_cons. destruct (bool_decide (c = x)) eqn:Hx; simpl.
  - apply bool_decide_eq_true in Hx as <-. intros _. by exists "", s.
  - intros Hs. destruct (IH Hs) as (a & b & -> & Ha).
    exists (String x a), b. split; [done|]. by rewrite includes_char_cons, Hx, Ha.
Qed.

Section Versions.
Variable JSON_stringify : Value → option string.
Abbreviation generateDataVersion := (DataWarehouse.generateDataVersion JSON_stringify).

(** With a hyphen in the component id, the timestamp read back from a
    version token is a function of the id. *)
Lemma extractTimestamp_hyphenated id now rnd d :
  includes id "-" = true →
  ∃ a b, id = a +:+ String "-" b ∧ includes a "-" = false ∧
    extractTimestampFromVersion (generateDataVersion id now rnd d)
    = default 0 (head (split "-" b) ≫= parseInt).
Proof.
  intros (a & b & -> & Ha)%includes_char_split. exists a, b. split_and!; [done..|].
  unfold extractTimestampFromVersion, DataWarehouse.generateDataVersion.
  rewrite !(string_app_cons "-" ""), !string_app_nil_l.
  rewrite !string_app_assoc, !string_app_cons.
  rewrite split_app by done.
  pose proof (split_nonempty "-"
    (b +:+ String "-" (numberToString now +:+
       String "-" (calculateDataHash JSON_stringify rnd d)))) as Hne.
  pose proof (split_head_app "-" b (numberToString now +:+
       String "-" (calculateDataHash JSON_stringify rnd d))) as Hh.
  destruct (split "-" (b +:+ _)) as [|h t]; [done|].
  rewrite bool_decide_eq_true_2 by (simpl; lia).
  simpl in *. by rewrite <- Hh.
Qed.

Lemma latest_apply op st id v :
  componentLatestVersions (apply JSON_stringify op st) !! id = Some v →
  componentLatestVersions st !! id = Some v ∨ ∃ now rnd d, v = generateDataVersion id now rnd d.
Proof.
  destruct op as [r cid sid d ty ce|now cid|now cid sid|cid|cid|cid sid| |ms|now]; simpl.
  - unfold storeComponentData.
    destruct (negb _); [by left|]. destruct (shouldRejectStorage _ _); [by left|]. simpl.
    destruct (decide (cid = id)) as [->|Hne].
    + rewrite lookup_insert_eq. intros [= <-]. right. by eexists _, _, _.
    + rewrite lookup_insert_ne by done. by left.
  - unfold getComponentData. simpl.
    destruct (ordmap_get _ _) as [s|]; [|by left].
    destruct (match mergedData s with Some _ => _ | None => _ end); [by left|].
    destruct (collectSources _ _ _). by destruct (negb _); left.
  - unfold getDataSourceData.
    destruct (ordmap_get _ _) as [s|]; [|by left].
    destruct (ordmap_get _ _) as [i|]; [|by left].
    by destruct (isExpired _ _); left.
  - unfold clearComponentCache. by destruct (ordmap_get _ _); left.
  - unfold clearComponentMergedCache. by destruct (ordmap_get _ _); left.
  - unfold clearDataSourceCache. destruct (ordmap_get _ _); [|by left].
    by destruct (ordmap_has _ _); left.
  - by left.
  - by left.
  - unfold performCleanup. intros H. left. revert H.
    assert (∀ items s, componentLatestVersions (evict items s) = componentLatestVersions s) as He.
    { unfold evict. induction items as [|a items IH]; intros s; simpl; [done|].
      rewrite IH. unfold clearDataSourceCache. destruct (ordmap_get _ _); [|done].
      by destruct (ordmap_has _ _). }
    destruct (memoryPressure _); [rewrite He|]; done.
Qed.

Lemma reachable_latest st id v :
  reachable JSON_stringify st →
  componentLatestVersions st !! id = Some v →
  ∃ now rnd d, v = generateDataVersion id now rnd d.
Proof.
  intros (cfg & ops & ->). unfold run.
  induction ops as [|op ops IH] using rev_ind; simpl; [done|].
  rewrite foldl_app. simpl. intros [H|H]%latest_apply; auto.
Qed.

End Versions.
End VersionFacts.

Module WarehouseExtras.
Import JS JSFacts DataWarehouse WarehouseFacts WarehouseStats CapacityFacts VersionFacts Samples.

Section Reads.
Variable JSON_stringify : Value → option string.

Abbreviation storeComponentData := (DataWarehouse.storeComponentData JSON_stringify).
Abbreviation getComponentData := (DataWarehouse.getComponentData JSON_stringify).
Abbreviation generateDataVersion := (DataWarehouse.generateDataVersion JSON_stringify).
Abbreviation storeAccepted := (DataWarehouse.storeAccepted JSON_stringify).

(** What an accepted [storeComponentData] leaves under its key. *)
Lemma entryAt_store r id sid d ty ce st :
  storeAccepted r id d st = true →
  ∃ item,
    entryAt (storeComponentData r id sid d ty ce st) id sid = Some item ∧
    data item = d ∧
    expiresAt item = Some (expiryFor (config st) (dateNow r) ce) ∧
    accessCount item = 0 ∧
    mergedAt (storeComponentData r id sid d ty ce st) id = None.
Proof.
  intros Hacc. unfold DataWarehouse.storeAccepted in Hacc.
  apply andb_true_iff in Hacc as [Hv Hm]. apply negb_true_iff in Hm.
  unfold DataWarehouse.storeComponentData, entryAt, mergedAt. rewrite Hv, Hm. simpl.
  rewrite ordmap_get_set_eq. simpl. rewrite ordmap_get_set_eq.
  eexists. split_and!; reflexivity.
Qed.

(** X1: what an accepted [storeComponentData] wrote under a key is what
    [getDataSourceData] reads back for that key, at any time up to the
    expiry of the entry. *)
Theorem stored_data_read_back r id sid d ty ce st now :
  storeAccepted r id d st = true →
  now ≤ expiryFor (config st) (dateNow r) ce →
  (getDataSourceData now id sid (storeComponentData r id sid d ty ce st)).1 = d.
Proof.
  intros Hacc Hnow.
  destruct (entryAt_store r id sid d ty ce st Hacc) as (item & He & Hd & Hx & _).
  unfold entryAt in He. unfold getDataSourceData.
  destruct (ordmap_get (componentStorage _) id) as [storage|]; [|done].
  simpl in He. rewrite He. unfold isExpired. rewrite Hx.
  by rewrite (proj2 (Z.ltb_ge _ _)) by done.
Qed.


(** Filling an object from keys other than [__proto__] leaves its
    prototype alone. *)
Lemma obj_proto_foldl_assign {A} (f : A → Value) (l : ordmap A) (o : PlainObject) :
  ordmap_get l "__proto__" = None →
  obj_proto (foldl (λ acc kv, assign acc kv.1 (f kv.2)) o l) = obj_proto o.
Proof.
  revert o. induction l as [|[k0 v0] l IH]; intros o; csimpl; [done|].
  case_bool_decide as Hk; [done|]. intros Hl. rewrite IH by done.
  unfold assign. by rewrite bool_decide_eq_false_2.
Qed.

(** The rebuild of [getComponentData]: the object of the entries that have
    not expired at [now]. *)
Lemma getComponentData_rebuild now id st storage :
  NoDup (dataSources storage).*1 →
  ordmap_get (componentStorage st) id = Some storage →
  (∀ m, mergedData storage = Some m → isExpired now m = true) →
  let live := filter (λ kv, isExpired now kv.2 = false) (dataSources storage) in
  ∃ cd,
    (∀ k, k ≠ "__proto__" → ordmap_get (obj_own cd) k = data <$> ordmap_get live k) ∧
    (ordmap_get live "__proto__" = None → obj_proto cd = ObjectPrototype) ∧
    (getComponentData now id st).1 = if bool_decide (live = []) then VNull else unwrapComplete cd.
Proof.
  intros Hnd Hg Hm live.
  exists (foldl (λ acc kv, assign acc kv.1 (data kv.2)) emptyObject live). split_and!.
  - intros k Hk. rewrite obj_own_foldl_assign; [|done|by apply ordmap_filter_NoDup].
    by destruct (ordmap_get live k).
  - intros Hp. by rewrite obj_proto_foldl_assign.
  - unfold DataWarehouse.getComponentData. simpl. rewrite Hg.
    assert (match mergedData storage with
            | Some m => if negb (isExpired now m) then Some m else None
            | None => None
            end = None) as ->.
    { destruct (mergedData storage) as [m|]; [|done]. by rewrite (Hm m). }
    rewrite collectSources_spec. fold live.
    destruct live as [|x live']; [done|].
    by repeat case_bool_decide.
Qed.

(** X2: an accepted write is visible to the next [getComponentData]: the
    merged view was dropped by the write, so for a component without a
    source named [complete] or [__proto__] the call returns the object of
    the unexpired sources by source id, with the written data under its
    own id. *)
Theorem store_then_getComponentData r id sid d ty ce st now :
  Inv st →
  storeAccepted r id d st = true →
  now ≤ expiryFor (config st) (dateNow r) ce →
  sid ≠ "complete" → sid ≠ "__proto__" →
  entryAt st id "complete" = None →
  entryAt st id "__proto__" = None →
  ∃ cd,
    (getComponentData now id (storeComponentData r id sid d ty ce st)).1 = VObj cd ∧
    ordmap_get cd sid = Some d ∧
    ∀ k, k ≠ sid → k ≠ "__proto__" →
      ordmap_get cd k
      = data <$> (entryAt st id k ≫= λ item, if isExpired now item then None else Some item).
Proof.
  intros HI Hacc Hnow Hsid Hsidp Hc Hp.
  pose proof (Inv_store JSON_stringify r id sid d ty ce st HI) as HI'.
  destruct (entryAt_store r id sid d ty ce st Hacc) as (item & He & Hd & Hx & _ & Hm).
  set (st' := storeComponentData r id sid d ty ce st) in *.
  unfold entryAt, mergedAt in He, Hm.
  destruct (ordmap_get (componentStorage st') id) as [storage'|] eqn:Hg; [|done].
  simpl in He, Hm.
  destruct (getComponentData_rebuild now id st' storage') as (cd & Hcd & Hproto & Hres).
  { apply (inv_storage _ HI' _ _ Hg). }
  { done. }
  { by rewrite Hm. }
  assert (isExpired now item = false) as Hlive.
  { unfold isExpired. rewrite Hx. by apply Z.ltb_ge. }
  set (live := filter (λ kv, isExpired now kv.2 = false) (dataSources storage')) in *.
  assert (NoDup (dataSources storage').*1) as Hnd by apply (inv_storage _ HI' _ _ Hg).
  assert (ordmap_get live sid = Some item) as Hls by by apply ordmap_get_filter_intro.
  assert (∀ k, k ≠ sid → ordmap_get (dataSources storage') k = entryAt st id k) as Hother.
  { intros k Hk. revert Hg. subst st'. unfold DataWarehouse.storeAccepted in Hacc.
    apply andb_true_iff in Hacc as [Hv Hmm]. apply negb_true_iff in Hmm.
    unfold DataWarehouse.storeComponentData, entryAt. rewrite Hv, Hmm. simpl.
    rewrite ordmap_get_set_eq. intros [= <-]. simpl.
    rewrite ordmap_get_set_ne by done.
    by destruct (ordmap_get (componentStorage st) id). }
  assert (∀ k, ordmap_get live k
               = ordmap_get (dataSources storage') k
                 ≫= λ item, if isExpired now item then None else Some item) as Hlive_get.
  { intros k. destruct (ordmap_get live k) as [i|] eqn:Hk.
    - apply ordmap_get_filter_Some in Hk as [-> Hi]; [|done]. simpl in *. by rewrite Hi.
    - destruct (ordmap_get (dataSources storage') k) as [i|] eqn:Hk'; [|done]. simpl.
      destruct (isExpired now i) eqn:Hi; [done|].
      pose proof (ordmap_get_filter_intro (λ kv, isExpired now kv.2 = false) _ k i Hnd Hk' Hi)
        as Hin.
      fold live in Hin. congruence. }
  exists (obj_own cd). split_and!.
  - rewrite Hres. rewrite bool_decide_eq_false_2.
    2: { intros Hnil. by rewrite Hnil in Hls. }
    unfold unwrapComplete, inObject, ordmap_has.
    rewrite Hproto by (by rewrite Hlive_get, Hother, Hp by done).
    rewrite Hcd, Hlive_get, Hother, Hc by done. done.
  - rewrite Hcd, Hls by done. simpl. by rewrite Hd.
  - intros k Hk Hkp. by rewrite Hcd, Hlive_get, Hother.
Qed.

(** A read of one source leaves the merged view of its component alone. *)
Lemma mergedAt_getDataSourceData now id sid st :
  mergedAt (getDataSourceData now id sid st).2 id = mergedAt st id.
Proof.
  unfold mergedAt, getDataSourceData.
  destruct (ordmap_get (componentStorage st) id) as [storage|] eqn:Hg; simpl;
    [|by rewrite Hg].
  destruct (ordmap_get (dataSources storage) sid) as [item|]; simpl; [|by rewrite Hg].
  destruct (isExpired now item); simpl; by rewrite ordmap_get_set_eq.
Qed.

(** X3: a [getComponentData] that returns data leaves a merged view holding
    it. On every warehouse in which the component has that view, or one
    with the same data, unexpired, [getComponentData] returns the data
    again without looking at the source entries: so after reads of single
    sources, which delete the entries that have expired. (A store or a
    clear for the component drops the view.) *)
Theorem merged_view_served_until_expiry now id st :
  (getComponentData now id st).1 ≠ VNull →
  ∃ m,
    mergedAt (getComponentData now id st).2 id = Some m ∧
    data m = (getComponentData now id st).1 ∧
    (∀ st' m' now',
       mergedAt st' id = Some m' → data m' = data m → isExpired now' m' = false →
       (getComponentData now' id st').1 = (getComponentData now id st).1) ∧
    (∀ now1 sid now',
       isExpired now' m = false →
       (getComponentData now' id
          (getDataSourceData now1 id sid (getComponentData now id st).2).2).1
       = (getComponentData now id st).1).
Proof.
  assert (∀ st' m' now',
            mergedAt st' id = Some m' → isExpired now' m' = false →
            (getComponentData now' id st').1 = data m') as Hserve.
  { intros st' m' now' Hm He. unfold mergedAt in Hm.
    destruct (ordmap_get (componentStorage st') id) as [storage'|] eqn:Hg; [|done].
    simpl in Hm. unfold DataWarehouse.getComponentData. simpl. by rewrite Hg, Hm, He. }
  destruct (getComponentData now id st) as [v st1] eqn:Hget. simpl. intros Hv.
  assert (∃ m, mergedAt st1 id = Some m ∧ data m = v) as (m & Hm1 & Hd1).
  { revert Hget. unfold DataWarehouse.getComponentData, mergedAt. simpl.
    destruct (ordmap_get (componentStorage st) id) as [storage|] eqn:Hg.
    2: { intros [= <- <-]. done. }
    destruct (match mergedData storage with
              | Some m => if negb (isExpired now m) then Some m else None
              | None => None
              end) as [m|] eqn:Hcached; simpl.
    - intros [= <- <-]. exists (touch now m). simpl.
      rewrite ordmap_get_set_eq. split; reflexivity.
    - destruct (collectSources now (dataSources storage) emptyObject) as [cd kept].
      case_bool_decide; simpl; intros [= <- <-]; [done|].
      eexists. simpl. rewrite ordmap_get_set_eq. split; reflexivity. }
  exists m. split_and!; [done..| |].
  - intros st' m' now' Hm' Hd' He. rewrite (Hserve st' m' now') by done. congruence.
  - intros now1 sid now' He. rewrite (Hserve _ m now'); [done| |done].
    by rewrite mergedAt_getDataSourceData.
Qed.


(** X4: [getDataSourceData] on an expired entry returns [null] and deletes
    the entry, and only that: the merged view of the component and the
    notifiers are left as they were. *)
Theorem expired_entry_dropped_on_read now id sid st item :
  entryAt st id sid = Some item →
  isExpired now item = true →
  (getDataSourceData now id sid st).1 = VNull ∧
  entryAt (getDataSourceData now id sid st).2 id sid = None ∧
  mergedAt (getDataSourceData now id sid st).2 id = mergedAt st id ∧
  componentChangeNotifiers (getDataSourceData now id sid st).2 = componentChangeNotifiers st.
Proof.
  unfold entryAt, mergedAt, getDataSourceData. intros He Hx.
  destruct (ordmap_get (componentStorage st) id) as [storage|] eqn:Hg; [|done].
  simpl in He. rewrite He, Hx. simpl.
  rewrite ordmap_get_set_eq. simpl. by rewrite ordmap_get_delete_eq.
Qed.

(** X5: clearing does not reset the version tracking. After an accepted
    write for a component (id without a hyphen), [clearComponentCache] and
    [clearAllCache] empty the component, and a write whose clock reads less
    than the accepted one is still dropped: the component stays empty. *)
Theorem version_tracking_survives_clear r1 r2 id sid1 sid2 d1 d2 ty1 ty2 ce1 ce2 st :
  includes id "-" = false →
  storeAccepted r1 id d1 st = true →
  0 ≤ versionNow r2 < versionNow r1 →
  let stored := storeComponentData r1 id sid1 d1 ty1 ce1 st in
  (storeComponentData r2 id sid2 d2 ty2 ce2 (clearComponentCache id stored)
   = clearComponentCache id stored ∧
   entryAt (clearComponentCache id stored) id sid2 = None) ∧
  (storeComponentData r2 id sid2 d2 ty2 ce2 (clearAllCache stored) = clearAllCache stored ∧
   entryAt (clearAllCache stored) id sid2 = None).
Proof.
  intros Hid Hacc Hclock stored.
  assert (componentLatestVersions stored !! id
          = Some (generateDataVersion id (versionNow r1) (randomHash r1) d1)) as Hlatest.
  { subst stored. unfold DataWarehouse.storeAccepted in Hacc.
    apply andb_true_iff in Hacc as [Hv Hm]. apply negb_true_iff in Hm.
    unfold DataWarehouse.storeComponentData. rewrite Hv, Hm. simpl.
    by rewrite lookup_insert_eq. }
  assert (∀ st', componentLatestVersions st' = componentLatestVersions stored →
            storeComponentData r2 id sid2 d2 ty2 ce2 st' = st') as Hdrop.
  { intros st' Heq.
    eapply (store_rejected_below_latest JSON_stringify).
    - rewrite Heq. exact Hlatest.
    - apply generateDataVersion_nonempty.
    - rewrite !(extractTimestamp_generateDataVersion JSON_stringify) by (done || lia). lia. }
  split; split.
  - apply Hdrop. unfold clearComponentCache.
    by destruct (ordmap_get (componentStorage stored) id).
  - unfold entryAt, clearComponentCache.
    destruct (ordmap_get (componentStorage stored) id) eqn:Hg; simpl.
    + by rewrite ordmap_get_delete_eq.
    + by rewrite Hg.
  - by apply Hdrop.
  - done.
Qed.

(** X6: for a component id without a hyphen and a clock value that is not
    negative, [extractTimestampFromVersion] reads back from the token of
    [generateDataVersion] the clock value it was made with. *)
Theorem version_timestamp_round_trip id now rnd d :
  includes id "-" = false → 0 ≤ now →
  extractTimestampFromVersion (generateDataVersion id now rnd d) = now.
Proof. apply extractTimestamp_generateDataVersion. Qed.

End Reads.
(** X7: with a hyphen in the component id the version check never
    rejects: on every warehouse the operations reach, a write for such a
    component passes [shouldAcceptData] whatever its clock reads. *)
Theorem hyphenated_id_never_rejected JSON_stringify st id now rnd d :
  reachable JSON_stringify st →
  includes id "-" = true →
  shouldAcceptData st id (DataWarehouse.generateDataVersion JSON_stringify id now rnd d) = true.
Proof.
  intros Hr Hid. unfold shouldAcceptData.
  destruct (componentLatestVersions st !! id) as [latest|] eqn:Hl; [|done].
  case_bool_decide; [done|].
  destruct (reachable_latest JSON_stringify st id latest Hr Hl) as (now' & rnd' & d' & ->).
  destruct (extractTimestamp_hyphenated JSON_stringify id now rnd d Hid) as (a & b & Hab & Ha & ->).
  destruct (extractTimestamp_hyphenated JSON_stringify id now' rnd' d' Hid)
    as (a' & b' & Hab' & Ha' & ->).
  assert (b = b') as <-; [|by apply Z.leb_le].
  clear -Hab Hab' Ha Ha'. subst id. revert a' Hab' Ha'.
  induction a as [|x a IH]; intros [|x' a'] Heq Ha';
    rewrite ?string_app_cons, ?string_app_nil_l in Heq.
  - by injection Heq.
  - injection Heq as <- _.
    rewrite includes_char_cons in Ha'. by rewrite bool_decide_eq_true_2 in Ha'.
  - injection Heq as -> _.
    rewrite includes_char_cons in Ha. by rewrite bool_decide_eq_true_2 in Ha.
  - injection Heq as _ Heq. rewrite includes_char_cons in Ha, Ha'.
    apply orb_false_iff in Ha as [_ Ha]. apply orb_false_iff in Ha' as [_ Ha'].
    by apply (IH Ha a').
Qed.


(** X8: the limits of the configuration hold for the source entries. On
    every warehouse the operations reach, [getStorageStats] reports at most
    [maxStorageItems] source entries and at most [maxMemoryUsage] megabytes
    of source data (nothing, when a limit is not positive). *)
Theorem capacity_limits_respected JSON_stringify st :
  reachable JSON_stringify st →
  totalDataSources (getStorageStats st) ≤ Z.max 0 (maxStorageItems (config st)) ∧
  0 ≤ totalSize (getStorageStats st) ≤ Z.max 0 (maxMemoryUsage (config st) * bytesPerMB).
Proof.
  intros [Hs Hm Hc Hb]%reachable_CapInv.
  destruct (getStorageStats_totals st) as [-> ->].
  split_and!; [done| |done]. by apply sumZ_nonneg.
Qed.


(** A value stored at 100 and read at 200. *)
Lemma stored_data_read_back_witness :
  (getDataSourceData 200 "w1" "s1"
     (storeComponentData stringify (readsAt 100) "w1" "s1" (VNum 1) "static" None
        (newWarehouse defaultConfig))).1 = VNum 1.
Proof.
  apply (stored_data_read_back stringify (readsAt 100) "w1" "s1" (VNum 1) "static" None
           (newWarehouse defaultConfig) 200).
  - vm_compute. reflexivity.
  - vm_compute. discriminate.
Defined.

(** A second source written next to the cached first one. *)
Lemma store_then_getComponentData_witness :
  ∃ cd,
    (getComponentData stringify 200 "w1"
       (storeComponentData stringify (readsAt 150) "w1" "s2" (VNum 2) "static" None stored1)).1
    = VObj cd ∧
    ordmap_get cd "s2" = Some (VNum 2) ∧
    ordmap_get cd "s1" = Some (VNum 1).
Proof.
  destruct (store_then_getComponentData stringify (readsAt 150) "w1" "s2" (VNum 2) "static"
              None stored1 200) as (cd & Hres & Hnew & Hold).
  - apply reachable_Inv with (JSON_stringify := stringify).
    exists defaultConfig,
      [OpStore (readsAt 100) "w1" "s1" (VNum 1) "static" None; OpGetComponentData 100 "w1"].
    reflexivity.
  - vm_compute. reflexivity.
  - vm_compute. discriminate.
  - discriminate.
  - discriminate.
  - vm_compute. reflexivity.
  - vm_compute. reflexivity.
  - exists cd. split; [exact Hres|]. split; [exact Hnew|].
    rewrite (Hold "s1") by discriminate. vm_compute. reflexivity.
Defined.

(** The merged view cached at 100 is served at 300000, after a read at
    2000 has deleted the source entry, which was stored with an expiry of
    1000 ms. *)
Lemma merged_view_served_until_expiry_witness :
  let st := storeComponentData stringify (readsAt 100) "w1" "s1" (VNum 1) "static" (Some 1000)
              (newWarehouse defaultConfig) in
  let cached := (getComponentData stringify 100 "w1" st).2 in
  entryAt (getDataSourceData 2000 "w1" "s1" cached).2 "w1" "s1" = None ∧
  (getComponentData stringify 300000 "w1" (getDataSourceData 2000 "w1" "s1" cached).2).1
  = VObj [("s1", VNum 1)].
Proof.
  intros st cached. split; [vm_compute; reflexivity|]. subst cached.
  destruct (merged_view_served_until_expiry stringify 100 "w1" st)
    as (m & Hm & Hd & _ & Hserve).
  - vm_compute. discriminate.
  - rewrite (Hserve 2000 "s1" 300000).
    + vm_compute. reflexivity.
    + vm_compute in Hm. injection Hm as <-. vm_compute. reflexivity.
Defined.

(** The entry of the crowded warehouse, read after its expiry. *)
Lemma expired_entry_dropped_on_read_witness :
  (getDataSourceData 400000 "w1" "old" crowded).1 = VNull ∧
  (data <$> mergedAt (getDataSourceData 400000 "w1" "old" crowded).2 "w1")
  = Some (VObj [("old", VStr "old"); ("recent", VStr "recent")]).
Proof.
  destruct (expired_entry_dropped_on_read 400000 "w1" "old" crowded
              (payloadItem "w1" "old" 400000 1 10)) as (Hnull & _ & Hmerged & _).
  - vm_compute. reflexivity.
  - vm_compute. reflexivity.
  - split; [exact Hnull|]. rewrite Hmerged. vm_compute. reflexivity.
Defined.

(** A write stamped 50 after a write stamped 100 and a clear. *)
Lemma version_tracking_survives_clear_witness :
  let stored := storeComponentData stringify (readsAt 100) "w1" "s1" (VNum 1) "static" None
                  (newWarehouse defaultConfig) in
  entryAt (storeComponentData stringify (readsAt 50) "w1" "s1" (VNum 2) "static" None
             (clearAllCache stored)) "w1" "s1" = None.
Proof.
  intros stored.
  destruct (version_tracking_survives_clear stringify (readsAt 100) (readsAt 50) "w1" "s1" "s1"
              (VNum 1) (VNum 2) "static" "static" None None (newWarehouse defaultConfig))
    as [_ [Hdrop Hnone]].
  - vm_compute. reflexivity.
  - vm_compute. reflexivity.
  - simpl. lia.
  - fold stored in Hdrop, Hnone. rewrite Hdrop. exact Hnone.
Defined.

Lemma version_timestamp_round_trip_witness :
  extractTimestampFromVersion
    (generateDataVersion stringify "w1" 1700000000000 "p0o9i8u7y" (VNum 1))
  = 1700000000000.
Proof.
  apply (version_timestamp_round_trip stringify "w1" 1700000000000 "p0o9i8u7y" (VNum 1)).
  - vm_compute. reflexivity.
  - vm_compute. discriminate.
Defined.

(** A write stamped 50 for "w-1" after one stamped 100. *)
Lemma hyphenated_id_never_rejected_witness :
  shouldAcceptData
    (storeComponentData stringify (readsAt 100) "w-1" "s1" (VNum 1) "static" None
       (newWarehouse defaultConfig))
    "w-1" (generateDataVersion stringify "w-1" 50 "p0o9i8u7y" (VNum 2)) = true.
Proof.
  apply (hyphenated_id_never_rejected stringify).
  - exists defaultConfig, [OpStore (readsAt 100) "w-1" "s1" (VNum 1) "static" None].
    reflexivity.
  - vm_compute. reflexivity.
Defined.

Lemma capacity_limits_respected_witness :
  totalDataSources (getStorageStats stored1) ≤ 1000 ∧
  0 ≤ totalSize (getStorageStats stored1) ≤ 100 * 1024 * 1024.
Proof.
  destruct (capacity_limits_respected stringify stored1) as [Hcount Hbytes].
  - exists defaultConfig,
      [OpStore (readsAt 100) "w1" "s1" (VNum 1) "static" None; OpGetComponentData 100 "w1"].
    reflexivity.
  - split; [exact Hcount|exact Hbytes].
Defined.

End WarehouseExtras.

(** ** DataItemFetcher: keys, requests, binding paths *)

Module FetcherExtras.
Import JS JSFacts StringFacts DataItemFetcher FetcherClaims Samples MoreSamples.

Section Dedup.
Variable convertValue : Value → string → Value.
Variable JSON_stringify : Value → string.

Abbreviation generateRequestKey := (DataItemFetcher.generateRequestKey convertValue JSON_stringify).
Abbreviation fetchHttpData := (DataItemFetcher.fetchHttpData convertValue JSON_stringify).
Abbreviation step := (DataItemFetcher.step convertValue JSON_stringify).
Abbreviation steps := (DataItemFetcher.steps convertValue JSON_stringify).

Lemma timers_due_step es T ev f :
  (∀ now cfg, ev = Call now cfg → now ≤ T) →
  (∀ t, t ∈ timers f → t.1 ≤ T + REQUEST_CACHE_TTL) →
  ∀ t, t ∈ timers (step es ev f) → t.1 ≤ T + REQUEST_CACHE_TTL.
Proof.
  intros Hev Hf t. destruct ev as [now cfg|now|now p]; simpl.
  - unfold DataItemFetcher.fetchHttpData.
    destruct (generateRequestKey es cfg) as [k|]; [|by apply Hf].
    destruct (requestCache f !! k); [by apply Hf|]. simpl.
    intros [Hin|Hin]%elem_of_app; [by apply Hf|].
    apply list_elem_of_singleton in Hin as ->. simpl. specialize (Hev now cfg eq_refl). lia.
  - intros [_ Hin]%list_elem_of_filter. by apply Hf.
  - by apply Hf.
Qed.

(** X9: the table of pending requests does not leak. Whatever was called,
    settled or cleaned up before, once the event loop runs the cleanup
    timers 200 ms after the last call the table is empty. *)
Theorem request_cache_drains es evs T :
  (∀ now cfg, Call now cfg ∈ evs → now ≤ T) →
  requestCache (runTimers (T + REQUEST_CACHE_TTL) (steps es evs newFetcher)) = ∅.
Proof.
  intros Hev.
  assert (FetcherInv (steps es evs newFetcher) ∧
          ∀ t, t ∈ timers (steps es evs newFetcher) → t.1 ≤ T + REQUEST_CACHE_TTL)
    as [[Hnd Hiff] Hdue].
  { unfold DataItemFetcher.steps.
    induction evs as [|ev evs IH] using rev_ind; simpl.
    - split; [apply FetcherInv_new|]. by intros t ?%elem_of_nil.
    - rewrite foldl_app. simpl.
      destruct IH as [HI Hd].
      { intros now cfg Hin. apply (Hev now cfg), elem_of_app. by left. }
      split; [by apply FetcherInv_step|].
      apply timers_due_step; [|done]. intros now cfg ->.
      apply (Hev now cfg), elem_of_app. right. by apply list_elem_of_singleton. }
  apply map_eq. intros k. rewrite lookup_empty. simpl. rewrite runTimers_cache.
  case_decide as Hex; [done|].
  destruct (requestCache (steps es evs newFetcher) !! k) as [p|] eqn:Hc; [|done].
  exfalso. apply Hex.
  assert (k ∈ (timers (steps es evs newFetcher)).*2) as Hin by (apply Hiff; by eexists).
  apply list_elem_of_fmap in Hin as ([t k'] & -> & Hin).
  apply Exists_exists. exists (t, k'). split; [done|]. split; [done|].
  by apply (Hdue (t, k')).
Qed.

End Dedup.

Lemma compareStrings_spec a b :
  (compareStrings a b ≤ 0 ↔ String.compare a b ≠ Gt) ∧
  (0 < compareStrings a b ↔ String.compare a b = Gt).
Proof. unfold compareStrings. destruct (String.compare a b); split; split; (done || lia). Qed.

Lemma compareStrings_total a b : 0 < compareStrings a b → compareStrings b a ≤ 0.
Proof.
  rewrite (proj2 (compareStrings_spec a b)), (proj1 (compareStrings_spec b a)).
  rewrite (String.compare_antisym a b). by destruct (String.compare b a).
Qed.

Lemma compareStrings_trans a b c :
  compareStrings a b ≤ 0 → compareStrings b c ≤ 0 → compareStrings a c ≤ 0.
Proof.
  rewrite !(proj1 (compareStrings_spec _ _)). intros Hab Hbc.
  destruct (String.compare a b) eqn:E1; [|clear Hab|done].
  { apply String.compare_eq_iff in E1 as ->. done. }
  destruct (String.compare b c) eqn:E2; [|clear Hbc|done].
  { apply String.compare_eq_iff in E2 as <-. by rewrite E1. }
  apply OrderedTypeEx.String_as_OT.cmp_lt in E1, E2.
  pose proof (OrderedTypeEx.String_as_OT.lt_trans _ _ _ E1 E2) as E3.
  apply OrderedTypeEx.String_as_OT.cmp_lt in E3.
  unfold OrderedTypeEx.String_as_OT.cmp in E3. by rewrite E3.
Qed.

Lemma compareStrings_antisym a b :
  compareStrings a b ≤ 0 → compareStrings b a ≤ 0 → a = b.
Proof.
  rewrite !(proj1 (compareStrings_spec _ _)). rewrite (String.compare_antisym b a).
  destruct (String.compare a b) eqn:E; [|done..].
  intros _ _. by apply String.compare_eq_iff.
Qed.

(** Sorting with the default comparison forgets the order of the input. *)
Lemma sortBy_compareStrings_Permutation l l' :
  l ≡ₚ l' → sortBy compareStrings l = sortBy compareStrings l'.
Proof.
  intros Hp.
  apply (StronglySorted_unique_strong (λ a b, compareStrings a b ≤ 0)).
  - intros x1 x2 _ _. apply compareStrings_antisym.
  - apply sortBy_StronglySorted; [apply compareStrings_total|apply compareStrings_trans].
  - apply sortBy_StronglySorted; [apply compareStrings_total|apply compareStrings_trans].
  - by rewrite !sortBy_Permutation.
Qed.

Lemma natDigits_length_le fuel radix n acc k :
  1 < radix → 0 ≤ n < radix ^ Z.of_nat (S k) →
  (String.length (natDigits fuel radix n acc) ≤ S k + String.length acc)%nat.
Proof.
  intros Hr. revert n acc k. induction fuel as [|fuel IH]; intros n acc k Hn; simpl; [lia|].
  destruct (Z.eqb_spec (n / radix) 0) as [Hq|Hq]; simpl; [lia|].
  destruct k as [|k].
  { exfalso. apply Hq. apply Z.div_small. change (Z.of_nat 1) with 1 in Hn. lia. }
  specialize (IH (n / radix) (String (digitChar (n mod radix)) acc) k).
  simpl String.length in IH. etrans; [apply IH|lia].
  split; [apply Z.div_pos; lia|].
  apply Z.div_lt_upper_bound; [lia|].
  rewrite (Nat2Z.inj_succ (S k)), Z.pow_succ_r in Hn by lia. lia.
Qed.

Lemma natDigits_length_ge fuel radix n acc :
  (String.length acc ≤ String.length (natDigits fuel radix n acc))%nat.
Proof.
  revert n acc. induction fuel as [|fuel IH]; intros n acc; simpl; [lia|].
  destruct (n / radix =? 0); simpl; [lia|].
  etrans; [|apply IH]. simpl. lia.
Qed.

Lemma toInt32_range x : - 2 ^ 31 ≤ toInt32 x < 2 ^ 31.
Proof.
  unfold toInt32. pose proof (Z.mod_pos_bound x (2 ^ 32) ltac:(lia)).
  destruct (Z.ltb_spec (x mod 2 ^ 32) (2 ^ 31)); lia.
Qed.

Lemma hashLoop_range s h : - 2 ^ 31 ≤ h < 2 ^ 31 → - 2 ^ 31 ≤ hashLoop s h < 2 ^ 31.
Proof.
  revert h. induction s as [|c s IH]; intros h Hh; simpl; [done|].
  apply IH, toInt32_range.
Qed.

Lemma simpleHash_length str : (1 ≤ String.length (simpleHash str) ≤ 6)%nat.
Proof.
  unfold simpleHash. case_bool_decide; [simpl; lia|].
  pose proof (hashLoop_range str 0 ltac:(lia)) as Hh.
  unfold toStringRadix. rewrite (proj2 (Z.ltb_ge _ _)) by lia.
  split.
  - cbn [natDigits]. destruct (_ =? 0); simpl; [lia|].
    etrans; [|apply natDigits_length_ge]. simpl. lia.
  - etrans; [apply (natDigits_length_le _ 36 _ "" 5)|simpl; lia]; [lia|].
    change (36 ^ Z.of_nat 6) with 2176782336. lia.
Qed.

Section Keys.
Variable convertValue : Value → string → Value.
Variable JSON_stringify : Value → string.

Abbreviation generateRequestKey := (DataItemFetcher.generateRequestKey convertValue JSON_stringify).
Abbreviation keyParts := (DataItemFetcher.keyParts convertValue).
Abbreviation keyComponent := (DataItemFetcher.keyComponent convertValue).

Lemma active_Permutation l l' : l ≡ₚ l' → active l ≡ₚ active l'.
Proof.
  unfold active. induction 1 as [|x l l' _ IH|x y l|l1 l2 l3 _ IH1 _ IH2]; simpl.
  - done.
  - destruct (enabled x && _); [by constructor|done].
  - destruct (enabled x && _), (enabled y && _); (done || by constructor).
  - by etrans.
Qed.

Lemma keyParts_Permutation es l l' parts :
  l ≡ₚ l' → keyParts es l = Normal parts →
  ∃ parts', keyParts es l' = Normal parts' ∧ parts ≡ₚ parts'.
Proof.
  intros Hp. revert parts.
  induction Hp as [|x l l' _ IH|x y l|l1 l2 l3 _ IH1 _ IH2]; intros parts; simpl.
  - intros [= <-]. by exists [].
  - destruct (resolveParameterValue convertValue es x) as [v|]; [|done].
    destruct (keyParts es l) as [r|]; [|done]. intros [= <-].
    destruct (IH r eq_refl) as (r' & -> & Hr). eexists. split; [done|]. by constructor.
  - destruct (resolveParameterValue convertValue es x) as [vx|];
      destruct (resolveParameterValue convertValue es y) as [vy|]; try done.
    destruct (keyParts es l) as [r|]; [|done]. intros [= <-].
    eexists. split; [done|]. apply Permutation_swap.
  - intros H1. destruct (IH1 _ H1) as (p2 & H2 & Hp2).
    destruct (IH2 _ H2) as (p3 & H3 & Hp3). exists p3. split; [done|]. by etrans.
Qed.

Lemma keyComponent_Permutation es label o o' c :
  option_Forall2 (≡ₚ) o o' →
  keyComponent es label o = Normal c → keyComponent es label o' = Normal c.
Proof.
  unfold DataItemFetcher.keyComponent. intros [l l' Hp|]; [|done].
  destruct l as [|x l].
  { apply Permutation_nil_l in Hp as ->. done. }
  destruct l' as [|x' l'].
  { by apply Permutation_nil_r in Hp. }
  cbn [nonEmpty].
  destruct (keyParts es (active (x :: l))) as [parts|] eqn:Hk; [|done].
  destruct (keyParts_Permutation es (active (x :: l)) (active (x' :: l')) parts)
    as (parts' & -> & Hpp); [by apply active_Permutation|done|].
  intros [= <-]. by rewrite (sortBy_compareStrings_Permutation parts parts').
Qed.

(** X10: the request key does not depend on the order in which the
    parameters are listed: two configurations with the same method, url and
    body whose parameter lists are permutations of each other get the same
    key. *)
Theorem request_key_ignores_parameter_order es cfg cfg' k :
  method cfg' = method cfg →
  url cfg' = url cfg →
  body cfg' = body cfg →
  option_Forall2 (≡ₚ) (pathParams cfg) (pathParams cfg') →
  option_Forall2 (≡ₚ) (params cfg) (params cfg') →
  option_Forall2 (≡ₚ) (parameters cfg) (parameters cfg') →
  generateRequestKey es cfg = Normal k →
  generateRequestKey es cfg' = Normal k.
Proof.
  intros Hm Hu Hb Hpp Hq Hu'. unfold DataItemFetcher.generateRequestKey.
  rewrite Hm, Hu, Hb.
  destruct (keyComponent es "path:" (pathParams cfg)) as [kp|] eqn:H1; [|done].
  rewrite (keyComponent_Permutation es _ _ _ kp Hpp H1).
  destruct (keyComponent es "query:" (params cfg)) as [kq|] eqn:H2; [|done].
  rewrite (keyComponent_Permutation es _ _ _ kq Hq H2).
  destruct (keyComponent es "unified:" (parameters cfg)) as [ku|] eqn:H3; [|done].
  by rewrite (keyComponent_Permutation es _ _ _ ku Hu' H3).
Qed.


(** X11: a request key is the text [http_] followed by one to six
    characters, however long the url and the parameters are. *)
Theorem request_key_is_short es cfg k :
  generateRequestKey es cfg = Normal k →
  ∃ h, k = "http_" +:+ h ∧ (1 ≤ String.length h ≤ 6)%nat.
Proof.
  unfold DataItemFetcher.generateRequestKey.
  destruct (keyComponent es "path:" (pathParams cfg)); [|done].
  destruct (keyComponent es "query:" (params cfg)); [|done].
  destruct (keyComponent es "unified:" (parameters cfg)); [|done].
  intros [= <-]. eexists. split; [done|]. apply simpleHash_length.
Qed.

End Keys.

Lemma split_no_sep sep s : includes s (String sep "") = false → split sep s = [s].
Proof.
  induction s as [|c s IH]; [done|]. rewrite includes_char_cons.
  intros [Hc Hs]%orb_false_iff. apply bool_decide_eq_false in Hc.
  cbn [split]. rewrite bool_decide_eq_false_2 by congruence. by rewrite IH.
Qed.


(** [s.split(sep).join(sep)] is [s]. *)
Lemma join_split sep s : join (String sep "") (split sep s) = s.
Proof.
  induction s as [|c s IH]; [done|]. cbn [split].
  pose proof (split_nonempty sep s) as Hne.
  case_bool_decide as Hc.
  - subst c. destruct (split sep s) as [|h t]; [done|].
    cbn [join]. cbn [join] in IH. by rewrite IH.
  - destruct (split sep s) as [|h t]; [done|].
    destruct t as [|h' t]; cbn [join] in *; [by rewrite IH|].
    by rewrite string_app_cons, IH.
Qed.

Lemma includes_app_sep a sep b : includes (a +:+ String sep b) (String sep "") = true.
Proof.
  induction a as [|x a IH].
  - rewrite string_app_nil_l, includes_char_cons. by rewrite bool_decide_eq_true_2.
  - rewrite string_app_cons, includes_char_cons, IH. apply orb_true_r.
Qed.

(** X14: [getNestedProperty] walks a dotted path key by key: reading
    [k.p] is reading [p] from what reading [k] gives, for a key [k] and a
    path [p] that are not empty. *)
Theorem getNestedProperty_compose obj k p :
  k ≠ "" → includes k "." = false → p ≠ "" →
  getNestedProperty obj (k +:+ "." +:+ p) = getNestedProperty (getNestedProperty obj k) p.
Proof.
  intros Hk Hdot Hp. unfold getNestedProperty.
  set (step := λ (current : option Value) (key : string),
         current ≫= λ c, if truthy c && typeofObject c && hasProp c key
                         then Some (getProp c key) else None).
  assert (∀ l, foldl step None l = None) as Hnone by (by induction l).
  rewrite (string_app_cons "." ""), string_app_nil_l.
  rewrite split_app, (split_no_sep _ k) by done.
  assert (k +:+ String "." p ≠ "") as Hkp.
  { destruct k; [done|]. by rewrite string_app_cons. }
  rewrite (bool_decide_eq_false_2 _ Hkp), (bool_decide_eq_false_2 _ Hk),
    (bool_decide_eq_false_2 _ Hp).
  rewrite !orb_false_r. simpl.
  destruct (truthy obj) eqn:Hobj; simpl; [|done].
  destruct (typeofObject obj && hasProp obj k); simpl.
  - destruct (truthy (getProp obj k)) eqn:Hv; simpl; [done|].
    pose proof (split_nonempty "." p). destruct (split "." p) as [|q qs]; [done|].
    simpl. rewrite Hv. simpl. by rewrite Hnone.
  - by rewrite Hnone.
Qed.

(** X15: a binding path [id.path] is read as the component id before its
    first dot and the property path after it, dots included: the value is
    the nested property [path] of the first node of the editor with that
    id, and [undefined] when there is none. *)
Theorem binding_path_parsed es id path :
  includes id "." = false →
  getComponentPropertyValue es (id +:+ "." +:+ path)
  = match List.find (λ n, bool_decide (node_id n = id)) (default [] (nodes es)) with
    | Some targetComponent => getNestedProperty (properties targetComponent) path
    | None => VUndefined
    end.
Proof.
  intros Hid. unfold getComponentPropertyValue.
  rewrite (string_app_cons "." ""), string_app_nil_l.
  rewrite includes_app_sep, split_app by done. simpl.
  assert (id +:+ String "." path ≠ "") as Hne.
  { destruct id; [done|]. by rewrite string_app_cons. }
  rewrite (bool_decide_eq_false_2 _ Hne).
  simpl. by rewrite (join_split ".").
Qed.

Lemma startsWith_app p s : startsWith p (p +:+ s) = true.
Proof.
  induction p as [|c p IH]; [done|]. rewrite string_app_cons. simpl.
  by rewrite bool_decide_eq_true_2.
Qed.

Lemma dropString_app p s : dropString (String.length p) (p +:+ s) = s.
Proof. induction p as [|c p IH]; [done|]. by rewrite string_app_cons. Qed.

Lemma replaceFrom_app before a c pat b rep :
  includes a (String c "") = false →
  includes (a +:+ String c pat +:+ b) (String c pat) = true ∧
  replaceFrom before (a +:+ String c pat +:+ b) (String c pat) rep
  = before +:+ a +:+ expandReplacement (String c pat) (before +:+ a) b rep +:+ b.
Proof.
  revert before. induction a as [|x a IH]; intros before Ha.
  - rewrite !string_app_nil_l.
    pose proof (startsWith_app (String c pat) b) as Hs.
    pose proof (dropString_app (String c pat) b) as Hd.
    rewrite string_app_cons in *. split.
    + cbn [includes]. by rewrite Hs.
    + cbn [replaceFrom]. rewrite Hs, Hd.
      replace (before +:+ "") with before; [done|].
      clear. induction before as [|y before IH]; [done|].
      by rewrite string_app_cons, <- IH.
  - rewrite includes_char_cons in Ha. apply orb_false_iff in Ha as [Hx Ha].
    destruct (IH (before +:+ String x "") Ha) as [Hi Hr].
    rewrite !(string_app_cons x a). split.
    + cbn [includes]. rewrite Hi. apply orb_true_r.
    + cbn [replaceFrom startsWith]. rewrite Hx. simpl. rewrite Hr.
      assert (∀ z, (before +:+ String x "") +:+ z = before +:+ String x z) as Hz.
      { intros z. by rewrite string_app_assoc, string_app_cons, string_app_nil_l. }
      by rewrite !Hz.
Qed.

(** X13: a path parameter replaces the first occurrence of its
    placeholder only: the url becomes the text before the placeholder, the
    text of the value with the patterns of [String.prototype.replace]
    expanded, and the text after it, a second occurrence included. For a
    value without a dollar sign that is the text of the value itself. *)
Theorem path_placeholder_replaced_once p v a b d :
  isNull v = false →
  includes a "{" = false →
  finalUrl d = a +:+ ("{" +:+ key p +:+ "}") +:+ b →
  finalUrl (applyPathParam p v d)
  = a +:+ expandReplacement ("{" +:+ key p +:+ "}") a b (toString v) +:+ b ∧
  (includes (toString v) "$" = false →
   finalUrl (applyPathParam p v d) = a +:+ toString v +:+ b).
Proof.
  intros Hv Ha Hurl.
  assert (finalUrl (applyPathParam p v d)
          = a +:+ expandReplacement ("{" +:+ key p +:+ "}") a b (toString v) +:+ b) as Hgen.
  { unfold applyPathParam, substitute, replaceFirst. rewrite Hv, Hurl. simpl.
    rewrite !(string_app_cons "{" "") , !string_app_nil_l.
    destruct (replaceFrom_app "" a "{" (key p +:+ "}") b (toString v) Ha) as [-> Hr].
    rewrite Hr. by rewrite !string_app_nil_l. }
  split; [exact Hgen|]. intros Hplain. rewrite Hgen.
  by rewrite expandReplacement_plain.
Qed.

Section Requests.
Variable convertValue : Value → string → Value.
Variable JSON_parse : string → option Value.
Abbreviation buildRequest := (DataItemFetcher.buildRequest convertValue JSON_parse).

(** X12: a request is sent under the upper-cased method name, one of the
    five supported ones, and it carries a body only when the configured
    method is POST, PUT or PATCH written in upper case and the configured
    body is truthy: GET and DELETE never carry one, and neither does a
    method written in lower case. *)
Theorem request_method_and_body es cfg rq :
  buildRequest es cfg = Normal rq →
  rq_method rq = toUpperCase (method cfg) ∧
  rq_method rq ∈ ["GET"; "POST"; "PUT"; "PATCH"; "DELETE"] ∧
  rq_body rq =
    if bool_decide (method cfg ∈ ["POST"; "PUT"; "PATCH"]) && truthy (body cfg)
    then match body cfg with
         | VStr s => default (body cfg) (JSON_parse s)
         | b => b
         end
    else VUndefined.
Proof.
  unfold DataItemFetcher.buildRequest.
  destruct (applyParameters convertValue es cfg) as [d|]; [|done].
  case_bool_decide as Hm; [|done]. intros [= <-]. simpl.
  split_and!; [done..|]. unfold requestBody.
  destruct (decide (method cfg ∈ ["POST"; "PUT"; "PATCH"])) as [Hin|Hnin].
  - rewrite (bool_decide_eq_true_2 _ Hin).
    assert (toUpperCase (method cfg) = method cfg) as Hup.
    { apply list_elem_of_In in Hin. simpl in Hin.
      by destruct Hin as [<-|[<-|[<-|[]]]]. }
    rewrite Hup, (bool_decide_eq_true_2 _ Hin).
    assert (method cfg ∈ ["POST"; "PUT"; "PATCH"; "DELETE"]) as Hfour.
    { apply list_elem_of_In. apply list_elem_of_In in Hin. simpl in *. tauto. }
    by rewrite (bool_decide_eq_true_2 _ Hfour).
  - rewrite (bool_decide_eq_false_2 _ Hnin). simpl.
    case_bool_decide as Hup; [|done].
    case_bool_decide as Hfour; [|done]. exfalso.
    rewrite list_elem_of_In in Hnin. apply list_elem_of_In in Hfour, Hup. simpl in *.
    destruct Hfour as [E|[E|[E|[E|[]]]]]; [tauto..|].
    rewrite <- E in Hup. by destruct Hup as [?|[?|[?|[]]]].
Qed.

End Requests.

(** Two identical calls, the second at 120 ms; the timers run at 320 ms. *)
Lemma request_cache_drains_witness :
  requestCache
    (runTimers 320
       (steps convert stringifyBody noEditor
          [Call 0 telemetry; Settle 50 0%nat; Call 120 telemetry] newFetcher))
  = ∅.
Proof.
  apply (request_cache_drains convert stringifyBody noEditor
           [Call 0 telemetry; Settle 50 0%nat; Call 120 telemetry] 120).
  intros now cfg Hin. apply list_elem_of_In in Hin. simpl in Hin.
  destruct Hin as [H|[H|[H|[]]]]; inversion H; lia.
Defined.

Lemma request_key_ignores_parameter_order_witness :
  generateRequestKey convert stringifyBody noEditor telemetrySwapped = Normal "http_ofe4r6".
Proof.
  apply (request_key_ignores_parameter_order convert stringifyBody noEditor telemetry
           telemetrySwapped "http_ofe4r6").
  - reflexivity.
  - reflexivity.
  - reflexivity.
  - constructor. reflexivity.
  - constructor. apply Permutation_swap.
  - constructor.
  - vm_compute. reflexivity.
Defined.

Lemma request_key_is_short_witness :
  ∃ h, "http_ofe4r6" = "http_" +:+ h ∧ (1 ≤ String.length h ≤ 6)%nat.
Proof.
  apply (request_key_is_short convert stringifyBody noEditor telemetry "http_ofe4r6").
  vm_compute. reflexivity.
Defined.

Lemma getNestedProperty_compose_witness :
  getNestedProperty (VObj [("customize", VObj [("deviceId", VStr "d1")])])
    "customize.deviceId"
  = getNestedProperty
      (getNestedProperty (VObj [("customize", VObj [("deviceId", VStr "d1")])]) "customize")
      "deviceId".
Proof.
  apply (getNestedProperty_compose (VObj [("customize", VObj [("deviceId", VStr "d1")])])
           "customize" "deviceId").
  - discriminate.
  - vm_compute. reflexivity.
  - discriminate.
Defined.

Lemma binding_path_parsed_witness :
  getComponentPropertyValue oneNode "n1.customize.deviceId" = VStr "d1".
Proof.
  change "n1.customize.deviceId" with ("n1" +:+ "." +:+ "customize.deviceId").
  rewrite (binding_path_parsed oneNode "n1" "customize.deviceId").
  - vm_compute. reflexivity.
  - vm_compute. reflexivity.
Defined.

(** The url names the device twice; the second placeholder stays. In the
    value [a$&b] the pattern stands for the placeholder. *)
Lemma path_placeholder_replaced_once_witness :
  finalUrl
    (applyPathParam (param "id" (VStr "42") VUndefined "string") (VStr "42")
       {| finalUrl := "/api/{id}/alias/{id}"; queryParams := emptyObject;
          draftHeaders := None |})
  = "/api/42/alias/{id}" ∧
  finalUrl
    (applyPathParam (param "id" (VStr "a$&b") VUndefined "string") (VStr "a$&b")
       {| finalUrl := "/api/{id}/alias/{id}"; queryParams := emptyObject;
          draftHeaders := None |})
  = "/api/a{id}b/alias/{id}".
Proof.
  split.
  - apply (path_placeholder_replaced_once (param "id" (VStr "42") VUndefined "string")
             (VStr "42") "/api/" "/alias/{id}").
    + reflexivity.
    + vm_compute. reflexivity.
    + reflexivity.
    + vm_compute. reflexivity.
  - destruct (path_placeholder_replaced_once (param "id" (VStr "a$&b") VUndefined "string")
                (VStr "a$&b") "/api/" "/alias/{id}"
                {| finalUrl := "/api/{id}/alias/{id}"; queryParams := emptyObject;
                   draftHeaders := None |}) as [Hgen _].
    + reflexivity.
    + vm_compute. reflexivity.
    + reflexivity.
    + rewrite Hgen. vm_compute. reflexivity.
Defined.

(** A method written in lower case is sent as POST, without its body. *)
Lemma request_method_and_body_witness :
  ∃ rq, buildRequest convert (λ _, None) noEditor lowerCasePost = Normal rq ∧
        rq_method rq = "POST" ∧ rq_body rq = VUndefined.
Proof.
  destruct (buildRequest convert (λ _, None) noEditor lowerCasePost) as [rq|e] eqn:Hrq.
  - exists rq. split; [reflexivity|].
    destruct (request_method_and_body convert (λ _, None) noEditor lowerCasePost rq Hrq)
      as (Hm & _ & Hb).
    rewrite Hm, Hb. vm_compute. split; reflexivity.
  - vm_compute in Hrq. discriminate Hrq.
Defined.

End FetcherExtras.

(** ** The built-in executors, the transform steps and the batch entry *)

Module ExecutorExtras.
Import JS JSFacts StringFacts UnifiedDataExecutor BuiltinExecutors Samples MoreSamples.

Section Builtin.
Variable JSON_stringify : Value → option string.
Variable JSON_parse : string → Value + string.
Variable request : RequestOptions → Completion Value.

Abbreviation builtinExecutors := (BuiltinExecutors.builtinExecutors JSON_stringify JSON_parse request).
Abbreviation StaticExecutor := (BuiltinExecutors.StaticExecutor JSON_stringify).
Abbreviation JsonExecutor := (BuiltinExecutors.JsonExecutor JSON_parse).
Abbreviation HttpExecutor := (BuiltinExecutors.HttpExecutor JSON_stringify request).

Lemma builtinExecutors_lookup now ty :
  builtinExecutors now !! ty =
    if decide (ty = "websocket") then Some (WebSocketExecutor now)
    else if decide (ty = "json") then Some (JsonExecutor now)
    else if decide (ty = "static") then Some (StaticExecutor now)
    else if decide (ty = "http") then Some (HttpExecutor now)
    else None.
Proof.
  unfold BuiltinExecutors.builtinExecutors, newExecutors, registerExecutor. simpl.
  rewrite !lookup_insert, lookup_empty.
  repeat case_decide; congruence.
Qed.

Lemma caught_Normal now cfg e fallback code :
  e ≠ VUndefined → e ≠ VNull →
  ∃ msg, caught now cfg e fallback code = Normal (failure now cfg msg code).
Proof. unfold caught, messageOr. destruct e; try done; by eexists. Qed.

Lemma extractByPathValue_throw data path e :
  extractByPathValue data path = Throw e → e = typeError.
Proof. unfold extractByPathValue. destruct path; congruence. Qed.

Lemma mapEntries_throw data es r e : mapEntries data es r = Throw e → e = typeError.
Proof.
  revert r. induction es as [|[k v] es IH]; intros r; simpl; [done|].
  destruct (extractByPathValue data v) eqn:Hx; [apply IH|].
  intros [= <-]. by eapply extractByPathValue_throw.
Qed.

Lemma matchesFilter_throw item es e : matchesFilter item es = Throw e → e = typeError.
Proof.
  induction es as [|[k v] es IH]; simpl; [done|].
  destruct (getMember item k) as [x|e'] eqn:Hm.
  - destruct (negb _); [done|apply IH].
  - intros [= <-]. unfold getMember in Hm. destruct item; congruence.
Qed.

Lemma filterItems_throw items es e : filterItems items es = Throw e → e = typeError.
Proof.
  induction items as [|item items IH]; simpl; [done|].
  destruct (matchesFilter item es) eqn:Hm.
  - destruct (filterItems items es); [done|]. intros [= <-]. by apply IH.
  - intros [= <-]. by eapply matchesFilter_throw.
Qed.

Lemma applyTransform_throw data transform e :
  applyTransform data transform = Throw e → e = typeError.
Proof.
  unfold applyTransform. destruct (negb (truthy transform)); [done|].
  destruct (if truthy (getProp transform "path") then _ else _) as [r1|e1] eqn:H1.
  2: { intros [= <-]. destruct (truthy _); [|done]. by eapply extractByPathValue_throw. }
  destruct (if truthy (getProp transform "mapping") then _ else _) as [r2|e2] eqn:H2.
  2: { intros [= <-]. destruct (truthy (getProp transform "mapping")); [|done].
       unfold applyMapping in H2. destruct (_ || _); [done|].
       destruct (mapEntries _ _ _) eqn:Hm; [done|]. injection H2 as <-.
       by eapply mapEntries_throw. }
  destruct (truthy (getProp transform "filter")); [|done].
  unfold applyFilter. destruct r2; try done.
  destruct (filterItems _ _) eqn:Hf; [done|]. intros [= <-]. by eapply filterItems_throw.
Qed.

(** What [execute] settles to over the built-in executors. *)
Lemma builtin_execute_result now now' cfg :
  (∀ opts e, request opts = Throw e → e ≠ VUndefined ∧ e ≠ VNull) →
  ∃ r, execute (builtinExecutors now) now' cfg = Normal r ∧
       sourceId r = id cfg ∧
       ((success r = true ∧ errorCode r = None) ∨
        (success r = false ∧
         ∃ code, errorCode r = Some code ∧
           code ∈ ["DATA_SOURCE_DISABLED"; "UNSUPPORTED_DATA_SOURCE"; "HTTP_NO_URL";
                   "HTTP_REQUEST_FAILED"; "STATIC_DATA_ERROR"; "JSON_NO_CONTENT";
                   "JSON_PARSE_ERROR"; "WS_NO_URL"])).
Proof.
  intros Hreq.
  assert (∀ code msg t,
            code ∈ ["DATA_SOURCE_DISABLED"; "UNSUPPORTED_DATA_SOURCE"; "HTTP_NO_URL";
                    "HTTP_REQUEST_FAILED"; "STATIC_DATA_ERROR"; "JSON_NO_CONTENT";
                    "JSON_PARSE_ERROR"; "WS_NO_URL"] →
            sourceId (failure t cfg msg code) = id cfg ∧
            ((success (failure t cfg msg code) = true ∧
              errorCode (failure t cfg msg code) = None) ∨
             (success (failure t cfg msg code) = false ∧
              ∃ code', errorCode (failure t cfg msg code) = Some code' ∧
                code' ∈ ["DATA_SOURCE_DISABLED"; "UNSUPPORTED_DATA_SOURCE"; "HTTP_NO_URL";
                         "HTTP_REQUEST_FAILED"; "STATIC_DATA_ERROR"; "JSON_NO_CONTENT";
                         "JSON_PARSE_ERROR"; "WS_NO_URL"]))) as Hf.
  { intros code msg t Hin. split; [done|]. right. split; [done|]. exists code. by split. }
  unfold execute. destruct (negb (default true (enabled cfg))).
  { eexists. split; [done|]. apply Hf. apply list_elem_of_In. simpl. tauto. }
  rewrite builtinExecutors_lookup.
  repeat case_decide.
  - simpl. destruct (negb (truthy _)).
    + eexists. split; [done|]. apply Hf. apply list_elem_of_In. simpl. tauto.
    + eexists. split; [done|]. split; [done|]. by left.
  - simpl. destruct (negb (truthy _)).
    { eexists. split; [done|]. apply Hf. apply list_elem_of_In. simpl. tauto. }
    destruct (JSON_parse _) as [v|msg].
    + eexists. split; [done|]. split; [done|]. by left.
    + destruct (caught_Normal now cfg (mkError msg) "JSON解析失败" "JSON_PARSE_ERROR")
        as (m & ->); [done..|].
      eexists. split; [done|]. apply Hf. apply list_elem_of_In. simpl. tauto.
  - simpl. unfold measured. destruct (JSON_stringify _).
    + eexists. split; [done|]. split; [done|]. by left.
    + destruct (caught_Normal now cfg typeError "静态数据处理失败" "STATIC_DATA_ERROR")
        as (m & ->); [done..|].
      eexists. split; [done|]. apply Hf. apply list_elem_of_In. simpl. tauto.
  - simpl. destruct (negb (truthy _)).
    { eexists. split; [done|]. apply Hf. apply list_elem_of_In. simpl. tauto. }
    destruct (httpAttempt JSON_stringify request cfg) as [t|e] eqn:Ha.
    { eexists. split; [done|]. split; [done|]. by left. }
    assert (e ≠ VUndefined ∧ e ≠ VNull) as [He1 He2].
    { revert Ha. unfold httpAttempt.
      destruct (orDefault _ _); try by intros [= <-].
      destruct (request _) as [response|e'] eqn:Hr.
      2: { intros [= <-]. by eapply Hreq. }
      destruct response; try by intros [= <-].
      all: destruct (applyTransform _ _) eqn:Ht;
        [unfold measured; destruct (JSON_stringify _); [done|by intros [= <-]]|
         intros [= <-]; by apply applyTransform_throw in Ht as ->]. }
    destruct (caught_Normal now cfg e "请求失败" "HTTP_REQUEST_FAILED") as (m & ->); [done..|].
    eexists. split; [done|]. apply Hf. apply list_elem_of_In. simpl. tauto.
  - eexists. split; [done|]. apply Hf. apply list_elem_of_In. simpl. tauto.
Qed.


(** X16: with the executors the constructor registers, the promise of
    [execute] never rejects as long as [request] does not reject with
    [null] or [undefined]: it fulfils with a result that carries the id of
    the configuration and is either a success without an error code or a
    failure under one of eight codes. [EXECUTOR_EXCEPTION] is not among
    them. *)
Theorem builtin_execute_never_rejects now now' cfg :
  (∀ opts e, request opts = Throw e → e ≠ VUndefined ∧ e ≠ VNull) →
  ∃ r, execute (builtinExecutors now) now' cfg = Normal r ∧
       sourceId r = id cfg ∧
       ((success r = true ∧ errorCode r = None) ∨
        (success r = false ∧
         ∃ code, errorCode r = Some code ∧
           code ∈ ["DATA_SOURCE_DISABLED"; "UNSUPPORTED_DATA_SOURCE"; "HTTP_NO_URL";
                   "HTTP_REQUEST_FAILED"; "STATIC_DATA_ERROR"; "JSON_NO_CONTENT";
                   "JSON_PARSE_ERROR"; "WS_NO_URL"])).
Proof. apply builtin_execute_result. Qed.

(** X19: an answer of [request] without a [data] field makes the HTTP
    executor report [HTTP_REQUEST_FAILED], although the request itself
    succeeded: the size of the data is read off [JSON.stringify], which
    gives no text for [undefined]. *)
Theorem http_response_without_data_fails now cfg response :
  JSON_stringify VUndefined = None →
  truthy (getProp (VObj (config cfg)) "url") = true →
  (∀ opts, request opts = Normal response) →
  getProp response "data" = VUndefined →
  ∃ msg, ex_execute (HttpExecutor now) cfg
         = Normal (failure now cfg msg "HTTP_REQUEST_FAILED").
Proof.
  intros Hs Hurl Hreq Hd. cbn [ex_execute BuiltinExecutors.HttpExecutor].
  rewrite Hurl. cbn [negb].
  assert (httpAttempt JSON_stringify request cfg = Throw typeError) as ->.
  { unfold httpAttempt. destruct (orDefault _ _); try done.
    rewrite Hreq. destruct response; try done.
    all: rewrite Hd; unfold measured; rewrite Hs.
    all: destruct (applyTransform _ _) eqn:Ht; [done|].
    all: by apply applyTransform_throw in Ht as ->. }
  by apply caught_Normal.
Qed.

(** X18: only the HTTP executor transforms its data: a [transform] in the
    configuration of a static or a JSON source changes nothing of what
    the executor returns. *)
Theorem static_and_json_ignore_transform now cfg t :
  let cfg' := {| id := id cfg; type := type cfg; enabled := enabled cfg;
                 config := ordmap_set (config cfg) "transform" t |} in
  ex_execute (StaticExecutor now) cfg' = ex_execute (StaticExecutor now) cfg ∧
  ex_execute (JsonExecutor now) cfg' = ex_execute (JsonExecutor now) cfg.
Proof.
  intros cfg'. simpl. rewrite !ordmap_get_set_ne by done. split.
  - destruct (measured _ _); [done|]. unfold caught. by destruct (messageOr _ _).
  - destruct (negb _); [done|]. destruct (JSON_parse _); [done|].
    unfold caught. by destruct (messageOr _ _).
Qed.

(** X17: [executeMultiple] over the built-in executors returns one result
    per configuration, at the position of the configuration: it is what
    [execute] fulfils with for it and carries its id, and
    [BATCH_EXECUTION_ERROR] is never reported. *)
Theorem executeMultiple_positional now now' configs :
  (∀ opts e, request opts = Throw e → e ≠ VUndefined ∧ e ≠ VNull) →
  length (executeMultiple (builtinExecutors now) now' configs) = length configs ∧
  ∀ i cfg, configs !! i = Some cfg →
    ∃ r, executeMultiple (builtinExecutors now) now' configs !! i = Some r ∧
         execute (builtinExecutors now) now' cfg = Normal r ∧
         sourceId r = id cfg ∧
         errorCode r ≠ Some "BATCH_EXECUTION_ERROR".
Proof.
  intros Hreq. unfold executeMultiple. split; [apply length_map|].
  intros i cfg Hi.
  destruct (builtin_execute_result now now' cfg Hreq) as (r & Hr & Hid & Hcode).
  exists r. split_and!; [|done..|].
  - change (map ?f ?l) with (f <$> l). rewrite list_lookup_fmap, Hi.
    cbv [fmap option_fmap option_map]. cbv beta. by rewrite Hr.
  - destruct Hcode as [[_ ->]|(_ & code & -> & Hin)]; [done|].
    intros [= ->]. apply list_elem_of_In in Hin. simpl in Hin.
    by repeat destruct Hin as [?|Hin].
Qed.

End Builtin.

(** *** extractByPath and applyFilter *)

(** [split] at each separator: the parts of [a + sep + b] are the parts of
    [a] followed by the parts of [b]. *)
Lemma split_app_full sep a b :
  split sep (a +:+ String sep b) = split sep a ++ split sep b.
Proof.
  induction a as [|c a IH].
  - rewrite string_app_nil_l. simpl. by rewrite bool_decide_eq_true_2.
  - rewrite string_app_cons. cbn [split]. case_bool_decide; [by rewrite IH|].
    rewrite IH. pose proof (split_nonempty sep a). by destruct (split sep a).
Qed.

(** X21: [extractByPath] composes along the dots of its path: extracting
    [p.q] is extracting [q] from what extracting [p] gives, a miss on the
    way ([null]) included. *)
Theorem extractByPath_compose data p q :
  extractByPath data (p +:+ "." +:+ q) = extractByPath (extractByPath data p) q.
Proof.
  unfold extractByPath.
  set (step := λ (result : option Value) (key : string),
         result ≫= λ r, if truthy r && typeofObject r && hasProp r key
                        then Some (getProp r key) else None).
  assert (∀ l, foldl step None l = None) as Hnone by (by induction l).
  rewrite (string_app_cons "." ""), string_app_nil_l, split_app_full, foldl_app.
  destruct (foldl step (Some data) (split "." p)) as [v|]; [done|]. simpl.
  rewrite Hnone. pose proof (split_nonempty "." q). destruct (split "." q); [done|].
  simpl. by rewrite Hnone.
Qed.

Lemma matchesFilter_spec item es :
  item ≠ VUndefined → item ≠ VNull →
  ∃ x, getMember item = (λ k, Normal (x k)) ∧
       matchesFilter item es = Normal (forallb (λ kv, strictEquals (x kv.1) kv.2) es).
Proof.
  intros H1 H2.
  assert (∃ x, getMember item = λ k, Normal (x k)) as [x Hx].
  { unfold getMember. destruct item; try done; by eexists. }
  exists x. split; [done|]. induction es as [|[k v] es IH]; simpl; [done|].
  rewrite Hx. simpl. destruct (strictEquals (x k) v); simpl; [apply IH|done].
Qed.

(** X22: on an array without [null] or [undefined] items [applyFilter]
    returns, in their order, exactly the items of which, for every entry
    of the filter, the member under the key is strictly equal to the value
    of the entry; filtering the result again changes nothing. *)
Theorem applyFilter_keeps_matching items flt :
  Forall (λ item, item ≠ VUndefined ∧ item ≠ VNull) items →
  ∃ kept,
    applyFilter (VArr items) flt = Normal (VArr kept) ∧
    kept `sublist_of` items ∧
    (∀ item,
       item ∈ kept ↔
       item ∈ items ∧
       ∀ key value, (key, value) ∈ entries flt →
         ∃ x, getMember item key = Normal x ∧ strictEquals x value = true) ∧
    applyFilter (VArr kept) flt = Normal (VArr kept).
Proof.
  intros Hall. unfold applyFilter.
  set (keep := λ item, match matchesFilter item (entries flt) with
                       | Normal true => true
                       | _ => false
                       end).
  assert (∀ l, Forall (λ item, item ≠ VUndefined ∧ item ≠ VNull) l →
            filterItems l (entries flt) = Normal (List.filter keep l)) as Hfilter.
  { induction 1 as [|item l [H1 H2] _ IH]; [done|].
    cbn [filterItems List.filter].
    destruct (matchesFilter_spec item (entries flt) H1 H2) as (x & _ & Hm).
    assert (keep item = forallb (λ kv, strictEquals (x kv.1) kv.2) (entries flt)) as Hk.
    { unfold keep. rewrite Hm. by destruct (forallb _ _). }
    by rewrite Hm, IH, Hk. }
  assert (∀ item, item ∈ items →
            keep item = true ↔
            ∀ key value, (key, value) ∈ entries flt →
              ∃ x, getMember item key = Normal x ∧ strictEquals x value = true) as Hkeep.
  { intros item Hin. rewrite Forall_forall in Hall. destruct (Hall item Hin) as [H1 H2].
    destruct (matchesFilter_spec item (entries flt) H1 H2) as (x & Hx & Hm).
    unfold keep. rewrite Hm, Hx.
    transitivity (forallb (λ kv, strictEquals (x kv.1) kv.2) (entries flt) = true).
    { by destruct (forallb _ _). }
    rewrite forallb_forall. split.
    - intros Hf key value Hkv. exists (x key). split; [done|].
      apply list_elem_of_In in Hkv. exact (Hf _ Hkv).
    - intros Hf [key value] Hkv. apply list_elem_of_In in Hkv.
      destruct (Hf key value Hkv) as (y & [= <-] & Hy). exact Hy. }
  exists (List.filter keep items). rewrite Hfilter by done. split_and!.
  - done.
  - clear. induction items as [|x l IH]; simpl; [done|].
    destruct (keep x); [by apply sublist_skip|by apply sublist_cons].
  - intros item. rewrite list_elem_of_In, filter_In, <- list_elem_of_In. split.
    + intros [Hin Hk]. split; [done|]. by apply Hkeep.
    + intros [Hin Hk]. split; [done|]. by apply Hkeep.
  - rewrite Hfilter.
    + f_equal. f_equal. clear. induction items as [|x l IH]; simpl; [done|].
      destruct (keep x) eqn:Hk; simpl; [by rewrite Hk, IH|done].
    + rewrite Forall_forall in *. intros x Hx. apply Hall.
      apply list_elem_of_In in Hx. apply filter_In in Hx as [Hx _].
      by apply list_elem_of_In.
Qed.

(** X23: a filter that has an object or an array as one of its criteria
    keeps no item at all: the comparison is [!==], which no value of the
    data passes against an object of the configuration. *)
Theorem applyFilter_object_criterion items flt key value :
  Forall (λ item, item ≠ VUndefined ∧ item ≠ VNull) items →
  (key, value) ∈ entries flt →
  typeofObject value = true → value ≠ VNull →
  applyFilter (VArr items) flt = Normal (VArr []).
Proof.
  intros Hall Hin Hobj Hnn. unfold applyFilter.
  assert (filterItems items (entries flt) = Normal []) as ->; [|done].
  induction Hall as [|item l [H1 H2] _ IH]; simpl; [done|].
  destruct (matchesFilter_spec item (entries flt) H1 H2) as (x & _ & ->).
  rewrite IH.
  assert (forallb (λ kv, strictEquals (x kv.1) kv.2) (entries flt) = false) as ->; [|done].
  apply not_true_is_false. rewrite forallb_forall. intros Hf.
  apply list_elem_of_In in Hin. specialize (Hf _ Hin). simpl in Hf.
  destruct value; try done; by destruct (x key).
Qed.


(** *** Through the bridge *)

Section Bridge.
Variable JSON_stringify : Value → option string.
Variable JSON_parse : string → Value + string.
Variable request : RequestOptions → Completion Value.
Variable storeStringify : Value → option string.

(** X20: a data source of a type without a registered executor ([file]
    and [data-source-bindings], which the conversion lists, included) makes
    [executeDataSource] throw the error of the unsupported type; its slot
    of the merged result is [null], and nothing is stored for it. *)
Theorem unregistered_types_yield_null now now' componentId ds r acc :
  SimpleDataBridge.type ds ∉ ["http"; "static"; "json"; "websocket"] →
  SimpleDataBridge.executeDataSource
    (BuiltinExecutors.builtinExecutors JSON_stringify JSON_parse request now) now' ds
  = Throw (mkError ("不支持的数据源类型: " +:+ SimpleDataBridge.type ds)) ∧
  SimpleDataBridge.slot
    (BuiltinExecutors.builtinExecutors JSON_stringify JSON_parse request now) now' ds
  = VNull ∧
  SimpleDataBridge.settleSource storeStringify
    (BuiltinExecutors.builtinExecutors JSON_stringify JSON_parse request now) now'
    componentId ds r acc
  = (assign acc.1 (SimpleDataBridge.id ds) VNull, acc.2).
Proof.
  intros Hty.
  assert (SimpleDataBridge.executeDataSource
            (BuiltinExecutors.builtinExecutors JSON_stringify JSON_parse request now) now' ds
          = Throw (mkError ("不支持的数据源类型: " +:+ SimpleDataBridge.type ds))) as Hex.
  { unfold SimpleDataBridge.executeDataSource, SimpleDataBridge.convertToUnifiedConfig.
    rewrite bool_decide_eq_false_2.
    2: { intros Heq. apply Hty. rewrite Heq. apply list_elem_of_In. simpl. tauto. }
    unfold execute. cbn [enabled type default negb].
    rewrite builtinExecutors_lookup.
    repeat (case_decide;
            [exfalso; apply Hty;
             match goal with H : SimpleDataBridge.type ds = _ |- _ => rewrite H end;
             apply list_elem_of_In; simpl; tauto|]).
    done. }
  unfold SimpleDataBridge.slot, SimpleDataBridge.settleSource. by rewrite Hex.
Qed.

End Bridge.


(** *** The executors on concrete inputs *)

(** An HTTP source whose request is refused. *)
Lemma builtin_execute_never_rejects_witness :
  ∃ r, execute (BuiltinExecutors.builtinExecutors stringify parseNumeral refuse 0) 5
         (unified "a" "http" [("url", VStr "/api/temp")]) = Normal r ∧
       sourceId r = "a" ∧
       ((success r = true ∧ errorCode r = None) ∨
        (success r = false ∧
         ∃ code, errorCode r = Some code ∧
           code ∈ ["DATA_SOURCE_DISABLED"; "UNSUPPORTED_DATA_SOURCE"; "HTTP_NO_URL";
                   "HTTP_REQUEST_FAILED"; "STATIC_DATA_ERROR"; "JSON_NO_CONTENT";
                   "JSON_PARSE_ERROR"; "WS_NO_URL"])).
Proof.
  apply (builtin_execute_never_rejects stringify parseNumeral refuse 0 5
           (unified "a" "http" [("url", VStr "/api/temp")])).
  intros opts e H. injection H as <-. split; discriminate.
Defined.

Lemma executeMultiple_positional_witness :
  length (executeMultiple (BuiltinExecutors.builtinExecutors stringify parseNumeral refuse 0)
            5 batch) = 3%nat ∧
  ∀ i cfg, batch !! i = Some cfg →
    ∃ r, executeMultiple (BuiltinExecutors.builtinExecutors stringify parseNumeral refuse 0)
           5 batch !! i = Some r ∧
         execute (BuiltinExecutors.builtinExecutors stringify parseNumeral refuse 0) 5 cfg
         = Normal r ∧
         sourceId r = id cfg ∧
         errorCode r ≠ Some "BATCH_EXECUTION_ERROR".
Proof.
  apply (executeMultiple_positional stringify parseNumeral refuse 0 5 batch).
  intros opts e H. injection H as <-. split; discriminate.
Defined.

(** An answer with a status and nothing else. *)
Lemma http_response_without_data_fails_witness :
  ∃ msg, ex_execute (BuiltinExecutors.HttpExecutor stringify respondEmpty 0)
           (unified "a" "http" [("url", VStr "/api/temp")])
         = Normal (failure 0 (unified "a" "http" [("url", VStr "/api/temp")]) msg
                     "HTTP_REQUEST_FAILED").
Proof.
  apply (http_response_without_data_fails stringify respondEmpty 0
           (unified "a" "http" [("url", VStr "/api/temp")]) (VObj [("status", VNum 204)])).
  - reflexivity.
  - reflexivity.
  - intros opts. reflexivity.
  - reflexivity.
Defined.

Lemma applyFilter_keeps_matching_witness :
  ∃ kept,
    applyFilter (VArr [reading 1 true; reading 2 false]) (VObj [("ok", VBool true)])
    = Normal (VArr kept) ∧
    kept `sublist_of` [reading 1 true; reading 2 false] ∧
    (∀ item,
       item ∈ kept ↔
       item ∈ [reading 1 true; reading 2 false] ∧
       ∀ key value, (key, value) ∈ entries (VObj [("ok", VBool true)]) →
         ∃ x, getMember item key = Normal x ∧ strictEquals x value = true) ∧
    applyFilter (VArr kept) (VObj [("ok", VBool true)]) = Normal (VArr kept).
Proof.
  apply (applyFilter_keeps_matching [reading 1 true; reading 2 false]
           (VObj [("ok", VBool true)])).
  repeat (constructor; [split; discriminate|]). constructor.
Defined.

(** No reading is kept, although each of them has an empty [tags] array. *)
Lemma applyFilter_object_criterion_witness :
  applyFilter (VArr [reading 1 true; reading 2 false]) (VObj [("tags", VArr [])])
  = Normal (VArr []).
Proof.
  apply (applyFilter_object_criterion [reading 1 true; reading 2 false]
           (VObj [("tags", VArr [])]) "tags" (VArr [])).
  - repeat (constructor; [split; discriminate|]). constructor.
  - apply list_elem_of_In. simpl. tauto.
  - reflexivity.
  - discriminate.
Defined.

Lemma unregistered_types_yield_null_witness :
  SimpleDataBridge.executeDataSource
    (BuiltinExecutors.builtinExecutors stringify parseNumeral respond 0) 5
    (source "s1" "file" [("filePath", VStr "/tmp/readings.csv")])
  = Throw (mkError ("不支持的数据源类型: " +:+ "file")) ∧
  SimpleDataBridge.slot
    (BuiltinExecutors.builtinExecutors stringify parseNumeral respond 0) 5
    (source "s1" "file" [("filePath", VStr "/tmp/readings.csv")])
  = VNull ∧
  SimpleDataBridge.settleSource stringify
    (BuiltinExecutors.builtinExecutors stringify parseNumeral respond 0) 5
    "w1" (source "s1" "file" [("filePath", VStr "/tmp/readings.csv")]) (readsAt 100)
    (emptyObject, stored1)
  = (assign emptyObject "s1" VNull, stored1).
Proof.
  apply (unregistered_types_yield_null stringify parseNumeral respond stringify 0 5 "w1"
           (source "s1" "file" [("filePath", VStr "/tmp/readings.csv")]) (readsAt 100)
           (emptyObject, stored1)).
  intros H. apply list_elem_of_In in H. simpl in H.
  destruct H as [H|[H|[H|[H|[]]]]]; discriminate H.
Defined.

End ExecutorExtras.

(** ** ConfigEventBus: filters, statistics and subscriptions *)

Module EventBusExtras.
Import JS JSFacts ConfigEventBus MoreSamples.

Lemma insertFilter_position filter fs :
  StronglySorted (λ a b, priorityOf b ≤ priorityOf a) fs →
  ∃ l1 l2,
    fs = l1 ++ l2 ∧ insertFilter filter fs = l1 ++ filter :: l2 ∧
    Forall (λ g, priorityOf filter ≤ priorityOf g) l1 ∧
    Forall (λ g, priorityOf g < priorityOf filter) l2.
Proof.
  induction 1 as [|f fs Hs IH Hall]; simpl.
  - by exists [], [].
  - destruct (Z.ltb_spec (priorityOf f) (priorityOf filter)) as [Hlt|Hge].
    + exists [], (f :: fs). split_and!; [done..|].
      constructor; [done|]. eapply Forall_impl; [exact Hall|]. simpl. lia.
    + destruct IH as (l1 & l2 & -> & -> & H1 & H2).
      exists (f :: l1), l2. split_and!; [done..| |done]. by constructor.
Qed.

(** X24: whatever calls were made on a new bus, its global filters are in
    descending order of priority. *)
Theorem filters_kept_in_priority_order ops :
  StronglySorted (λ a b, priorityOf b ≤ priorityOf a) (globalFilters (runOps ops newBus)).
Proof.
  assert (∀ op bus,
            StronglySorted (λ a b, priorityOf b ≤ priorityOf a) (globalFilters bus) →
            StronglySorted (λ a b, priorityOf b ≤ priorityOf a)
              (globalFilters (applyOp op bus))) as Hstep.
  { intros op bus Hs. destruct op as [t h|u|f|n|ev|]; simpl.
    - unfold onConfigChange. by destruct (negb _).
    - done.
    - destruct (insertFilter_position f _ Hs) as (l1 & l2 & Heq & -> & H1 & H2).
      rewrite Heq in Hs. apply StronglySorted_app in Hs as (H12 & S1 & S2).
      apply StronglySorted_app. split_and!; [|done|].
      + intros x1 x2 Hx1 [->|Hx2]%elem_of_cons.
        * rewrite Forall_forall in H1. by apply H1.
        * by apply H12.
      + constructor; [done|]. eapply Forall_impl; [exact H2|]. simpl. lia.
    - induction Hs as [|f fs Hs IH Hall]; simpl; [constructor|].
      case_bool_decide; [done|]. constructor; [done|].
      clear -Hall. induction fs as [|g fs IH]; simpl; [done|].
      apply Forall_cons in Hall as [? ?].
      case_bool_decide; [done|]. constructor; auto.
    - unfold emitConfigChange. by destruct (negb _).
    - constructor. }
  unfold runOps. induction ops as [|op ops IH] using rev_ind; simpl; [constructor|].
  rewrite foldl_app. simpl. by apply Hstep.
Qed.

(** X25: [addEventFilter] puts a filter behind every filter of the same
    or a higher priority and in front of every filter of a lower one, and
    keeps the others in their places. *)
Theorem filter_goes_behind_its_equals filter bus :
  StronglySorted (λ a b, priorityOf b ≤ priorityOf a) (globalFilters bus) →
  ∃ l1 l2,
    globalFilters bus = l1 ++ l2 ∧
    globalFilters (addEventFilter filter bus) = l1 ++ filter :: l2 ∧
    Forall (λ g, priorityOf filter ≤ priorityOf g) l1 ∧
    Forall (λ g, priorityOf g < priorityOf filter) l2.
Proof. apply insertFilter_position. Qed.

(** X26: an event passes the global filters unless some filter answers
    [false]; a filter that throws lets it through. So the order of the
    filters does not matter for the outcome. *)
Theorem filters_fail_open event fs :
  (passesGlobalFilters event fs = true ↔
   ∀ f, f ∈ fs → condition f event ≠ Normal false) ∧
  (∀ fs', fs ≡ₚ fs' → passesGlobalFilters event fs' = passesGlobalFilters event fs).
Proof.
  assert (∀ l, passesGlobalFilters event l = true ↔
               ∀ f, f ∈ l → condition f event ≠ Normal false) as Hiff.
  { induction l as [|f l IH]; simpl.
    - split; [|done]. by intros _ f ?%elem_of_nil.
    - destruct (condition f event) as [[|]|e] eqn:Hc.
      + rewrite IH. split.
        * intros H g [->|Hg]%elem_of_cons; [by rewrite Hc|by apply H].
        * intros H g Hg. apply H. by right.
      + split; [done|]. intros H. exfalso. apply (H f); [by left|done].
      + rewrite IH. split.
        * intros H g [->|Hg]%elem_of_cons; [by rewrite Hc|by apply H].
        * intros H g Hg. apply H. by right. }
  split; [apply Hiff|]. intros fs' Hp.
  apply eq_true_iff_eq. rewrite !Hiff. by setoid_rewrite Hp.
Qed.

(** X27: removing a filter by its name right after adding it gives the
    filter list back, when no other filter carries that name. *)
Theorem remove_undoes_add filter bus :
  Forall (λ g, name g ≠ name filter) (globalFilters bus) →
  globalFilters (removeEventFilter (name filter) (addEventFilter filter bus))
  = globalFilters bus.
Proof.
  simpl. induction 1 as [|f fs Hf _ IH]; simpl.
  - by rewrite bool_decide_eq_true_2.
  - destruct (priorityOf f <? priorityOf filter); simpl.
    + by rewrite bool_decide_eq_true_2.
    + rewrite bool_decide_eq_false_2 by done. by rewrite IH.
Qed.

Lemma setDelete_setAdd h s :
  Forall (λ h', handlerId h' ≠ handlerId h) s → setDelete h (setAdd h s) = s.
Proof.
  intros Hall. unfold setAdd, setDelete.
  assert (existsb (λ h', handlerId h' =? handlerId h)%nat s = false) as ->.
  { apply not_true_is_false. intros (x & Hx & He)%existsb_exists.
    apply Nat.eqb_eq in He. rewrite Forall_forall in Hall.
    by apply (Hall x); [apply list_elem_of_In|]. }
  rewrite List.filter_app. simpl. rewrite Nat.eqb_refl. simpl. rewrite app_nil_r.
  induction Hall as [|x l Hx _ IH]; simpl; [done|].
  apply Nat.eqb_neq in Hx. rewrite Hx. simpl. by rewrite IH.
Qed.

Lemma ordmap_get_bound (m : ordmap nat) k r n :
  Forall (λ r, (r < n)%nat) m.*2 → ordmap_get m k = Some r → (r < n)%nat.
Proof.
  intros Hall Hg%ordmap_get_Some_elem. rewrite Forall_forall in Hall. apply Hall.
  apply list_elem_of_fmap. by exists (k, r).
Qed.

Lemma onConfigChange_existing eventType handler bus r :
  ordmap_get (eventHandlers bus) eventType = Some r →
  onConfigChange eventType handler bus
  = ({| u_handlers := r; u_handler := handler; u_eventType := eventType |},
     {| eventHandlers := eventHandlers bus;
        sets := alter (setAdd handler) r (sets bus);
        globalFilters := globalFilters bus;
        statistics := statistics bus |}).
Proof. intros Hg. unfold onConfigChange, ordmap_has. rewrite Hg. cbn. by rewrite Hg. Qed.

Lemma onConfigChange_fresh eventType handler bus :
  ordmap_get (eventHandlers bus) eventType = None →
  onConfigChange eventType handler bus
  = ({| u_handlers := length (sets bus); u_handler := handler; u_eventType := eventType |},
     {| eventHandlers := ordmap_set (eventHandlers bus) eventType (length (sets bus));
        sets := sets bus ++ [[handler]];
        globalFilters := globalFilters bus;
        statistics := statistics bus |}).
Proof.
  intros Hg. unfold onConfigChange, ordmap_has. rewrite Hg. cbn.
  rewrite ordmap_get_set_eq. cbn. do 2 f_equal.
  apply list_eq. intros i. destruct (decide (i = length (sets bus))) as [->|Hne].
  - by rewrite list_lookup_alter_eq, !lookup_app_r, Nat.sub_diag by lia.
  - rewrite list_lookup_alter_ne by done.
    destruct (decide (i < length (sets bus))%nat).
    + by rewrite !lookup_app_l by lia.
    + rewrite !lookup_app_r by lia.
      by destruct (i - length (sets bus))%nat as [|m] eqn:Hi; [lia|].
Qed.

Lemma setAdd_fresh h s :
  Forall (λ h', handlerId h' ≠ handlerId h) s → setAdd h s = s ++ [h].
Proof.
  intros Hall. unfold setAdd.
  assert (existsb (λ h', handlerId h' =? handlerId h)%nat s = false) as ->; [|done].
  apply not_true_is_false. intros (x & Hx & He)%existsb_exists.
  apply Nat.eqb_eq in He. rewrite Forall_forall in Hall.
  by apply (Hall x); [apply list_elem_of_In|].
Qed.

(** X29: subscribing a handler that is not yet subscribed for the event
    type puts it last among the handlers of that type, and calling the
    returned function right away restores the handlers of every event
    type. *)
Theorem unsubscribe_undoes_subscribe eventType handler bus :
  Forall (λ r, (r < length (sets bus))%nat) (eventHandlers bus).*2 →
  Forall (λ h, handlerId h ≠ handlerId handler) (handlersOf bus eventType) →
  handlersOf (onConfigChange eventType handler bus).2 eventType
  = handlersOf bus eventType ++ [handler] ∧
  ∀ t, handlersOf (unsubscribe (onConfigChange eventType handler bus).1
                     (onConfigChange eventType handler bus).2) t
       = handlersOf bus t.
Proof.
  intros Hb Hfresh. unfold handlersOf in Hfresh.
  destruct (ordmap_get (eventHandlers bus) eventType) as [r|] eqn:Hg.
  - rewrite (onConfigChange_existing _ _ _ r Hg). cbn [fst snd].
    pose proof (ordmap_get_bound _ _ _ _ Hb Hg) as Hr.
    destruct (lookup_lt_is_Some_2 (sets bus) r Hr) as [s Hs].
    rewrite Hs in Hfresh. cbn in Hfresh.
    unfold handlersOf, unsubscribe. cbn [eventHandlers sets u_handlers u_handler u_eventType].
    rewrite Hg, list_lookup_alter_eq, Hs. cbn [fmap option_fmap option_map default].
    rewrite setAdd_fresh by done. split; [done|]. intros t.
    assert (alter (setDelete handler) r (alter (setAdd handler) r (sets bus)) = sets bus)
      as ->.
    { apply list_eq. intros i. destruct (decide (i = r)) as [->|Hne].
      - rewrite !list_lookup_alter_eq, Hs. cbn. by rewrite setDelete_setAdd.
      - by rewrite !list_lookup_alter_ne. }
    rewrite Hs. cbn [default].
    case_bool_decide as Hempty; [|done].
    rewrite ordmap_get_delete. case_decide as Ht; [|done].
    unfold id in Hempty. subst t s. by rewrite Hg, Hs.
  - rewrite (onConfigChange_fresh _ _ _ Hg). cbn [fst snd].
    unfold handlersOf, unsubscribe. cbn [eventHandlers sets u_handlers u_handler u_eventType].
    rewrite ordmap_get_set_eq, lookup_app_r, Nat.sub_diag by lia.
    split; [by rewrite Hg|]. intros t.
    rewrite list_lookup_alter_eq, lookup_app_r, Nat.sub_diag by lia. cbn.
    rewrite Nat.eqb_refl. cbn.
    rewrite ordmap_get_delete. case_decide as Ht.
    + subst t. by rewrite Hg.
    + rewrite ordmap_get_set_ne by done.
      destruct (ordmap_get (eventHandlers bus) t) as [r'|] eqn:Hg'; [|done].
      pose proof (ordmap_get_bound _ _ _ _ Hb Hg') as Hr'.
      rewrite list_lookup_alter_ne by lia. by rewrite lookup_app_l.
Qed.

(** X30: the function returned by [onConfigChange] is not idempotent.
    When it has emptied its event type and another handler subscribes to
    that type afterwards, a second call of it removes the event type with
    the new handler in it. *)
Theorem stale_unsubscribe_drops_newer_handlers eventType h1 h2 bus :
  ordmap_get (eventHandlers bus) eventType = None →
  let first := onConfigChange eventType h1 bus in
  let second := onConfigChange eventType h2 (unsubscribe first.1 first.2) in
  handlersOf second.2 eventType = [h2] ∧
  handlersOf (unsubscribe first.1 second.2) eventType = [].
Proof.
  intros Hg first second. subst second first.
  rewrite (onConfigChange_fresh _ _ _ Hg). cbn [fst snd].
  set (u1 := {| u_handlers := length (sets bus) |}).
  assert (unsubscribe u1
            {| eventHandlers := ordmap_set (eventHandlers bus) eventType (length (sets bus));
               sets := sets bus ++ [[h1]];
               globalFilters := globalFilters bus;
               statistics := statistics bus |}
          = {| eventHandlers :=
                 ordmap_delete
                   (ordmap_set (eventHandlers bus) eventType (length (sets bus))) eventType;
               sets := sets bus ++ [[]];
               globalFilters := globalFilters bus;
               statistics := statistics bus |}) as ->.
  { unfold unsubscribe. cbn [eventHandlers sets u_handlers u_handler u_eventType u1].
    assert (alter (setDelete h1) (length (sets bus)) (sets bus ++ [[h1]]) = sets bus ++ [[]])
      as ->.
    { apply list_eq. intros i. destruct (decide (i = length (sets bus))) as [->|Hne].
      - rewrite list_lookup_alter_eq, !lookup_app_r, Nat.sub_diag by lia. cbn.
        by rewrite Nat.eqb_refl.
      - rewrite list_lookup_alter_ne by done.
        destruct (decide (i < length (sets bus))%nat).
        + by rewrite !lookup_app_l by lia.
        + rewrite !lookup_app_r by lia.
          by destruct (i - length (sets bus))%nat as [|m] eqn:Hi; [lia|]. }
    rewrite lookup_app_r, Nat.sub_diag by lia. cbn. done. }
  rewrite onConfigChange_fresh by (cbn; apply ordmap_get_delete_eq). cbn [fst snd].
  unfold handlersOf, unsubscribe. cbn [eventHandlers sets u_handlers u_handler u_eventType u1].
  rewrite ordmap_get_set_eq. rewrite length_app. cbn [length].
  split.
  - rewrite lookup_app_r by (rewrite length_app; cbn; lia).
    rewrite length_app. cbn [length].
    by replace (length (sets bus) + 1 - (length (sets bus) + 1))%nat with 0%nat by lia.
  - rewrite list_lookup_alter_eq, <- (assoc_L (++)), lookup_app_r, Nat.sub_diag by lia.
    cbn. by rewrite ordmap_get_delete_eq.
Qed.


(** *** The bus on concrete inputs *)

(** A filter of priority 100 goes behind the installed one of priority 100. *)
Lemma filter_goes_behind_its_equals_witness :
  ∃ l1 l2,
    globalFilters configEventBus = l1 ++ l2 ∧
    globalFilters
      (addEventFilter (constantFilter "audit" (Some 100) (Normal true)) configEventBus)
    = l1 ++ constantFilter "audit" (Some 100) (Normal true) :: l2 ∧
    Forall (λ g, priorityOf (constantFilter "audit" (Some 100) (Normal true)) ≤ priorityOf g)
      l1 ∧
    Forall (λ g, priorityOf g < priorityOf (constantFilter "audit" (Some 100) (Normal true)))
      l2.
Proof.
  apply (filter_goes_behind_its_equals
           (constantFilter "audit" (Some 100) (Normal true)) configEventBus).
  repeat constructor.
Defined.

Lemma remove_undoes_add_witness :
  globalFilters
    (removeEventFilter "audit"
       (addEventFilter (constantFilter "audit" None (Normal true)) configEventBus))
  = globalFilters configEventBus.
Proof.
  apply (remove_undoes_add (constantFilter "audit" None (Normal true)) configEventBus).
  repeat constructor. simpl. discriminate.
Defined.

Lemma unsubscribe_undoes_subscribe_witness :
  handlersOf (onConfigChange "config-changed" (handler 2 true) oneSubscriber).2
    "config-changed"
  = handlersOf oneSubscriber "config-changed" ++ [handler 2 true] ∧
  ∀ t, handlersOf
         (unsubscribe (onConfigChange "config-changed" (handler 2 true) oneSubscriber).1
            (onConfigChange "config-changed" (handler 2 true) oneSubscriber).2) t
       = handlersOf oneSubscriber t.
Proof.
  apply (unsubscribe_undoes_subscribe "config-changed" (handler 2 true) oneSubscriber).
  - repeat constructor.
  - repeat constructor. simpl. discriminate.
Defined.

Lemma stale_unsubscribe_drops_newer_handlers_witness :
  let first := onConfigChange "base-config-changed" (handler 1 false) oneSubscriber in
  let second :=
    onConfigChange "base-config-changed" (handler 2 false) (unsubscribe first.1 first.2) in
  handlersOf second.2 "base-config-changed" = [handler 2 false] ∧
  handlersOf (unsubscribe first.1 second.2) "base-config-changed" = [].
Proof.
  apply (stale_unsubscribe_drops_newer_handlers "base-config-changed"
           (handler 1 false) (handler 2 false) oneSubscriber).
  reflexivity.
Defined.

End EventBusExtras.

